(** * Read thread, future queues and the bzip2 codec of libosmium

    A shallow embedding of three headers of libosmium and the properties of
    their classes:
    - osmium/io/detail/queue_util.hpp: [add_to_queue], [queue_wrapper];
    - osmium/io/detail/read_thread.hpp: [ReadThreadManager];
    - osmium/io/bzip2_compression.hpp: [file_wrapper], [Bzip2Compressor],
    [Bzip2Decompressor], [Bzip2BufferDecompressor].

    A C++ method is a function in a state and exception monad over the
    members of its object.  An outcome is a value returned, an exception
    thrown, or a halt: a failed [assert], a wait that never ends, a call of
    std::terminate, a null pointer handed to the C library.

    The queue of futures is a list, oldest first.  For the consumer it
    holds the futures pushed and not yet popped, followed by those still to
    come: the queue is first in, first out and [wait_and_pop] waits, so what
    the consumer gets depends on the order of the pushes only.

    The background thread of the ReadThreadManager is a step function on
    the program points of [run_in_thread]; a schedule interleaves its steps
    with calls of [stop()] and [close()] in the main thread.  The
    decompressor behind it is the interface of two methods; its calls come
    back, with a value or an exception.

    The codec is modelled over an interface of what it calls in libbz2,
    stdio and the rest of libosmium; the calls that act on the world are
    logged in the order in which they are made. *)

From Stdlib Require Import List String ZArith Bool Arith Lia.
From Stdlib Require Import Decimal DecimalString.
Import ListNotations.

Set Implicit Arguments.

(** ** Outcomes of a method call *)

(** Ways a call can fail to come back to its caller at all. *)
Inductive halt : Type :=
| Blocked                          (* waits for an event that never comes *)
| AssertionFailed (cond : string)  (* assert(cond) with cond false *)
| Terminated                       (* exception leaving a noexcept function *)
| OutOfFuel                        (* loop bound of the model exhausted *)
| Crashed (call : string).         (* a null pointer handed to the C library *)

Inductive outcome (E A : Type) : Type :=
| Return (a : A)
| Throw (e : E)
| Halt (h : halt).

Arguments Return {E A} a.
Arguments Throw {E A} e.
Arguments Halt {E A} h.

(** State and exception monad: [S] is the state, [E] the exceptions. *)
Definition M (S E A : Type) : Type := S -> outcome E A * S.

Definition ret {S E A} (a : A) : M S E A := fun s => (Return a, s).

Definition bind {S E A B} (m : M S E A) (k : A -> M S E B) : M S E B :=
  fun s =>
    match m s with
    | (Return a, s') => k a s'
    | (Throw e, s') => (Throw e, s')
    | (Halt h, s') => (Halt h, s')
    end.

Definition throw {S E A} (e : E) : M S E A := fun s => (Throw e, s).

Definition halt_with {S E A} (h : halt) : M S E A := fun s => (Halt h, s).

(** [try { m } catch (...) { handler }] *)
Definition try_catch {S E A} (m : M S E A) (handler : E -> M S E A) : M S E A :=
  fun s =>
    match m s with
    | (Throw e, s') => handler e s'
    | r => r
    end.

(** A [noexcept] function: an exception that leaves it calls std::terminate. *)
Definition noexcept {S E A} (m : M S E A) : M S E A :=
  fun s =>
    match m s with
    | (Throw _, s') => (Halt Terminated, s')
    | r => r
    end.

Definition gets {S E A} (f : S -> A) : M S E A := fun s => (Return (f s), s).

Definition modify {S E} (f : S -> S) : M S E unit := fun s => (Return tt, f s).

(** [assert(cond)] of <cassert>, in a build without NDEBUG. *)
Definition assert_ {S E} (cond : bool) (text : string) : M S E unit :=
  if cond then ret tt else halt_with (AssertionFailed text).

Declare Scope monad_scope.
Delimit Scope monad_scope with monad.
Notation "x <- m ;; k" := (bind m (fun x => k))
  (at level 61, m at next level, right associativity) : monad_scope.
Notation "m ;;; k" := (bind m (fun _ => k))
  (at level 61, right associativity) : monad_scope.
Open Scope monad_scope.

(** [std::string::empty] *)
Definition empty (s : string) : bool :=
  match s with
  | EmptyString => true
  | String _ _ => false
  end.

(** ** queue_util.hpp *)

Module Queue.

(** A [std::future<T>] whose promise has been fulfilled holds a value or an
    exception. *)
Inductive future (E T : Type) : Type :=
| Ready (v : T)
| Failed (e : E).

Arguments Ready {E T} v.
Arguments Failed {E T} e.

(** [add_to_queue(queue, T&& data)]: the future is pushed and its promise is
    fulfilled with the value at once. *)
Definition add_to_queue {E T} (queue : list (future E T)) (data : T)
  : list (future E T) :=
  queue ++ [Ready data].

(** [add_to_queue(queue, std::exception_ptr&& exception)] *)
Definition add_to_queue_exception {E T} (queue : list (future E T)) (exception : E)
  : list (future E T) :=
  queue ++ [Failed exception].

(** What [queue_wrapper<T>] needs of [T]: the value [T{}] and the
    specialisation of [check_is_done] for it, that is the test whose
    result is stored in [m_done].  The header has one for [std::string]
    and one for [osmium::memory::Buffer] ([m_done = !data]). *)
Class Checkable (T : Type) : Type := {
  T_default : T;
  is_end : T -> bool
}.

(** [queue_wrapper<std::string>::check_is_done]: [m_done = data.empty()] *)
#[global] Instance string_checkable : Checkable string := {|
  T_default := EmptyString;
  is_end := empty
|}.

Section QueueWrapper.

Context {E T : Type} `{Checkable T}.

(** The object.  [m_queue] is the referenced queue as the consumer sees it:
    the futures that have been pushed and not yet popped, oldest first,
    followed by those still to be pushed; it is empty when nothing more
    will ever arrive.  [waits] counts the calls of [wait_and_pop]. *)
Record queue_wrapper : Type := {
  m_queue : list (future E T);
  m_done : bool;
  waits : nat
}.

(** [queue_wrapper(queue_type& queue)] *)
Definition make (queue : list (future E T)) : queue_wrapper :=
  {| m_queue := queue; m_done := false; waits := 0 |}.

(** [m_queue.wait_and_pop(data_future)] *)
Definition wait_and_pop : M queue_wrapper E (future E T) :=
  fun w =>
    match m_queue w with
    | [] =>
        (Halt Blocked,
         {| m_queue := []; m_done := m_done w; waits := S (waits w) |})
    | f :: rest =>
        (Return f,
         {| m_queue := rest; m_done := m_done w; waits := S (waits w) |})
    end.

(** [data_future.get()] *)
Definition get (data_future : future E T) : M queue_wrapper E T :=
  match data_future with
  | Ready v => ret v
  | Failed e => throw e
  end.

Definition check_is_done (data : T) : M queue_wrapper E unit :=
  modify (fun w =>
    {| m_queue := m_queue w; m_done := is_end data; waits := waits w |}).

Definition is_done (w : queue_wrapper) : bool := m_done w.

Definition pop : M queue_wrapper E T :=
  done <- gets m_done ;;
  if done then ret T_default
  else
    data_future <- wait_and_pop ;;
    data <- get data_future ;;
    check_is_done data ;;;
    ret data.

(** [while (!m_done) { try { pop(); } catch (...) { } }] *)
Fixpoint drain_loop (fuel : nat) : M queue_wrapper E unit :=
  match fuel with
  | O => halt_with OutOfFuel
  | S fuel' =>
      done <- gets m_done ;;
      if done then ret tt
      else
        try_catch (pop ;;; ret tt) (fun _ => ret tt) ;;;
        drain_loop fuel'
  end.

(** Every turn of the loop that does not block takes one future off the
    queue, so the length of the queue bounds the number of turns. *)
Definition drain : M queue_wrapper E unit :=
  fun w => drain_loop (S (List.length (m_queue w))) w.

(** [~queue_wrapper() noexcept { drain(); }] *)
Definition destructor : M queue_wrapper E unit := noexcept drain.

(** [n] calls of [pop], with their outcomes. *)
Fixpoint pops (n : nat) (w : queue_wrapper) : list (outcome E T) * queue_wrapper :=
  match n with
  | O => ([], w)
  | S n' =>
      let (r, w1) := pop w in
      let (rs, w2) := pops n' w1 in
      (r :: rs, w2)
  end.

(** Does the future end the stream when popped? *)
Definition ends_stream (f : future E T) : bool :=
  match f with
  | Ready v => is_end v
  | Failed _ => false
  end.

(** What the consumer gets out of a future. *)
Definition outcome_of (f : future E T) : outcome E T :=
  match f with
  | Ready v => Return v
  | Failed e => Throw e
  end.

(** What is left of the queue after its first end marker. *)
Fixpoint after_end (q : list (future E T)) : list (future E T) :=
  match q with
  | [] => []
  | f :: rest => if ends_stream f then rest else after_end rest
  end.

End QueueWrapper.

Arguments queue_wrapper : clear implicits.

End Queue.

(** ** read_thread.hpp *)

Module ReadThread.

Import Queue.

(** What a virtual call on [osmium::io::Decompressor] gives back. *)
Inductive result (E A : Type) : Type :=
| Value (a : A)
| Exception (e : E).

Arguments Value {E A} a.
Arguments Exception {E A} e.

Section ReadThreadManager.

(** The interface [osmium::io::Decompressor] (compression.hpp): the state
    of the object behind [m_decompressor] and its two virtual methods.
    [E] stands for [std::exception_ptr]. *)
Variables (E decompressor : Type).
Variable read : decompressor -> result E string * decompressor.
Variable close_decompressor : decompressor -> result E unit * decompressor.

(** Program points of [run_in_thread]. *)
Inductive pc : Type :=
| LoopTest                 (* while (!m_done) *)
| ReadChunk                (* data = m_decompressor->read(); if (data.empty()) break; *)
| PushData (data : string) (* add_to_queue(m_queue, std::move(data)); *)
| CloseDecompressor        (* m_decompressor->close(); *)
| Catch (e : E)            (* catch (...) { add_to_queue(m_queue, std::current_exception()); } *)
| PushSentinel             (* add_to_queue(m_queue, std::string{}); *)
| Exited.                  (* run_in_thread has returned *)

(** The manager and its thread.  [m_queue] holds what has been pushed into
    the referenced queue so far, oldest first; [reads] counts the calls of
    [read] that have come back. *)
Record manager : Type := {
  m_decompressor : decompressor;
  m_queue : list (future E string);
  m_done : bool;
  thread_pc : pc;
  joinable : bool;
  reads : nat
}.

Definition set_pc (p : pc) (m : manager) : manager :=
  {| m_decompressor := m_decompressor m; m_queue := m_queue m;
     m_done := m_done m; thread_pc := p; joinable := joinable m;
     reads := reads m |}.

Definition set_queue (q : list (future E string)) (m : manager) : manager :=
  {| m_decompressor := m_decompressor m; m_queue := q;
     m_done := m_done m; thread_pc := thread_pc m; joinable := joinable m;
     reads := reads m |}.

Definition after_read (d : decompressor) (m : manager) : manager :=
  {| m_decompressor := d; m_queue := m_queue m;
     m_done := m_done m; thread_pc := thread_pc m; joinable := joinable m;
     reads := S (reads m) |}.

Definition set_decompressor (d : decompressor) (m : manager) : manager :=
  {| m_decompressor := d; m_queue := m_queue m;
     m_done := m_done m; thread_pc := thread_pc m; joinable := joinable m;
     reads := reads m |}.

(** The constructor: [m_done(false)], and the thread is started. *)
Definition make (d : decompressor) : manager :=
  {| m_decompressor := d; m_queue := []; m_done := false;
     thread_pc := LoopTest; joinable := true; reads := 0 |}.

(** One step of the background thread. *)
Definition run_in_thread_step (m : manager) : manager :=
  match thread_pc m with
  | LoopTest =>
      if m_done m then set_pc CloseDecompressor m else set_pc ReadChunk m
  | ReadChunk =>
      match read (m_decompressor m) with
      | (Value data, d) =>
          if empty data
          then set_pc CloseDecompressor (after_read d m)
          else set_pc (PushData data) (after_read d m)
      | (Exception e, d) => set_pc (Catch e) (after_read d m)
      end
  | PushData data =>
      set_pc LoopTest (set_queue (add_to_queue (m_queue m) data) m)
  | CloseDecompressor =>
      match close_decompressor (m_decompressor m) with
      | (Value _, d) => set_pc PushSentinel (set_decompressor d m)
      | (Exception e, d) => set_pc (Catch e) (set_decompressor d m)
      end
  | Catch e =>
      set_pc PushSentinel (set_queue (add_to_queue_exception (m_queue m) e) m)
  | PushSentinel =>
      set_pc Exited (set_queue (add_to_queue (m_queue m) EmptyString) m)
  | Exited => m
  end.

(** [stop() noexcept { m_done = true; }] *)
Definition stop (m : manager) : manager :=
  {| m_decompressor := m_decompressor m; m_queue := m_queue m;
     m_done := true; thread_pc := thread_pc m; joinable := joinable m;
     reads := reads m |}.

Definition has_exited (m : manager) : bool :=
  match thread_pc m with
  | Exited => true
  | _ => false
  end.

(** [m_thread.join()]: comes back once the thread has exited, and the
    thread is not joinable afterwards. *)
Definition join : M manager E unit :=
  fun m =>
    if has_exited m
    then (Return tt,
          {| m_decompressor := m_decompressor m; m_queue := m_queue m;
             m_done := m_done m; thread_pc := thread_pc m; joinable := false;
             reads := reads m |})
    else (Halt Blocked, m).

(** [close() { stop(); if (m_thread.joinable()) { m_thread.join(); } }] *)
Definition close : M manager E unit :=
  modify stop ;;;
  j <- gets joinable ;;
  if j then join else ret tt.

(** [~ReadThreadManager() noexcept { try { close(); } catch (...) { } }] *)
Definition destructor : M manager E unit :=
  noexcept (try_catch close (fun _ => ret tt)).

(** What can happen next: the background thread takes a step, or the main
    thread calls [stop()], or the main thread calls [close()] (which has
    an effect beyond [stop()] only when the join can come back). *)
Inductive action : Type :=
| Background
| CallStop
| CallClose.

Definition perform (a : action) (m : manager) : manager :=
  match a with
  | Background => run_in_thread_step m
  | CallStop => stop m
  | CallClose => snd (close m)
  end.

(** A schedule, first action first. *)
Fixpoint run (schedule : list action) (m : manager) : manager :=
  match schedule with
  | [] => m
  | a :: rest => run rest (perform a m)
  end.

(** [n] steps of the background thread with the main thread idle, as
    during [join]. *)
Fixpoint background (n : nat) (m : manager) : manager :=
  match n with
  | O => m
  | S n' => background n' (run_in_thread_step m)
  end.

(** The futures that signal the end of data: ready, with an empty string. *)
Definition is_sentinel (f : future E string) : bool :=
  match f with
  | Ready s => empty s
  | Failed _ => false
  end.

Definition sentinels (q : list (future E string)) : nat :=
  List.length (filter is_sentinel q).

(** The futures with data in them. *)
Definition is_data (f : future E string) : bool :=
  match f with
  | Ready s => negb (empty s)
  | Failed _ => false
  end.

Definition data_pushes (q : list (future E string)) : nat :=
  List.length (filter is_data q).

Definition all_data (q : list (future E string)) : Prop :=
  forallb is_data q = true.

(** What has been pushed, by program point: chunks with data in them
    while the loop runs, then the exception if one was caught, then the
    empty string. *)
Definition queue_shape (m : manager) : Prop :=
  match thread_pc m with
  | PushData data => empty data = false /\ all_data (m_queue m)
  | PushSentinel =>
      exists chunks, all_data chunks /\
        (m_queue m = chunks \/ exists e, m_queue m = chunks ++ [Failed e])
  | Exited =>
      exists chunks, all_data chunks /\
        (m_queue m = chunks ++ [Ready EmptyString] \/
         exists e, m_queue m = chunks ++ [Failed e; Ready EmptyString])
  | _ => all_data (m_queue m)
  end.

(** The program points behind the loop. *)
Definition left_loop (p : pc) : bool :=
  match p with
  | CloseDecompressor | Catch _ | PushSentinel | Exited => true
  | LoopTest | ReadChunk | PushData _ => false
  end.

(** The longest way to [Exited] once the flag is set, in steps. *)
Definition steps_to_exit (p : pc) : nat :=
  match p with
  | ReadChunk => 6
  | PushData _ => 5
  | LoopTest => 4
  | CloseDecompressor => 3
  | Catch _ => 2
  | PushSentinel => 1
  | Exited => 0
  end.

(** Calls of [read] and pushes of data still ahead once the flag is set. *)
Definition reads_ahead (p : pc) : nat :=
  match p with
  | ReadChunk => 1
  | _ => 0
  end.

Definition pushes_ahead (p : pc) : nat :=
  match p with
  | ReadChunk | PushData _ => 1
  | _ => 0
  end.

(** The loop is about to be left: by the flag, by the end of the file, or
    by an exception. *)
Definition loop_ending (m : manager) : Prop :=
  (thread_pc m = LoopTest /\ m_done m = true) \/
  (thread_pc m = ReadChunk /\
   fst (read (m_decompressor m)) = Value EmptyString) \/
  (thread_pc m = ReadChunk /\
   exists e, fst (read (m_decompressor m)) = Exception e).

(** The way to [Exited] from there, in steps. *)
Definition steps_from_loop (p : pc) : nat :=
  match p with
  | LoopTest | ReadChunk => 4
  | _ => steps_to_exit p
  end.

(** The next step of the background thread is a call that throws [e]. *)
Definition raises (m : manager) (e : E) : Prop :=
  (thread_pc m = ReadChunk /\
   fst (read (m_decompressor m)) = Exception e) \/
  (thread_pc m = CloseDecompressor /\
   fst (close_decompressor (m_decompressor m)) = Exception e).

(** The background thread does not come to the loop test within its next
    [n] steps. *)
Definition avoids_test (n : nat) (m : manager) : Prop :=
  forall k, k < n -> thread_pc (background k m) <> LoopTest.

(** Two states in which the background thread is at the same point, with
    the same decompressor and the same pushes behind it. *)
Definition same_thread (m1 m2 : manager) : Prop :=
  m_decompressor m1 = m_decompressor m2 /\
  m_queue m1 = m_queue m2 /\
  thread_pc m1 = thread_pc m2 /\
  reads m1 = reads m2.

(** The steps of the background thread in a schedule. *)
Definition is_background (a : action) : bool :=
  match a with
  | Background => true
  | _ => false
  end.

Definition background_steps (schedule : list action) : nat :=
  List.length (filter is_background schedule).

End ReadThreadManager.

Arguments LoopTest {E}.
Arguments ReadChunk {E}.
Arguments PushData {E} data.
Arguments CloseDecompressor {E}.
Arguments PushSentinel {E}.
Arguments Exited {E}.
Arguments make {E decompressor} d.

(** A decompressor for examples: [read] gives the answers of a list in
    turn and the empty string once the list is used up, [close] succeeds.
    Exceptions are numbers. *)
Definition scripted_read (d : list (result nat string))
  : result nat string * list (result nat string) :=
  match d with
  | [] => (Value EmptyString, [])
  | answer :: rest => (answer, rest)
  end.

Definition scripted_close (d : list (result nat string))
  : result nat unit * list (result nat string) :=
  (Value tt, d).

End ReadThread.

(** ** bzip2_compression.hpp *)

Module Bzip2.

(** Status codes of <bzlib.h>. *)
Definition BZ_OK : Z := 0.
Definition BZ_STREAM_END : Z := 4.
Definition BZ_PARAM_ERROR : Z := -2.
Definition BZ_MEM_ERROR : Z := -3.
Definition BZ_DATA_ERROR : Z := -4.
Definition BZ_IO_ERROR : Z := -6.
Definition BZ_UNEXPECTED_EOF : Z := -7.

(** [std::numeric_limits<int>::max()] and the range of [std::size_t]. *)
Definition INT_MAX : Z := 2147483647.
Definition UINT_MAX : Z := 4294967295.
Definition to_size_t (z : Z) : Z := z mod 2 ^ 64.

(** [std::to_string(int)] *)
Definition to_string (z : Z) : string := NilZero.string_of_int (Z.to_int z).

(** The exceptions of this file: [osmium::bzip2_error] with its message and
    its two members, and [std::system_error] with the error number and the
    message it was made from. *)
Inductive exn : Type :=
| bzip2_error (what : string) (bzip2_error_code : Z) (system_errno : Z)
| system_error (code : Z) (what : string).

(** A [FILE*] that is not null, named by the descriptor that [fdopen]
    wrapped: [fileno] gives it back. *)
Definition FILE : Type := Z.
Definition fileno (f : FILE) : Z := f.

(** What this file calls in libbz2, in stdio and in
    osmium/io/detail/read_write.hpp, and the constant it takes from
    osmium/io/compression.hpp.  [world] is the state of all that: the files,
    the streams of the library, errno.  A call gives its results and the
    world after it.  Bytes that a call stores through a pointer, together
    with their number, are given as a string: [BZ2_bzRead] and
    [BZ2_bzDecompress] give the bytes decoded into the buffer handed in,
    [BZ2_bzReadGetUnused] the unused bytes; a handle is given as [true] when
    it is not null. *)
Class System (world : Type) : Type := {
  input_buffer_size : Z;
  sys_errno : world -> Z;
  fdopen : Z -> string -> world -> bool * world;
  sys_close : Z -> world -> world;
  fclose : FILE -> world -> Z * world;
  ftell : option FILE -> world -> Z;
  feof : option FILE -> world -> bool;
  reliable_fsync : Z -> world -> option exn * world;
  BZ2_bzerror : world -> string * Z;
  BZ2_bzWriteOpen : world -> (Z * bool) * world;
  BZ2_bzWrite : string -> world -> Z * world;
  BZ2_bzWriteClose64 : world -> (Z * Z * Z) * world;
  BZ2_bzReadOpen : string -> world -> (Z * bool) * world;
  BZ2_bzRead : Z -> world -> (Z * string) * world;
  BZ2_bzReadGetUnused : world -> (Z * string) * world;
  BZ2_bzReadClose : world -> Z * world;
  BZ2_bzDecompressInit : string -> world -> Z * world;
  BZ2_bzDecompress : Z -> world -> (Z * string) * world;
  BZ2_bzDecompressEnd : world -> Z * world
}.

(** The calls that act on the world, as they are logged. *)
Inductive event : Type :=
| Call_fdopen (fd : Z) (mode : string)
| Call_close (fd : Z)
| Call_fclose (f : FILE)
| Call_reliable_fsync (fd : Z)
| Call_remove_buffered_pages (fd : Z) (size : option Z)
| Call_BZ2_bzWriteOpen
| Call_BZ2_bzWrite (data : string)
| Call_BZ2_bzWriteClose64
| Call_BZ2_bzReadOpen (unused : string)
| Call_BZ2_bzRead (len : Z)
| Call_BZ2_bzReadGetUnused
| Call_BZ2_bzReadClose
| Call_BZ2_bzDecompressInit
| Call_BZ2_bzDecompress
| Call_BZ2_bzDecompressEnd.

(** An object [self] in its world, with the calls made so far. *)
Record env (world O : Type) : Type := {
  self : O;
  sys : world;
  calls : list event
}.

Section Calls.

Context {world : Type} `{System world} {O : Type}.

Definition method (A : Type) : Type := M (env world O) exn A.

(** A call that acts on the world. *)
Definition call {A} (ev : event) (f : world -> A * world) : method A :=
  fun s =>
    let (a, w) := f (sys s) in
    (Return a, {| self := self s; sys := w; calls := calls s ++ [ev] |}).

(** A call that acts on nothing this file can see. *)
Definition advise (ev : event) : method unit :=
  fun s =>
    (Return tt, {| self := self s; sys := sys s; calls := calls s ++ [ev] |}).

(** A call that only looks. *)
Definition query {A} (f : world -> A) : method A :=
  fun s => (Return (f (sys s)), s).

Definition field {A} (f : O -> A) : method A :=
  fun s => (Return (f (self s)), s).

(** A pointer that the C library is about to follow: with the null
    pointer the behaviour is undefined, and the program stops there. *)
Definition follows {A} (pointer : option A) (call : string) : method unit :=
  match pointer with
  | Some _ => ret tt
  | None => halt_with (Crashed call)
  end.

Definition assign (f : O -> O) : method unit :=
  fun s =>
    (Return tt, {| self := f (self s); sys := sys s; calls := calls s |}).

(** [throw bzip2_error{what, error_code}]: the constructor takes errno
    along for [BZ_IO_ERROR]. *)
Definition throw_bzip2 {A} (what : string) (error_code : Z) : method A :=
  errno <- query sys_errno ;;
  throw (bzip2_error what error_code
           (if error_code =? BZ_IO_ERROR then errno else 0)%Z).

Definition throw_bzip2_error {A} (bzfile : bool) (msg : string) (bzlib_error : Z)
  : method A :=
  let error := ("bzip2 error: " ++ msg ++ ": ")%string in
  if negb (bzlib_error =? 0)%Z
  then throw_bzip2 (error ++ to_string bzlib_error)%string bzlib_error
  else if bzfile
       then r <- query BZ2_bzerror ;;
            throw_bzip2 (error ++ fst r)%string (snd r)
       else throw_bzip2 error bzlib_error.

End Calls.

(** A method of a member object, run on the member inside the object. *)
Definition on_member {world O P A} (get : O -> P) (set : P -> O -> O)
  (m : M (env world P) exn A) : M (env world O) exn A :=
  fun s =>
    let (r, s') := m {| self := get (self s); sys := sys s; calls := calls s |} in
    (r, {| self := set (self s') (self s); sys := sys s'; calls := calls s' |}).

Module file_wrapper.

Record t : Type := { m_file : option FILE }.

Section Methods.

Context {world : Type} `{System world}.

(** [file_wrapper(const int fd, const char* mode)] *)
Definition constructor (fd : Z) (mode : string) : method (O:=t) unit :=
  ok <- call (Call_fdopen fd mode) (fdopen fd mode) ;;
  if ok then assign (fun _ => {| m_file := Some fd |})
  else
    (if negb (fd =? 1)%Z
     then call (Call_close fd) (fun w => (tt, sys_close fd w))
     else ret tt) ;;;
    errno <- query sys_errno ;;
    throw (system_error errno "fdopen failed").

Definition file (o : t) : option FILE := m_file o.

Definition close : method (O:=t) unit :=
  f <- field m_file ;;
  match f with
  | Some wrapped_file =>
      assign (fun _ => {| m_file := None |}) ;;;
      if (fileno wrapped_file =? 1)%Z then ret tt
      else
        r <- call (Call_fclose wrapped_file) (fclose wrapped_file) ;;
        if negb (r =? 0)%Z
        then errno <- query sys_errno ;;
             throw (system_error errno "fclose failed")
        else ret tt
  | None => ret tt
  end.

(** [~file_wrapper() noexcept] *)
Definition destructor : method (O:=t) unit :=
  f <- field m_file ;;
  match f with
  | Some wrapped_file =>
      call (Call_fclose wrapped_file) (fclose wrapped_file) ;;; ret tt
  | None => ret tt
  end.

End Methods.

End file_wrapper.

Module Bzip2Compressor.

(** [do_fsync] is what [Compressor::do_fsync()] answers, as fixed by
    [Compressor(sync)]. *)
Record t : Type := {
  do_fsync : bool;
  m_file_size : Z;
  m_file : file_wrapper.t;
  m_bzfile : bool
}.

Definition set_m_file (f : file_wrapper.t) (o : t) : t :=
  {| do_fsync := do_fsync o; m_file_size := m_file_size o;
     m_file := f; m_bzfile := m_bzfile o |}.

Definition set_m_bzfile (b : bool) (o : t) : t :=
  {| do_fsync := do_fsync o; m_file_size := m_file_size o;
     m_file := m_file o; m_bzfile := b |}.

Definition set_m_file_size (n : Z) (o : t) : t :=
  {| do_fsync := do_fsync o; m_file_size := n;
     m_file := m_file o; m_bzfile := m_bzfile o |}.

(** The members as they are before the body of the constructor runs. *)
Definition fresh (sync : bool) : t :=
  {| do_fsync := sync; m_file_size := 0;
     m_file := {| file_wrapper.m_file := None |}; m_bzfile := false |}.

Section Methods.

Context {world : Type} `{System world}.

(** [Bzip2Compressor(const int fd, const fsync sync)], on [fresh sync] *)
Definition constructor (fd : Z) : method (O:=t) unit :=
  on_member m_file set_m_file (file_wrapper.constructor fd "wb") ;;;
  r <- call Call_BZ2_bzWriteOpen BZ2_bzWriteOpen ;;
  let bzerror := fst r in
  assign (set_m_bzfile (snd r)) ;;;
  if negb (snd r)
  then throw_bzip2 "bzip2 error: write open failed" bzerror
  else ret tt.

Definition write (data : string) : method (O:=t) unit :=
  assert_ (Z.of_nat (String.length data) <? INT_MAX)%Z
    "data.size() < std::numeric_limits<int>::max()" ;;;
  bzfile <- field m_bzfile ;;
  assert_ bzfile "m_bzfile" ;;;
  bzerror <- call (Call_BZ2_bzWrite data) (BZ2_bzWrite data) ;;
  if negb (bzerror =? BZ_OK)%Z && negb (bzerror =? BZ_STREAM_END)%Z
  then throw_bzip2_error bzfile "write failed" bzerror
  else ret tt.

Definition close : method (O:=t) unit :=
  bzfile <- field m_bzfile ;;
  if bzfile then
    r <- call Call_BZ2_bzWriteClose64 BZ2_bzWriteClose64 ;;
    let bzerror := fst (fst r) in
    let nbytes_out_lo32 := snd (fst r) in
    let nbytes_out_hi32 := snd r in
    assign (set_m_bzfile false) ;;;
    sync <- field do_fsync ;;
    f <- field (fun o => file_wrapper.file (m_file o)) ;;
    match f with
    | Some file =>
        if sync
        then
          thrown <- call (Call_reliable_fsync (fileno file))
                      (reliable_fsync (fileno file)) ;;
          match thrown with
          | Some e => throw e
          | None => ret tt
          end
        else ret tt
    | None => ret tt
    end ;;;
    on_member m_file set_m_file file_wrapper.close ;;;
    (if negb (bzerror =? BZ_OK)%Z
     then throw_bzip2 "bzip2 error: write close failed" bzerror
     else ret tt) ;;;
    assign (set_m_file_size
              (to_size_t (Z.lor (Z.shiftl nbytes_out_hi32 32) nbytes_out_lo32)))
  else ret tt.

Definition file_size (o : t) : Z := m_file_size o.

(** [~Bzip2Compressor() noexcept { try { close(); } catch (...) { } }] *)
Definition destructor : method (O:=t) unit :=
  noexcept (try_catch close (fun _ => ret tt)).

End Methods.

End Bzip2Compressor.

Module Bzip2Decompressor.

(** [want_buffered_pages_removed] is what the method of that name in
    [Decompressor] answers, [offset] the value last given to
    [Decompressor::set_offset]. *)
Record t : Type := {
  want_buffered_pages_removed : bool;
  offset : Z;
  m_file : file_wrapper.t;
  m_bzfile : bool;
  m_stream_end : bool
}.

Definition set_m_file (f : file_wrapper.t) (o : t) : t :=
  {| want_buffered_pages_removed := want_buffered_pages_removed o;
     offset := offset o; m_file := f; m_bzfile := m_bzfile o;
     m_stream_end := m_stream_end o |}.

Definition set_m_bzfile (b : bool) (o : t) : t :=
  {| want_buffered_pages_removed := want_buffered_pages_removed o;
     offset := offset o; m_file := m_file o; m_bzfile := b;
     m_stream_end := m_stream_end o |}.

Definition set_m_stream_end (b : bool) (o : t) : t :=
  {| want_buffered_pages_removed := want_buffered_pages_removed o;
     offset := offset o; m_file := m_file o; m_bzfile := m_bzfile o;
     m_stream_end := b |}.

Definition set_offset (n : Z) (o : t) : t :=
  {| want_buffered_pages_removed := want_buffered_pages_removed o;
     offset := n; m_file := m_file o; m_bzfile := m_bzfile o;
     m_stream_end := m_stream_end o |}.

Definition fresh (remove_pages : bool) : t :=
  {| want_buffered_pages_removed := remove_pages; offset := 0;
     m_file := {| file_wrapper.m_file := None |}; m_bzfile := false;
     m_stream_end := false |}.

(** [fileno(m_file.file())]; the wrapper holds a file wherever the
    source takes the descriptor. *)
Definition descriptor (o : t) : Z :=
  match file_wrapper.file (m_file o) with
  | Some file => fileno file
  | None => -1
  end.

Section Methods.

Context {world : Type} `{System world}.

(** The call of [remove_buffered_pages] at the head of [read]. *)
Definition page_advice (s : env world t) : list event :=
  let offset := ftell (file_wrapper.file (m_file (self s))) (sys s) in
  if (offset >? 0)%Z && want_buffered_pages_removed (self s)
  then [Call_remove_buffered_pages (descriptor (self s)) (Some (to_size_t offset))]
  else [].

(** [Bzip2Decompressor(const int fd)], on [fresh _] *)
Definition constructor (fd : Z) : method (O:=t) unit :=
  on_member m_file set_m_file (file_wrapper.constructor fd "rb") ;;;
  r <- call (Call_BZ2_bzReadOpen "") (BZ2_bzReadOpen "") ;;
  let bzerror := fst r in
  assign (set_m_bzfile (snd r)) ;;;
  if negb (snd r)
  then throw_bzip2 "bzip2 error: read open failed" bzerror
  else ret tt.

(** The branch of [read] for [bzerror == BZ_STREAM_END]. *)
Definition at_stream_end : method (O:=t) unit :=
  file <- field (fun o => file_wrapper.file (m_file o)) ;;
  eof <- query (feof file) ;;
  if negb eof then
    r <- call Call_BZ2_bzReadGetUnused BZ2_bzReadGetUnused ;;
    let bzerror := fst r in
    let unused_data := snd r in
    bzfile <- field m_bzfile ;;
    (if negb (bzerror =? BZ_OK)%Z
     then throw_bzip2_error bzfile "get unused failed" bzerror
     else ret tt) ;;;
    if negb (String.length unused_data =? 0) then
      bzerror <- call Call_BZ2_bzReadClose BZ2_bzReadClose ;;
      (if negb (bzerror =? BZ_OK)%Z
       then throw_bzip2 "bzip2 error: read close failed" bzerror
       else ret tt) ;;;
      assert_ (Z.of_nat (String.length unused_data) <? INT_MAX)%Z
        "unused_data.size() < std::numeric_limits<int>::max()" ;;;
      r <- call (Call_BZ2_bzReadOpen unused_data) (BZ2_bzReadOpen unused_data) ;;
      assign (set_m_bzfile (snd r)) ;;;
      if negb (snd r)
      then throw_bzip2 "bzip2 error: read open failed" (fst r)
      else ret tt
    else
      bzerror <- call Call_BZ2_bzReadClose BZ2_bzReadClose ;;
      (if negb (bzerror =? BZ_OK)%Z
       then throw_bzip2 "bzip2 error: read close failed" bzerror
       else ret tt) ;;;
      r <- call (Call_BZ2_bzReadOpen "") (BZ2_bzReadOpen "") ;;
      assign (set_m_bzfile (snd r)) ;;;
      if negb (snd r) || negb (fst r =? BZ_OK)%Z
      then assign (set_m_stream_end true) ;;;
           assign (set_m_bzfile false)
      else ret tt
  else assign (set_m_stream_end true).

Definition read : method (O:=t) string :=
  file <- field (fun o => file_wrapper.file (m_file o)) ;;
  follows file "ftell(m_file.file())" ;;;
  offset <- query (ftell file) ;;
  remove <- field want_buffered_pages_removed ;;
  fd <- field descriptor ;;
  (if (offset >? 0)%Z && remove
   then advise (Call_remove_buffered_pages fd (Some (to_size_t offset)))
   else ret tt) ;;;
  bzfile <- field m_bzfile ;;
  assert_ bzfile "m_bzfile" ;;;
  stream_end <- field m_stream_end ;;
  buffer <-
    (if negb stream_end then
       assert_ (input_buffer_size <? INT_MAX)%Z
         "buffer.size() < std::numeric_limits<int>::max()" ;;;
       r <- call (Call_BZ2_bzRead input_buffer_size)
              (BZ2_bzRead input_buffer_size) ;;
       let bzerror := fst r in
       (if negb (bzerror =? BZ_OK)%Z && negb (bzerror =? BZ_STREAM_END)%Z
        then throw_bzip2_error bzfile "read failed" bzerror
        else ret tt) ;;;
       (if (bzerror =? BZ_STREAM_END)%Z then at_stream_end else ret tt) ;;;
       ret (snd r)
     else ret EmptyString) ;;
  file <- field (fun o => file_wrapper.file (m_file o)) ;;
  offset <- query (ftell file) ;;
  assign (set_offset (to_size_t offset)) ;;;
  ret buffer.

Definition close : method (O:=t) unit :=
  bzfile <- field m_bzfile ;;
  if bzfile then
    remove <- field want_buffered_pages_removed ;;
    fd <- field descriptor ;;
    (if remove
     then advise (Call_remove_buffered_pages fd None)
     else ret tt) ;;;
    bzerror <- call Call_BZ2_bzReadClose BZ2_bzReadClose ;;
    assign (set_m_bzfile false) ;;;
    on_member m_file set_m_file file_wrapper.close ;;;
    if negb (bzerror =? BZ_OK)%Z
    then throw_bzip2 "bzip2 error: read close failed" bzerror
    else ret tt
  else ret tt.

(** [~Bzip2Decompressor() noexcept { try { close(); } catch (...) { } }] *)
Definition destructor : method (O:=t) unit :=
  noexcept (try_catch close (fun _ => ret tt)).

End Methods.

End Bzip2Decompressor.

Module Bzip2BufferDecompressor.

(** [m_buffer] is the buffer pointed to, or [None] for the null pointer;
    [m_bzstream] lives in the world of the library. *)
Record t : Type := {
  m_buffer : option string;
  m_buffer_size : Z
}.

Definition fresh (buffer : option string) (size : Z) : t :=
  {| m_buffer := buffer; m_buffer_size := size |}.

Definition bytes (buffer : option string) : string :=
  match buffer with
  | Some b => b
  | None => EmptyString
  end.

Section Methods.

Context {world : Type} `{System world}.

(** [Bzip2BufferDecompressor(const char* buffer, const std::size_t size)],
    on [fresh buffer size] *)
Definition constructor : method (O:=t) unit :=
  buffer <- field m_buffer ;;
  size <- field m_buffer_size ;;
  assert_ (size <? UINT_MAX)%Z
    "size < std::numeric_limits<unsigned int>::max()" ;;;
  result <- call Call_BZ2_bzDecompressInit (BZ2_bzDecompressInit (bytes buffer)) ;;
  if negb (result =? BZ_OK)%Z
  then throw_bzip2 "bzip2 error: decompression init failed: " result
  else ret tt.

Definition read : method (O:=t) string :=
  buffer <- field m_buffer ;;
  match buffer with
  | Some _ =>
      let buffer_size := 10240%Z in
      r <- call Call_BZ2_bzDecompress (BZ2_bzDecompress buffer_size) ;;
      let result := fst r in
      (if negb (result =? BZ_OK)%Z
       then assign (fun _ => {| m_buffer := None; m_buffer_size := 0 |})
       else ret tt) ;;;
      (if negb (result =? BZ_OK)%Z && negb (result =? BZ_STREAM_END)%Z
       then throw_bzip2 "bzip2 error: decompress failed: " result
       else ret tt) ;;;
      ret (snd r)
  | None => ret EmptyString
  end.

Definition close : method (O:=t) unit :=
  call Call_BZ2_bzDecompressEnd BZ2_bzDecompressEnd ;;; ret tt.

(** [~Bzip2BufferDecompressor() noexcept { try { close(); } catch (...) { } }] *)
Definition destructor : method (O:=t) unit :=
  noexcept (try_catch close (fun _ => ret tt)).

End Methods.

End Bzip2BufferDecompressor.

(** [n] calls of a method one after the other, with their outcomes. *)
Fixpoint repeatedly {S E A} (n : nat) (m : M S E A) (s : S) : list (outcome E A) * S :=
  match n with
  | O => ([], s)
  | S n' =>
      let (r, s1) := m s in
      let (rs, s2) := repeatedly n' m s1 in
      (r :: rs, s2)
  end.

(** A world for examples: the library and the system answer from a script. *)
Module Script.

Record world : Type := {
  bzRead_answers : list (Z * string);
  bzDecompress_answers : list (Z * string);
  at_eof : bool;
  unused_bytes : string;
  bzReadOpen_answer : Z * bool;
  bzReadClose_answer : Z;
  bzWriteClose64_answer : Z * Z * Z;
  bzDecompressEnd_answers : list Z;
  fclose_answer : Z;
  fsync_answer : option exn;
  errno : Z;
  position : Z
}.

Definition next_bzRead (w : world) : (Z * string) * world :=
  match bzRead_answers w with
  | [] => ((BZ_STREAM_END, EmptyString), w)
  | a :: rest =>
      (a, {| bzRead_answers := rest;
             bzDecompress_answers := bzDecompress_answers w;
             at_eof := at_eof w; unused_bytes := unused_bytes w;
             bzReadOpen_answer := bzReadOpen_answer w;
             bzReadClose_answer := bzReadClose_answer w;
             bzWriteClose64_answer := bzWriteClose64_answer w;
             bzDecompressEnd_answers := bzDecompressEnd_answers w;
             fclose_answer := fclose_answer w; fsync_answer := fsync_answer w;
             errno := errno w; position := position w |})
  end.

Definition next_bzDecompress (w : world) : (Z * string) * world :=
  match bzDecompress_answers w with
  | [] => ((BZ_STREAM_END, EmptyString), w)
  | a :: rest =>
      (a, {| bzRead_answers := bzRead_answers w;
             bzDecompress_answers := rest;
             at_eof := at_eof w; unused_bytes := unused_bytes w;
             bzReadOpen_answer := bzReadOpen_answer w;
             bzReadClose_answer := bzReadClose_answer w;
             bzWriteClose64_answer := bzWriteClose64_answer w;
             bzDecompressEnd_answers := bzDecompressEnd_answers w;
             fclose_answer := fclose_answer w; fsync_answer := fsync_answer w;
             errno := errno w; position := position w |})
  end.

Definition next_bzDecompressEnd (w : world) : Z * world :=
  match bzDecompressEnd_answers w with
  | [] => (BZ_PARAM_ERROR, w)
  | a :: rest =>
      (a, {| bzRead_answers := bzRead_answers w;
             bzDecompress_answers := bzDecompress_answers w;
             at_eof := at_eof w; unused_bytes := unused_bytes w;
             bzReadOpen_answer := bzReadOpen_answer w;
             bzReadClose_answer := bzReadClose_answer w;
             bzWriteClose64_answer := bzWriteClose64_answer w;
             bzDecompressEnd_answers := rest;
             fclose_answer := fclose_answer w; fsync_answer := fsync_answer w;
             errno := errno w; position := position w |})
  end.

#[global] Instance system : System world := {|
  input_buffer_size := 1048576;
  sys_errno := errno;
  fdopen := fun _ _ w => (true, w);
  sys_close := fun _ w => w;
  fclose := fun _ w => (fclose_answer w, w);
  ftell := fun _ w => position w;
  feof := fun _ w => at_eof w;
  reliable_fsync := fun _ w => (fsync_answer w, w);
  BZ2_bzerror := fun _ => (EmptyString, 0%Z);
  BZ2_bzWriteOpen := fun w => ((BZ_OK, true), w);
  BZ2_bzWrite := fun _ w => (BZ_OK, w);
  BZ2_bzWriteClose64 := fun w => (bzWriteClose64_answer w, w);
  BZ2_bzReadOpen := fun _ w => (bzReadOpen_answer w, w);
  BZ2_bzRead := fun _ => next_bzRead;
  BZ2_bzReadGetUnused := fun w => ((BZ_OK, unused_bytes w), w);
  BZ2_bzReadClose := fun w => (bzReadClose_answer w, w);
  BZ2_bzDecompressInit := fun _ w => (BZ_OK, w);
  BZ2_bzDecompress := fun _ => next_bzDecompress;
  BZ2_bzDecompressEnd := next_bzDecompressEnd
|}.

(** A plain world: every call succeeds, nothing is left to read. *)
Definition quiet : world :=
  {| bzRead_answers := []; bzDecompress_answers := [];
     at_eof := true; unused_bytes := EmptyString;
     bzReadOpen_answer := (BZ_OK, true); bzReadClose_answer := BZ_OK;
     bzWriteClose64_answer := (BZ_OK, 0%Z, 0%Z);
     bzDecompressEnd_answers := [BZ_OK];
     fclose_answer := 0; fsync_answer := None; errno := 0; position := 0 |}.

(** The finalisation of the write stream fails with an I/O error, with
    errno 28 (ENOSPC), after 7 bytes. *)
Definition failing_finalize : world :=
  {| bzRead_answers := []; bzDecompress_answers := [];
     at_eof := true; unused_bytes := EmptyString;
     bzReadOpen_answer := (BZ_OK, true); bzReadClose_answer := BZ_OK;
     bzWriteClose64_answer := (BZ_IO_ERROR, 7%Z, 0%Z);
     bzDecompressEnd_answers := [BZ_OK];
     fclose_answer := 0; fsync_answer := None; errno := 28; position := 0 |}.

(** A file of two streams, the first with no data in it: the first call
    of [BZ2_bzRead] ends a stream without a byte, with bytes of the next
    stream read ahead, the second decodes [data] and ends a stream. *)
Definition empty_first_stream : world :=
  {| bzRead_answers := [(BZ_STREAM_END, EmptyString);
                      (BZ_STREAM_END, "data"%string)];
     bzDecompress_answers := [];
     at_eof := false; unused_bytes := "BZh9"%string;
     bzReadOpen_answer := (BZ_OK, true); bzReadClose_answer := BZ_OK;
     bzWriteClose64_answer := (BZ_OK, 0%Z, 0%Z);
     bzDecompressEnd_answers := [BZ_OK];
     fclose_answer := 0; fsync_answer := None; errno := 0; position := 14 |}.

(** A short file of two streams, read to its end in one go: the first
    stream ends with the end-of-file indicator set and the second stream
    in the unused bytes. *)
Definition leftover_at_eof : world :=
  {| bzRead_answers := [(BZ_STREAM_END, "first"%string)];
     bzDecompress_answers := [];
     at_eof := true; unused_bytes := "BZh9"%string;
     bzReadOpen_answer := (BZ_OK, true); bzReadClose_answer := BZ_OK;
     bzWriteClose64_answer := (BZ_OK, 0%Z, 0%Z);
     bzDecompressEnd_answers := [BZ_OK];
     fclose_answer := 0; fsync_answer := None; errno := 0; position := 60 |}.

(** A stream ends with nothing read ahead and the file not at its end,
    and no new stream can be opened. *)
Definition no_new_stream : world :=
  {| bzRead_answers := [(BZ_STREAM_END, "last"%string)];
     bzDecompress_answers := [];
     at_eof := false; unused_bytes := EmptyString;
     bzReadOpen_answer := (BZ_MEM_ERROR, false); bzReadClose_answer := BZ_OK;
     bzWriteClose64_answer := (BZ_OK, 0%Z, 0%Z);
     bzDecompressEnd_answers := [BZ_OK];
     fclose_answer := 0; fsync_answer := None; errno := 0; position := 60 |}.

(** A buffer that decodes to [data] in one call. *)
Definition one_block : world :=
  {| bzRead_answers := [];
     bzDecompress_answers := [(BZ_STREAM_END, "data"%string)];
     at_eof := true; unused_bytes := EmptyString;
     bzReadOpen_answer := (BZ_OK, true); bzReadClose_answer := BZ_OK;
     bzWriteClose64_answer := (BZ_OK, 0%Z, 0%Z);
     bzDecompressEnd_answers := [BZ_OK];
     fclose_answer := 0; fsync_answer := None; errno := 0; position := 0 |}.

Definition start {O} (o : O) (w : world) : env world O :=
  {| self := o; sys := w; calls := [] |}.

(** Objects as their constructors leave them. *)
Definition compressor (fd : Z) (sync : bool) : Bzip2Compressor.t :=
  {| Bzip2Compressor.do_fsync := sync; Bzip2Compressor.m_file_size := 0;
     Bzip2Compressor.m_file := {| file_wrapper.m_file := Some fd |};
     Bzip2Compressor.m_bzfile := true |}.

Definition decompressor (fd : Z) (remove_pages : bool) : Bzip2Decompressor.t :=
  {| Bzip2Decompressor.want_buffered_pages_removed := remove_pages;
     Bzip2Decompressor.offset := 0;
     Bzip2Decompressor.m_file := {| file_wrapper.m_file := Some fd |};
     Bzip2Decompressor.m_bzfile := true;
     Bzip2Decompressor.m_stream_end := false |}.

Definition ended_decompressor (fd : Z) : Bzip2Decompressor.t :=
  {| Bzip2Decompressor.want_buffered_pages_removed := true;
     Bzip2Decompressor.offset := 60;
     Bzip2Decompressor.m_file := {| file_wrapper.m_file := Some fd |};
     Bzip2Decompressor.m_bzfile := true;
     Bzip2Decompressor.m_stream_end := true |}.

Definition buffer_decompressor (buffer : string) : Bzip2BufferDecompressor.t :=
  Bzip2BufferDecompressor.fresh (Some buffer) (Z.of_nat (String.length buffer)).

End Script.

End Bzip2.

(** ** Further notions: pushing and popping in order *)

Module Fifo.

Import Queue.

Section Fifo.

Context {E T : Type} `{Checkable T}.

(** The push that leaves a given future in the queue: one of the two
    overloads of [add_to_queue]. *)
Definition push (queue : list (future E T)) (item : future E T)
  : list (future E T) :=
  match item with
  | Ready v => add_to_queue queue v
  | Failed e => add_to_queue_exception queue e
  end.

Definition push_all (queue : list (future E T)) (items : list (future E T))
  : list (future E T) :=
  fold_left push items queue.

(** The futures in front of the first end marker. *)
Fixpoint before_end (q : list (future E T)) : list (future E T) :=
  match q with
  | [] => []
  | f :: rest => if ends_stream f then [] else f :: before_end rest
  end.

End Fifo.

End Fifo.

(** ** Further notions: what the read thread has read *)

Module Forwarding.

Import Queue ReadThread.

Section Forwarding.

Variables (E decompressor : Type).
Variable read : decompressor -> result E string * decompressor.
Variable close_decompressor : decompressor -> result E unit * decompressor.

(** The decompressor after [k] calls of [read], and what they gave. *)
Fixpoint after_reads (k : nat) (d : decompressor) : decompressor :=
  match k with
  | O => d
  | S k' => after_reads k' (snd (read d))
  end.

Fixpoint read_results (k : nat) (d : decompressor) : list (result E string) :=
  match k with
  | O => []
  | S k' => fst (read d) :: read_results k' (snd (read d))
  end.

Definition nonempty (s : string) : Prop := empty s = false.

(** The reads that filled the queue with [chunks]: one read for each
    chunk, and no further read or one that gave the empty string. *)
Definition read_to_end (results : list (result E string)) (chunks : list string)
  : Prop :=
  results = map Value chunks \/
  results = map Value chunks ++ [Value EmptyString].

(** How the thread came to its end. *)
Inductive ending : Type :=
| Closed              (* the loop was left and close() came back *)
| ReadThrew (e : E)   (* a call of read() threw *)
| CloseThrew (e : E). (* the loop was left and close() threw *)

Definition failure_of (en : ending) : list (future E string) :=
  match en with
  | Closed => []
  | ReadThrew e | CloseThrew e => [Failed e]
  end.

(** The reads made and the state of the decompressor for an ending. *)
Definition came_to (d0 : decompressor) (m : manager E decompressor)
  (chunks : list string) (en : ending) : Prop :=
  let d := after_reads (reads m) d0 in
  let results := read_results (reads m) d0 in
  match en with
  | Closed =>
      read_to_end results chunks /\
      fst (close_decompressor d) = Value tt /\
      m_decompressor m = snd (close_decompressor d)
  | ReadThrew e =>
      results = map Value chunks ++ [Exception e] /\
      m_decompressor m = d
  | CloseThrew e =>
      read_to_end results chunks /\
      fst (close_decompressor d) = Exception e /\
      m_decompressor m = snd (close_decompressor d)
  end.

(** What the thread has read and pushed, by program point. *)
Definition forwarded (d0 : decompressor) (m : manager E decompressor) : Prop :=
  let d := after_reads (reads m) d0 in
  let results := read_results (reads m) d0 in
  match thread_pc m with
  | LoopTest | ReadChunk =>
      exists chunks, Forall nonempty chunks /\
        results = map Value chunks /\
        m_decompressor m = d /\
        ReadThread.m_queue m = map Ready chunks
  | PushData data =>
      exists chunks, Forall nonempty chunks /\ nonempty data /\
        results = map Value (chunks ++ [data]) /\
        m_decompressor m = d /\
        ReadThread.m_queue m = map Ready chunks
  | CloseDecompressor =>
      exists chunks, Forall nonempty chunks /\
        read_to_end results chunks /\
        m_decompressor m = d /\
        ReadThread.m_queue m = map Ready chunks
  | Catch e =>
      exists chunks, Forall nonempty chunks /\
        (came_to d0 m chunks (ReadThrew e) \/ came_to d0 m chunks (CloseThrew e)) /\
        ReadThread.m_queue m = map Ready chunks
  | PushSentinel =>
      exists chunks en, Forall nonempty chunks /\
        came_to d0 m chunks en /\
        ReadThread.m_queue m = map Ready chunks ++ failure_of en
  | Exited =>
      exists chunks en, Forall nonempty chunks /\
        came_to d0 m chunks en /\
        ReadThread.m_queue m
        = map Ready chunks ++ failure_of en ++ [Ready EmptyString]
  end.

End Forwarding.

Arguments Closed {E}.

(** A decompressor for examples that counts the calls of its [close]:
    the answers of [read] still to come, and the count. *)
Definition counted_read (d : list (result nat string) * nat)
  : result nat string * (list (result nat string) * nat) :=
  (fst (scripted_read (fst d)), (snd (scripted_read (fst d)), snd d)).

Definition counted_close (d : list (result nat string) * nat)
  : result nat unit * (list (result nat string) * nat) :=
  (Value tt, (fst d, S (snd d))).

(** The same with a [close] that throws 9. *)
Definition throwing_close (d : list (result nat string) * nat)
  : result nat unit * (list (result nat string) * nat) :=
  (Exception 9, (fst d, S (snd d))).

End Forwarding.

(** ** Further notions: the life of a codec object *)

Module Lifecycle.

Import Bzip2.

Definition is_fclose (ev : event) : bool :=
  match ev with
  | Call_fclose _ => true
  | _ => false
  end.

Definition is_finalize (ev : event) : bool :=
  match ev with
  | Call_BZ2_bzWriteClose64 => true
  | _ => false
  end.

(** The calls to the codec that need a handle. *)
Definition uses_handle (ev : event) : bool :=
  match ev with
  | Call_BZ2_bzWrite _ | Call_BZ2_bzWriteClose64 | Call_BZ2_bzRead _
  | Call_BZ2_bzReadGetUnused | Call_BZ2_bzReadClose => true
  | _ => false
  end.

Definition count (p : event -> bool) (l : list event) : nat :=
  List.length (filter p l).

(** What a user calls on a compressor between construction and
    destruction. *)
Inductive compressor_call : Type :=
| Write (data : string)
| CloseCompressor.

(** What a user calls on a decompressor. *)
Inductive decompressor_call : Type :=
| Read
| CloseDecompressor.

Section Lifecycle.

Context {world : Type} `{System world}.

Definition compressor_method (c : compressor_call)
  : method (O:=Bzip2Compressor.t) unit :=
  match c with
  | Write data => Bzip2Compressor.write data
  | CloseCompressor => Bzip2Compressor.close
  end.

Definition decompressor_method (c : decompressor_call)
  : method (O:=Bzip2Decompressor.t) unit :=
  match c with
  | Read => Bzip2Decompressor.read ;;; ret tt
  | CloseDecompressor => Bzip2Decompressor.close
  end.

(** A sequence of calls by a user who goes on after an exception; a halt
    (a failed assertion) ends the program, and the rest is not run.  The
    flag tells whether the program is still running. *)
Fixpoint calls_in_turn {O} (methods : list (method (O:=O) unit)) (s : env world O)
  : bool * env world O :=
  match methods with
  | [] => (true, s)
  | m :: rest =>
      match m s with
      | (Halt _, s') => (false, s')
      | (_, s') => calls_in_turn rest s'
      end
  end.

(** The end of a compressor: its destructor, then the destructor of its
    member [m_file]. *)
Definition destroy_compressor : method (O:=Bzip2Compressor.t) unit :=
  Bzip2Compressor.destructor ;;;
  on_member Bzip2Compressor.m_file Bzip2Compressor.set_m_file
    file_wrapper.destructor.

Definition destroy_decompressor : method (O:=Bzip2Decompressor.t) unit :=
  Bzip2Decompressor.destructor ;;;
  on_member Bzip2Decompressor.m_file Bzip2Decompressor.set_m_file
    file_wrapper.destructor.

(** [new Bzip2Compressor{fd, sync}] and [new Bzip2Decompressor{fd}] of the
    registration: the constructor on the fresh members; when its body
    throws, the members constructed by then are destroyed before the
    exception goes on.  The wrapper holds a file only when its own
    constructor returned, so its destructor does nothing otherwise. *)
Definition new_compressor (fd : Z) : method (O:=Bzip2Compressor.t) unit :=
  try_catch (Bzip2Compressor.constructor fd)
    (fun e =>
       on_member Bzip2Compressor.m_file Bzip2Compressor.set_m_file
         file_wrapper.destructor ;;;
       throw e).

Definition new_decompressor (fd : Z) : method (O:=Bzip2Decompressor.t) unit :=
  try_catch (Bzip2Decompressor.constructor fd)
    (fun e =>
       on_member Bzip2Decompressor.m_file Bzip2Decompressor.set_m_file
         file_wrapper.destructor ;;;
       throw e).

(** The calls that give a descriptor back to the system. *)
Definition releases (fd : Z) (ev : event) : bool :=
  match ev with
  | Call_close fd' => (fd' =? fd)%Z
  | Call_fclose f => (fileno f =? fd)%Z
  | _ => false
  end.

(** The bookkeeping of a compressor over descriptor [fd]: the stream has
    been finalised as often as the handle says, and the file has been
    closed as often as the wrapper says. *)
Definition compressor_accounts (fd : Z) (s : env world Bzip2Compressor.t) : Prop :=
  count is_finalize (calls s)
  = (if Bzip2Compressor.m_bzfile (self s) then 0 else 1) /\
  match file_wrapper.file (Bzip2Compressor.m_file (self s)) with
  | Some f => f = fd /\ count is_fclose (calls s) = 0
  | None =>
      Bzip2Compressor.m_bzfile (self s) = false /\
      count is_fclose (calls s) = (if (fd =? 1)%Z then 0 else 1)
  end.

Definition decompressor_accounts (fd : Z) (s : env world Bzip2Decompressor.t)
  : Prop :=
  match file_wrapper.file (Bzip2Decompressor.m_file (self s)) with
  | Some f => f = fd /\ count is_fclose (calls s) = 0
  | None =>
      Bzip2Decompressor.m_bzfile (self s) = false /\
      count is_fclose (calls s) = (if (fd =? 1)%Z then 0 else 1)
  end.

End Lifecycle.

End Lifecycle.

(** ** Further worlds for examples *)

Module Scenes.

Import Bzip2 Bzip2.Script.

(** A world in which every call succeeds, with the answers of
    [BZ2_bzRead], of [BZ2_bzDecompress] and of fsync as given; the file
    stands at position 40, and the finalisation of a write stream counts
    2^32 + 5 bytes. *)
Definition answering (reads decodes : list (Z * string)) (sync : option exn)
  : world :=
  {| bzRead_answers := reads; bzDecompress_answers := decodes;
     at_eof := false; unused_bytes := EmptyString;
     bzReadOpen_answer := (BZ_OK, true); bzReadClose_answer := BZ_OK;
     bzWriteClose64_answer := (BZ_OK, 5%Z, 1%Z);
     bzDecompressEnd_answers := [BZ_OK];
     fclose_answer := 0; fsync_answer := sync; errno := 5; position := 40 |}.

(** A system in which the library opens no stream; the world says
    whether [fdopen] works. *)
Definition no_streams : System bool := {|
  input_buffer_size := 1048576;
  sys_errno := fun _ => 24%Z;
  fdopen := fun _ _ w => (w, w);
  sys_close := fun _ w => w;
  fclose := fun _ w => (0%Z, w);
  ftell := fun _ _ => 0%Z;
  feof := fun _ _ => true;
  reliable_fsync := fun _ w => (None, w);
  BZ2_bzerror := fun _ => (EmptyString, 0%Z);
  BZ2_bzWriteOpen := fun w => ((BZ_MEM_ERROR, false), w);
  BZ2_bzWrite := fun _ w => (BZ_PARAM_ERROR, w);
  BZ2_bzWriteClose64 := fun w => ((BZ_PARAM_ERROR, 0%Z, 0%Z), w);
  BZ2_bzReadOpen := fun _ w => ((BZ_MEM_ERROR, false), w);
  BZ2_bzRead := fun _ w => ((BZ_PARAM_ERROR, EmptyString), w);
  BZ2_bzReadGetUnused := fun w => ((BZ_PARAM_ERROR, EmptyString), w);
  BZ2_bzReadClose := fun w => (BZ_OK, w);
  BZ2_bzDecompressInit := fun _ w => (BZ_MEM_ERROR, w);
  BZ2_bzDecompress := fun _ w => ((BZ_PARAM_ERROR, EmptyString), w);
  BZ2_bzDecompressEnd := fun w => (BZ_PARAM_ERROR, w)
|}.

End Scenes.

(** * Properties *)

(** ** The queue wrapper *)

Section QueueWrapperFacts.

Import Queue.
Context {E T : Type} `{Checkable T}.

Lemma pop_done (w : queue_wrapper E T) :
  m_done w = true -> pop w = (Return T_default, w).
Proof.
  intros Hdone. unfold pop, bind, gets. rewrite Hdone. reflexivity.
Qed.

Lemma pop_ready (v : T) (q : list (future E T)) (n : nat) :
  pop {| m_queue := Ready v :: q; m_done := false; waits := n |}
  = (Return v, {| m_queue := q; m_done := is_end v; waits := S n |}).
Proof. reflexivity. Qed.

Lemma pop_failed (e : E) (q : list (future E T)) (n : nat) :
  pop {| m_queue := Failed e :: q; m_done := false; waits := n |}
  = (Throw e, {| m_queue := q; m_done := false; waits := S n |}).
Proof. reflexivity. Qed.

Lemma pop_blocked (n : nat) :
  pop {| m_queue := @nil (future E T); m_done := false; waits := n |}
  = (Halt Blocked, {| m_queue := []; m_done := false; waits := S n |}).
Proof. reflexivity. Qed.

Lemma pops_done (n : nat) (w : queue_wrapper E T) :
  m_done w = true -> pops n w = (repeat (Return T_default) n, w).
Proof.
  intros Hdone. induction n as [|n IH]; simpl.
  - reflexivity.
  - rewrite (pop_done w Hdone), IH. reflexivity.
Qed.

Lemma after_end_length (q : list (future E T)) :
  List.length (after_end q) <= List.length q.
Proof.
  induction q as [|f q IH]; simpl; [lia|].
  destruct (ends_stream f); lia.
Qed.

(** The loop of [drain] on a wrapper that is not done: with an end marker
    in the queue it stops behind the first one, without one it ends up
    waiting on the empty queue. *)
Lemma drain_loop_active (q : list (future E T)) :
  forall (fuel n : nat),
    List.length q < fuel ->
    drain_loop fuel {| m_queue := q; m_done := false; waits := n |}
    = if existsb ends_stream q
      then (Return tt,
            {| m_queue := after_end q; m_done := true;
               waits := n + (List.length q - List.length (after_end q)) |})
      else (Halt Blocked,
            {| m_queue := []; m_done := false;
               waits := n + S (List.length q) |}).
Proof.
  induction q as [|f q IH]; intros fuel n Hfuel;
    (destruct fuel as [|fuel]; [simpl in Hfuel; lia|]).
  - simpl. unfold bind, gets, try_catch. simpl.
    replace (n + 1) with (S n) by lia. reflexivity.
  - simpl in Hfuel.
    destruct f as [v|e].
    + cbn [drain_loop]. unfold bind at 1. unfold gets at 1. cbn [m_done].
      unfold bind at 1. unfold try_catch. unfold bind at 1.
      rewrite pop_ready. unfold ret at 1.
      cbn [existsb ends_stream after_end orb].
      destruct (is_end v) eqn:Hend.
      * destruct fuel as [|fuel]; [lia|].
        cbn [drain_loop]. unfold bind, gets, ret. cbn [m_done List.length orb].
        f_equal. f_equal. lia.
      * rewrite IH by lia. cbn [orb].
        pose proof (after_end_length q).
        destruct (existsb ends_stream q); f_equal; f_equal; cbn [List.length]; lia.
    + cbn [drain_loop]. unfold bind at 1. unfold gets at 1. cbn [m_done].
      unfold bind at 1. unfold try_catch. unfold bind at 1.
      rewrite pop_failed. unfold ret at 1.
      cbn [existsb ends_stream after_end orb].
      rewrite IH by lia.
      pose proof (after_end_length q).
      destruct (existsb ends_stream q); f_equal; f_equal; cbn [List.length]; lia.
Qed.

Lemma drain_done (w : queue_wrapper E T) :
  m_done w = true -> drain w = (Return tt, w).
Proof.
  intros Hdone. unfold drain. cbn [drain_loop]. unfold bind, gets.
  rewrite Hdone. reflexivity.
Qed.

Lemma drain_active (w : queue_wrapper E T) :
  m_done w = false ->
  drain w
  = if existsb ends_stream (m_queue w)
    then (Return tt,
          {| m_queue := after_end (m_queue w); m_done := true;
             waits := waits w
                      + (List.length (m_queue w)
                         - List.length (after_end (m_queue w))) |})
    else (Halt Blocked,
          {| m_queue := []; m_done := false;
             waits := waits w + S (List.length (m_queue w)) |}).
Proof.
  intros Hdone. unfold drain. destruct w as [q d n].
  cbn [m_done m_queue waits] in *. subst d.
  apply drain_loop_active. lia.
Qed.

Lemma destructor_is_drain (w : queue_wrapper E T) : destructor w = drain w.
Proof.
  unfold destructor, noexcept.
  destruct (m_done w) eqn:Hdone.
  - rewrite drain_done by assumption. reflexivity.
  - rewrite drain_active by assumption.
    destruct (existsb ends_stream (m_queue w)); reflexivity.
Qed.

Lemma pops_app (a b : nat) :
  forall w : queue_wrapper E T,
    pops (a + b) w
    = (fst (pops a w) ++ fst (pops b (snd (pops a w))),
       snd (pops b (snd (pops a w)))).
Proof.
  induction a as [|a IH]; intros w; cbn [pops Nat.add].
  - cbn. destruct (pops b w); reflexivity.
  - destruct (pop w) as [r w1]. rewrite IH.
    destruct (pops a w1) as [rs w2]. cbn [fst snd].
    destruct (pops b w2) as [rs' w3]. reflexivity.
Qed.

(** Popping futures that do not end the stream hands out what is in them,
    one by one, and leaves the wrapper active. *)
Lemma pops_prefix (pre rest : list (future E T)) :
  forall n : nat,
    forallb (fun f => negb (ends_stream f)) pre = true ->
    pops (List.length pre) {| m_queue := pre ++ rest; m_done := false; waits := n |}
    = (map outcome_of pre,
       {| m_queue := rest; m_done := false; waits := n + List.length pre |}).
Proof.
  induction pre as [|f pre IH]; intros n Hpre; cbn [List.length pops app map].
  - rewrite Nat.add_0_r. reflexivity.
  - cbn [forallb] in Hpre. apply andb_prop in Hpre. destruct Hpre as [Hf Hpre].
    destruct f as [v|e]; rewrite <- app_comm_cons.
    + rewrite pop_ready. cbn [ends_stream] in Hf.
      apply negb_true_iff in Hf. rewrite Hf.
      rewrite IH by assumption. cbn [outcome_of].
      replace (S n + List.length pre) with (n + S (List.length pre)) by lia.
      reflexivity.
    + rewrite pop_failed. rewrite IH by assumption. cbn [outcome_of].
      replace (S n + List.length pre) with (n + S (List.length pre)) by lia.
      reflexivity.
Qed.

(** C3.  A queue_wrapper that is done answers every [pop] with the
    default-constructed value [T{}] and stays exactly as it is: the queue
    keeps all its futures, no [wait_and_pop] is counted, and the wrapper is
    still done; so any number of further calls give the same. *)
Theorem pop_when_done_is_sentinel (w : queue_wrapper E T) :
  m_done w = true ->
  pop w = (Return T_default, w) /\
  forall n : nat, pops n w = (repeat (Return T_default) n, w).
Proof.
  intros Hdone. split.
  - apply pop_done. assumption.
  - intros n. apply pops_done. assumption.
Qed.

(** C4.  [drain] calls [pop] until the wrapper is done and drops every
    exception that a popped future throws: it never throws, it does not
    run out of loop turns, and when it returns the wrapper is done.  It
    returns whenever the wrapper is done already or an end marker is in
    the queue, however many failed futures come before the marker, having
    popped the futures up to and including the first marker and nothing
    behind it.  Without a marker it waits on the empty queue.  The
    destructor is [drain]: no exception leaves it, so std::terminate is
    never called for it. *)
Theorem drain_pops_until_done (w : queue_wrapper E T) :
  (forall e : E, fst (drain w) <> Throw e) /\
  fst (drain w) <> Halt OutOfFuel /\
  (fst (drain w) = Return tt -> m_done (snd (drain w)) = true) /\
  (m_done w = true \/ existsb ends_stream (m_queue w) = true ->
   fst (drain w) = Return tt) /\
  (m_done w = false -> existsb ends_stream (m_queue w) = true ->
   m_queue (snd (drain w)) = after_end (m_queue w) /\
   waits (snd (drain w))
   = waits w + (List.length (m_queue w) - List.length (after_end (m_queue w)))) /\
  (m_done w = false -> existsb ends_stream (m_queue w) = false ->
   fst (drain w) = Halt Blocked) /\
  destructor w = drain w /\
  (forall e : E, fst (destructor w) <> Throw e) /\
  fst (destructor w) <> Halt Terminated.
Proof.
  rewrite destructor_is_drain.
  destruct (m_done w) eqn:Hdone.
  - rewrite (drain_done w Hdone). cbn [fst snd].
    repeat split; try discriminate; auto.
  - rewrite (drain_active w Hdone).
    destruct (existsb ends_stream (m_queue w)) eqn:Hend; cbn [fst snd m_queue m_done waits];
      repeat split; try discriminate; auto.
    intros [Hd|Hd]; discriminate.
Qed.

End QueueWrapperFacts.

(** ** The read thread *)

Section ReadThreadFacts.

Import Queue ReadThread.

Variables (E decompressor : Type).
Variable read : decompressor -> result E string * decompressor.
Variable close_decompressor : decompressor -> result E unit * decompressor.

Local Abbreviation step := (run_in_thread_step read close_decompressor).
Local Abbreviation run := (ReadThread.run read close_decompressor).
Local Abbreviation background := (ReadThread.background read close_decompressor).
Local Abbreviation perform := (ReadThread.perform read close_decompressor).
Local Abbreviation manager := (ReadThread.manager E decompressor).
Local Abbreviation avoids_test := (ReadThread.avoids_test read close_decompressor).
Local Abbreviation raises := (ReadThread.raises read close_decompressor).
Local Abbreviation loop_ending := (ReadThread.loop_ending read).

(** *** The main thread does not touch what the background thread owns *)

Lemma same_thread_refl (m : manager) : same_thread m m.
Proof. repeat split. Qed.

Lemma same_thread_trans (m1 m2 m3 : manager) :
  same_thread m1 m2 -> same_thread m2 m3 -> same_thread m1 m3.
Proof.
  intros (A1 & A2 & A3 & A4) (B1 & B2 & B3 & B4).
  repeat split; congruence.
Qed.

Lemma stop_same_thread (m : manager) : same_thread (stop m) m.
Proof. repeat split. Qed.

Lemma close_same_thread (m : manager) : same_thread (snd (ReadThread.close m)) m.
Proof.
  destruct m as [d q dn p j r].
  unfold ReadThread.close, bind, modify, gets, join, ret, has_exited, same_thread.
  destruct j; [destruct p|]; cbn; repeat split.
Qed.

Lemma close_m_done (m : manager) : ReadThread.m_done (snd (ReadThread.close m)) = true.
Proof.
  destruct m as [d q dn p j r].
  unfold ReadThread.close, bind, modify, gets, join, ret, has_exited.
  destruct j; [destruct p|]; reflexivity.
Qed.

(** The flag is read at [LoopTest] and nowhere else: away from it the
    step depends on what the thread owns only. *)
Lemma step_same_thread (m1 m2 : manager) :
  same_thread m1 m2 ->
  thread_pc m1 <> LoopTest ->
  same_thread (step m1) (step m2).
Proof.
  intros (H1 & H2 & H3 & H4) Hpc.
  unfold run_in_thread_step. rewrite <- H3, <- H1, <- H2.
  destruct (thread_pc m1) eqn:Hp; try congruence.
  - destruct (read (m_decompressor m1)) as [[data|e] d].
    + destruct (empty data); repeat split; cbn; congruence.
    + repeat split; cbn; congruence.
  - repeat split; cbn; congruence.
  - destruct (close_decompressor (m_decompressor m1)) as [[u|e] d];
      repeat split; cbn; congruence.
  - repeat split; cbn; congruence.
  - repeat split; cbn; congruence.
  - repeat split; cbn; congruence.
Qed.

Lemma step_m_done (m : manager) :
  ReadThread.m_done (step m) = ReadThread.m_done m.
Proof.
  destruct m as [d q dn p j r]. unfold run_in_thread_step.
  destruct p; cbn.
  - destruct dn; reflexivity.
  - destruct (read d) as [[data|e] d'];
      [destruct (empty data)|]; reflexivity.
  - reflexivity.
  - destruct (close_decompressor d) as [[u|e] d']; reflexivity.
  - reflexivity.
  - reflexivity.
  - reflexivity.
Qed.

Lemma perform_keeps_stop (a : action) (m : manager) :
  ReadThread.m_done m = true -> ReadThread.m_done (perform a m) = true.
Proof.
  intros Hd. destruct a; cbn [ReadThread.perform].
  - rewrite step_m_done. assumption.
  - reflexivity.
  - apply close_m_done.
Qed.

Lemma perform_main_same_thread (a : action) (m : manager) :
  is_background a = false -> same_thread (perform a m) m.
Proof.
  destruct a; cbn [is_background ReadThread.perform]; intros Ha.
  - discriminate.
  - apply stop_same_thread.
  - apply close_same_thread.
Qed.

Lemma background_add (a b : nat) (m : manager) :
  background (a + b) m = background b (background a m).
Proof.
  revert m. induction a as [|a IH]; intros m; cbn [ReadThread.background Nat.add].
  - reflexivity.
  - apply IH.
Qed.

Lemma background_exited (n : nat) (m : manager) :
  thread_pc m = Exited -> background n m = m.
Proof.
  intros Hpc. induction n as [|n IH]; cbn [ReadThread.background].
  - reflexivity.
  - replace (step m) with m; [exact IH|].
    unfold run_in_thread_step. rewrite Hpc. reflexivity.
Qed.

(** As long as the thread does not come to the loop test, what it does is
    the same under every schedule. *)
Lemma run_same_thread (more : list action) :
  forall m1 m2 : manager,
    same_thread m1 m2 ->
    avoids_test (background_steps more) m2 ->
    same_thread (run more m1) (background (background_steps more) m2).
Proof.
  induction more as [|a more IH]; intros m1 m2 Hsame Havoid.
  - exact Hsame.
  - cbn [ReadThread.run]. destruct a.
    + change (background_steps (Background :: more))
        with (S (background_steps more)) in *.
      cbn [ReadThread.background].
      assert (Hpc : thread_pc m1 <> LoopTest).
      { destruct Hsame as (_ & _ & Hp & _). rewrite Hp.
        apply (Havoid 0). lia. }
      apply IH.
      * apply step_same_thread; assumption.
      * intros k Hk. apply (Havoid (S k)). lia.
    + change (background_steps (CallStop :: more))
        with (background_steps more) in *.
      apply IH; [|assumption].
      eapply same_thread_trans; [apply stop_same_thread|exact Hsame].
    + change (background_steps (CallClose :: more))
        with (background_steps more) in *.
      apply IH; [|assumption].
      eapply same_thread_trans; [apply close_same_thread|exact Hsame].
Qed.

(** *** What has been pushed *)

Lemma all_data_app (q1 q2 : list (future E string)) :
  all_data q1 -> all_data q2 -> all_data (q1 ++ q2).
Proof.
  unfold all_data. intros H1 H2. rewrite forallb_app, H1, H2. reflexivity.
Qed.

Lemma all_data_no_sentinel (q : list (future E string)) :
  all_data q -> sentinels q = 0.
Proof.
  unfold all_data, sentinels. induction q as [|f q IH]; cbn; intros Hq.
  - reflexivity.
  - apply andb_prop in Hq. destruct Hq as [Hf Hq].
    destruct f as [s|e]; cbn in *.
    + destruct (empty s); [discriminate|]. auto.
    + discriminate.
Qed.

Lemma sentinels_app (q1 q2 : list (future E string)) :
  sentinels (q1 ++ q2) = sentinels q1 + sentinels q2.
Proof. unfold sentinels. rewrite filter_app, length_app. reflexivity. Qed.

Lemma data_pushes_app (q1 q2 : list (future E string)) :
  data_pushes (q1 ++ q2) = data_pushes q1 + data_pushes q2.
Proof. unfold data_pushes. rewrite filter_app, length_app. reflexivity. Qed.

Lemma queue_shape_make (d : decompressor) : queue_shape (make (E:=E) d).
Proof. reflexivity. Qed.

Lemma queue_shape_step (m : manager) : queue_shape m -> queue_shape (step m).
Proof.
  destruct m as [d q dn p j r].
  unfold queue_shape, run_in_thread_step. cbn.
  destruct p; cbn.
  - destruct dn; cbn; auto.
  - intros Hq. destruct (read d) as [[data|e] d'].
    + destruct (empty data) eqn:He; cbn; auto.
    + cbn. assumption.
  - intros [He Hq]. unfold add_to_queue. apply all_data_app; [assumption|].
    unfold all_data. cbn. rewrite He. reflexivity.
  - intros Hq. destruct (close_decompressor d) as [[u|e] d']; cbn.
    + exists q. auto.
    + assumption.
  - intros Hq. exists q. split; [assumption|]. right. exists e. reflexivity.
  - intros (chunks & Hc & [Hq | (e & Hq)]); exists chunks; (split; [assumption|]).
    + left. unfold add_to_queue. rewrite Hq. reflexivity.
    + right. exists e. unfold add_to_queue. rewrite Hq, <- app_assoc. reflexivity.
  - auto.
Qed.

Lemma queue_shape_same_thread (m1 m2 : manager) :
  same_thread m1 m2 -> queue_shape m2 -> queue_shape m1.
Proof.
  intros (_ & Hq & Hp & _). unfold queue_shape. rewrite Hq, Hp. auto.
Qed.

Lemma queue_shape_perform (a : action) (m : manager) :
  queue_shape m -> queue_shape (perform a m).
Proof.
  intros Hm. destruct a eqn:Ha.
  - apply queue_shape_step. assumption.
  - apply queue_shape_same_thread with (m2 := m); [|assumption].
    apply stop_same_thread.
  - apply queue_shape_same_thread with (m2 := m); [|assumption].
    apply close_same_thread.
Qed.

Lemma queue_shape_run (schedule : list action) :
  forall m : manager, queue_shape m -> queue_shape (run schedule m).
Proof.
  induction schedule as [|a schedule IH]; intros m Hm; cbn [ReadThread.run].
  - assumption.
  - apply IH, queue_shape_perform, Hm.
Qed.

(** *** Winding down *)

Lemma step_winds_down (m : manager) :
  ReadThread.m_done m = true \/ left_loop (thread_pc m) = true ->
  steps_to_exit (thread_pc (step m)) <= steps_to_exit (thread_pc m) - 1 /\
  (left_loop (thread_pc m) = true -> left_loop (thread_pc (step m)) = true).
Proof.
  destruct m as [d q dn p j r]. unfold run_in_thread_step. cbn.
  intros Hw. destruct p; cbn in *.
  - destruct Hw as [Hw|Hw]; [|discriminate]. subst dn. cbn. split; [lia|auto].
  - destruct (read d) as [[data|e] d']; [destruct (empty data)|]; cbn;
      split; solve [lia | auto | discriminate].
  - split; [lia|discriminate].
  - destruct (close_decompressor d) as [[u|e] d']; cbn; split; solve [lia | auto].
  - split; [lia|auto].
  - split; [lia|auto].
  - split; [lia|auto].
Qed.

Lemma run_winds_down (more : list action) :
  forall m : manager,
    ReadThread.m_done m = true \/ left_loop (thread_pc m) = true ->
    steps_to_exit (thread_pc (run more m))
    <= steps_to_exit (thread_pc m) - background_steps more.
Proof.
  induction more as [|a more IH]; intros m Hw; cbn [ReadThread.run].
  - change (background_steps []) with 0. lia.
  - destruct a.
    + change (background_steps (Background :: more))
        with (S (background_steps more)).
      cbn [ReadThread.perform].
      destruct (step_winds_down m Hw) as [Hrank Hleft].
      assert (Hw' : ReadThread.m_done (step m) = true
                    \/ left_loop (thread_pc (step m)) = true).
      { destruct Hw as [Hd|Hl]; [left; rewrite step_m_done; exact Hd|right; auto]. }
      specialize (IH (step m) Hw'). lia.
    + change (background_steps (CallStop :: more)) with (background_steps more).
      assert (Hw' : ReadThread.m_done (stop m) = true
                    \/ left_loop (thread_pc (stop m)) = true) by (left; reflexivity).
      specialize (IH (stop m) Hw'). exact IH.
    + change (background_steps (CallClose :: more)) with (background_steps more).
      assert (Hw' : ReadThread.m_done (snd (ReadThread.close m)) = true
                    \/ left_loop (thread_pc (snd (ReadThread.close m))) = true)
        by (left; apply close_m_done).
      specialize (IH _ Hw').
      destruct (close_same_thread m) as (_ & _ & Hp & _).
      cbn [ReadThread.perform]. rewrite Hp in IH. exact IH.
Qed.

Lemma steps_to_exit_zero (m : manager) :
  steps_to_exit (thread_pc m) = 0 -> thread_pc m = Exited.
Proof. destruct (thread_pc m); cbn; intros; congruence. Qed.

Lemma steps_to_exit_bound (p : pc E) : steps_to_exit p <= 6.
Proof. destruct p; cbn; lia. Qed.

(** *** After a stop request *)

Lemma step_budget (m : manager) :
  ReadThread.m_done m = true ->
  reads (step m) + reads_ahead (thread_pc (step m))
  <= reads m + reads_ahead (thread_pc m) /\
  data_pushes (ReadThread.m_queue (step m)) + pushes_ahead (thread_pc (step m))
  <= data_pushes (ReadThread.m_queue m) + pushes_ahead (thread_pc m).
Proof.
  destruct m as [d q dn p j r]. unfold run_in_thread_step. cbn.
  intros ->. destruct p; cbn.
  - lia.
  - destruct (read d) as [[data|e] d']; [destruct (empty data)|]; cbn; lia.
  - rewrite filter_app, length_app. cbn.
    destruct (negb (empty data)); cbn; lia.
  - destruct (close_decompressor d) as [[u|e] d']; cbn; lia.
  - rewrite filter_app, length_app. cbn. lia.
  - rewrite filter_app, length_app. cbn. lia.
  - lia.
Qed.

Lemma run_budget (more : list action) :
  forall m : manager,
    ReadThread.m_done m = true ->
    reads (run more m) + reads_ahead (thread_pc (run more m))
    <= reads m + reads_ahead (thread_pc m) /\
    data_pushes (ReadThread.m_queue (run more m))
    + pushes_ahead (thread_pc (run more m))
    <= data_pushes (ReadThread.m_queue m) + pushes_ahead (thread_pc m).
Proof.
  induction more as [|a more IH]; intros m Hd; cbn [ReadThread.run].
  - lia.
  - specialize (IH (perform a m) (perform_keeps_stop a m Hd)).
    assert (Hstep : reads (perform a m) + reads_ahead (thread_pc (perform a m))
                    <= reads m + reads_ahead (thread_pc m) /\
                    data_pushes (ReadThread.m_queue (perform a m))
                    + pushes_ahead (thread_pc (perform a m))
                    <= data_pushes (ReadThread.m_queue m)
                       + pushes_ahead (thread_pc m)).
    { destruct a eqn:Ha.
      - apply step_budget. assumption.
      - destruct (perform_main_same_thread CallStop m eq_refl)
          as (_ & Hq & Hp & Hr).
        rewrite Hq, Hp, Hr. lia.
      - destruct (perform_main_same_thread CallClose m eq_refl)
          as (_ & Hq & Hp & Hr).
        rewrite Hq, Hp, Hr. lia. }
    lia.
Qed.

Lemma run_monotone (more : list action) :
  forall m : manager,
    reads m <= reads (run more m) /\
    data_pushes (ReadThread.m_queue m)
    <= data_pushes (ReadThread.m_queue (run more m)).
Proof.
  induction more as [|a more IH]; intros m; cbn [ReadThread.run]; [lia|].
  specialize (IH (perform a m)).
  assert (Hone : reads m <= reads (perform a m) /\
                 data_pushes (ReadThread.m_queue m)
                 <= data_pushes (ReadThread.m_queue (perform a m))).
  { destruct a.
    - destruct m as [d q dn p j r].
      cbn [ReadThread.perform]. unfold run_in_thread_step. cbn.
      destruct p; cbn.
      + destruct dn; cbn; lia.
      + destruct (read d) as [[data|e] d'];
          [destruct (empty data)|]; cbn; lia.
      + rewrite filter_app, length_app. cbn. lia.
      + destruct (close_decompressor d) as [[u|e] d']; cbn; lia.
      + rewrite filter_app, length_app. cbn. lia.
      + rewrite filter_app, length_app. cbn. lia.
      + lia.
    - destruct (perform_main_same_thread CallStop m eq_refl)
        as (_ & Hq & _ & Hr).
      rewrite Hq, Hr. lia.
    - destruct (perform_main_same_thread CallClose m eq_refl)
        as (_ & Hq & _ & Hr).
      rewrite Hq, Hr. lia. }
  lia.
Qed.

(** *** A call that throws *)

Lemma raises_path (m : manager) (e : E) :
  raises m e ->
  thread_pc (background 3 m) = Exited /\
  ReadThread.m_queue (background 3 m)
  = ReadThread.m_queue m ++ [Failed e; Ready EmptyString] /\
  forall n, avoids_test n m.
Proof.
  destruct m as [d q dn p j r]. unfold ReadThread.raises. cbn [thread_pc m_decompressor].
  intros Hr.
  assert (H012 : thread_pc (background 3 (Build_manager d q dn p j r)) = Exited /\
                 ReadThread.m_queue (background 3 (Build_manager d q dn p j r))
                 = q ++ [Failed e; Ready EmptyString] /\
                 thread_pc (background 0 (Build_manager d q dn p j r)) <> LoopTest /\
                 thread_pc (background 1 (Build_manager d q dn p j r)) <> LoopTest /\
                 thread_pc (background 2 (Build_manager d q dn p j r)) <> LoopTest).
  { destruct Hr as [[Hp Hr]|[Hp Hr]]; subst p;
      cbn [ReadThread.background]; unfold run_in_thread_step at 3 4 6; cbn.
    - destruct (read d) as [[data|e'] d']; cbn in Hr; [discriminate|].
      injection Hr as ->. cbn.
      unfold add_to_queue_exception, add_to_queue. rewrite <- app_assoc.
      repeat split; discriminate.
    - destruct (close_decompressor d) as [[u|e'] d']; cbn in Hr; [discriminate|].
      injection Hr as ->. cbn.
      unfold add_to_queue_exception, add_to_queue. rewrite <- app_assoc.
      repeat split; discriminate. }
  destruct H012 as (Hpc & Hq & H0 & H1 & H2).
  repeat split; try assumption.
  intros n k _.
  destruct k as [|[|[|k]]]; try assumption.
  replace (S (S (S k))) with (3 + k) by lia.
  rewrite background_add, background_exited by assumption.
  rewrite Hpc. discriminate.
Qed.

Lemma all_data_active (q : list (future E string)) :
  all_data q -> forallb (fun f => negb (ends_stream f)) q = true.
Proof.
  unfold all_data. induction q as [|f q IH]; cbn [forallb]; intros Hq.
  - reflexivity.
  - apply andb_prop in Hq. destruct Hq as [Hf Hq].
    rewrite (IH Hq), andb_true_r.
    destruct f as [s|e]; cbn in *; [assumption|discriminate].
Qed.

Lemma all_data_chunks (q : list (future E string)) :
  all_data q ->
  Forall (fun f => exists s, f = Ready s /\ s <> EmptyString) q.
Proof.
  unfold all_data. induction q as [|f q IH]; cbn [forallb]; intros Hq.
  - constructor.
  - apply andb_prop in Hq. destruct Hq as [Hf Hq].
    constructor; [|auto].
    destruct f as [s|e]; cbn in Hf; [|discriminate].
    exists s. split; [reflexivity|]. intros ->. discriminate.
Qed.

(** *** What the consumer gets *)

Lemma pops_up_to_sentinel (before : list (future E string)) :
  forallb (fun f => negb (ends_stream f)) before = true ->
  pops (List.length before) (Queue.make (before ++ [Ready EmptyString]))
  = (map outcome_of before,
     {| Queue.m_queue := [Ready EmptyString]; Queue.m_done := false;
        waits := List.length before |}) /\
  pops (List.length before + 1) (Queue.make (before ++ [Ready EmptyString]))
  = (map outcome_of before ++ [Return EmptyString],
     {| Queue.m_queue := []; Queue.m_done := true;
        waits := List.length before + 1 |}).
Proof.
  intros Hbefore. unfold Queue.make.
  rewrite pops_app, (pops_prefix before _ 0 Hbefore).
  cbn [fst snd pops]. rewrite pop_ready. cbn [is_end string_checkable empty].
  replace (S (0 + List.length before)) with (List.length before + 1) by lia.
  split; reflexivity.
Qed.

Lemma pops_chunks_then_failure (chunks : list (future E string)) (e : E) :
  all_data chunks ->
  pops (List.length chunks + 1)
    (Queue.make (chunks ++ [Failed e; Ready EmptyString]))
  = (map outcome_of chunks ++ [Throw e],
     {| Queue.m_queue := [Ready EmptyString]; Queue.m_done := false;
        waits := List.length chunks + 1 |}) /\
  pops (List.length chunks + 2)
    (Queue.make (chunks ++ [Failed e; Ready EmptyString]))
  = (map outcome_of chunks ++ [Throw e; Return EmptyString],
     {| Queue.m_queue := []; Queue.m_done := true;
        waits := List.length chunks + 2 |}).
Proof.
  intros Hchunks. unfold Queue.make.
  rewrite !pops_app, (pops_prefix chunks _ 0 (all_data_active Hchunks)).
  cbn [fst snd pops]. rewrite pop_failed, pop_ready.
  cbn [is_end string_checkable empty].
  replace (S (S (0 + List.length chunks))) with (List.length chunks + 2) by lia.
  replace (S (0 + List.length chunks)) with (List.length chunks + 1) by lia.
  split; reflexivity.
Qed.

(** *** The end of the loop *)

Lemma perform_ending (a : action) (m : manager) :
  loop_ending m \/ left_loop (thread_pc m) = true ->
  (loop_ending (perform a m) \/ left_loop (thread_pc (perform a m)) = true) /\
  steps_from_loop (thread_pc (perform a m))
  <= steps_from_loop (thread_pc m) - (if is_background a then 1 else 0).
Proof.
  intros Hm. destruct a; cbn [ReadThread.perform is_background].
  - destruct m as [d q dn p j r]. unfold ReadThread.loop_ending in *.
    unfold run_in_thread_step. cbn in *.
    destruct Hm as [[[Hp Hd]|[[Hp Hr]|[Hp [e Hr]]]]|Hl]; try subst p; try subst dn; cbn.
    + split; [right; reflexivity|lia].
    + destruct (read d) as [[data|e] d']; cbn in Hr; [|discriminate].
      injection Hr as ->. cbn. split; [right; reflexivity|lia].
    + destruct (read d) as [[data|e'] d']; cbn in Hr; [discriminate|].
      cbn. split; [right; reflexivity|lia].
    + destruct p; cbn in Hl; try discriminate; cbn.
      * destruct (close_decompressor d) as [[u|e] d']; cbn;
          (split; [right; reflexivity|lia]).
      * split; [right; reflexivity|lia].
      * split; [right; reflexivity|lia].
      * split; [right; reflexivity|lia].
  - destruct (stop_same_thread m) as (Hd & _ & Hp & _).
    rewrite Hp, Nat.sub_0_r. split; [|lia].
    unfold ReadThread.loop_ending in *. rewrite Hp, Hd. cbn [ReadThread.m_done stop].
    destruct Hm as [[[Hpc _]|Hm]|Hl]; auto.
  - destruct (close_same_thread m) as (Hd & _ & Hp & _).
    rewrite Hp, Nat.sub_0_r. split; [|lia].
    unfold ReadThread.loop_ending in *. rewrite Hp, Hd, close_m_done.
    destruct Hm as [[[Hpc _]|Hm]|Hl]; auto.
Qed.

Lemma run_ending (more : list action) :
  forall m : manager,
    loop_ending m \/ left_loop (thread_pc m) = true ->
    steps_from_loop (thread_pc (run more m))
    <= steps_from_loop (thread_pc m) - background_steps more.
Proof.
  induction more as [|a more IH]; intros m Hm; cbn [ReadThread.run].
  - change (background_steps []) with 0. lia.
  - destruct (perform_ending a Hm) as [Hm' Hrank].
    specialize (IH _ Hm').
    assert (Hcount : background_steps (a :: more)
                     = (if is_background a then 1 else 0) + background_steps more)
      by (destruct a; reflexivity).
    lia.
Qed.

Lemma steps_from_loop_zero (m : manager) :
  steps_from_loop (thread_pc m) = 0 -> thread_pc m = Exited.
Proof. destruct (thread_pc m); cbn; intros; congruence. Qed.

Lemma steps_from_loop_ending (m : manager) :
  loop_ending m \/ left_loop (thread_pc m) = true ->
  steps_from_loop (thread_pc m) <= 4.
Proof.
  unfold ReadThread.loop_ending.
  intros [[[Hp _]|[[Hp _]|[Hp _]]]|Hl]; try (rewrite Hp; cbn; lia).
  destruct (thread_pc m); cbn in *; solve [lia | discriminate].
Qed.

(** *** close() *)

Lemma close_cases (m : manager) :
  ReadThread.close m
  = if joinable m
    then if has_exited m
         then (Return tt,
               {| m_decompressor := m_decompressor m;
                  ReadThread.m_queue := ReadThread.m_queue m;
                  ReadThread.m_done := true; thread_pc := thread_pc m;
                  joinable := false; reads := reads m |})
         else (Halt Blocked, stop m)
    else (Return tt, stop m).
Proof.
  destruct m as [d q dn p j r].
  unfold ReadThread.close, bind, modify, gets, join, ret, has_exited.
  destruct j; [destruct p|]; reflexivity.
Qed.

(** C1.  Whatever the decompressor does and whatever the main thread does
    in between, a run of [run_in_thread] that has returned has pushed
    exactly one ready future with an empty string, as its last push, and
    a run that has not returned yet has pushed none.  A consumer popping
    that queue gets everything pushed before the empty string with its
    wrapper still active, and then the empty string, which leaves the
    wrapper done.  The run does return:
    when the loop is about to be left, by the flag, by the end of the file
    or by an exception, and at every point behind the loop, the thread is
    through within four more of its steps. *)
Theorem one_sentinel_and_it_is_last (d : decompressor) (schedule : list action) :
  let m := run schedule (make d) in
  (thread_pc m = Exited ->
   sentinels (ReadThread.m_queue m) = 1 /\
   (exists before, ReadThread.m_queue m = before ++ [Ready EmptyString] /\
                   sentinels before = 0) /\
   exists before,
     ReadThread.m_queue m = before ++ [Ready EmptyString] /\
     pops (List.length before) (Queue.make (ReadThread.m_queue m))
     = (map outcome_of before,
        {| Queue.m_queue := [Ready EmptyString]; Queue.m_done := false;
           waits := List.length before |}) /\
     pops (List.length before + 1) (Queue.make (ReadThread.m_queue m))
     = (map outcome_of before ++ [Return EmptyString],
        {| Queue.m_queue := []; Queue.m_done := true;
           waits := List.length before + 1 |})) /\
  (thread_pc m <> Exited -> sentinels (ReadThread.m_queue m) = 0) /\
  (loop_ending m \/ left_loop (thread_pc m) = true ->
   forall more, 4 <= background_steps more -> thread_pc (run more m) = Exited).
Proof.
  intros m.
  assert (Hshape : queue_shape m)
    by (apply queue_shape_run, queue_shape_make).
  unfold queue_shape in Hshape.
  split; [|split].
  - intros Hpc. rewrite Hpc in Hshape.
    destruct Hshape as (chunks & Hc & [Hq | (e & Hq)]); rewrite Hq.
    + split; [|split].
      * rewrite sentinels_app, (all_data_no_sentinel Hc). reflexivity.
      * exists chunks. split; [reflexivity|]. apply all_data_no_sentinel, Hc.
      * exists chunks. split; [reflexivity|].
        apply pops_up_to_sentinel, all_data_active, Hc.
    + assert (Hq' : chunks ++ [Failed e; Ready EmptyString]
                    = (chunks ++ [Failed e]) ++ [Ready EmptyString])
        by (rewrite <- app_assoc; reflexivity).
      split; [|split].
      * rewrite sentinels_app, (all_data_no_sentinel Hc). reflexivity.
      * exists (chunks ++ [Failed e]). split; [exact Hq'|].
        rewrite sentinels_app, (all_data_no_sentinel Hc). reflexivity.
      * exists (chunks ++ [Failed e]). split; [exact Hq'|].
        rewrite Hq'. apply pops_up_to_sentinel.
        rewrite forallb_app, (all_data_active Hc). reflexivity.
  - intros Hpc. destruct (thread_pc m) eqn:Hp; try congruence;
      try (apply all_data_no_sentinel; assumption).
    + apply all_data_no_sentinel, Hshape.
    + destruct Hshape as (chunks & Hc & [Hq | (e & Hq)]); rewrite Hq.
      * apply all_data_no_sentinel, Hc.
      * rewrite sentinels_app, (all_data_no_sentinel Hc). reflexivity.
  - intros Hending more Hmore.
    apply steps_from_loop_zero.
    pose proof (run_ending more Hending) as Hrank.
    pose proof (steps_from_loop_ending Hending). lia.
Qed.

(** C2.  When a call of [read] or of [close] on the decompressor throws
    in the background thread, the thread catches the exception, pushes it
    as a failed future, pushes the empty string behind it and returns,
    under every schedule: nothing leaves the thread.  Everything pushed
    before is a chunk with data.  The consumer that pops the queue gets
    these chunks, then the very exception thrown, and then the empty
    string from the next call, which leaves its wrapper done; the wrapper
    is still active after the pop that throws. *)
Theorem failure_goes_through_the_queue
  (d : decompressor) (schedule more : list action) (e : E) :
  let m := run schedule (make d) in
  raises m e ->
  3 <= background_steps more ->
  let m' := run more m in
  let chunks := ReadThread.m_queue m in
  thread_pc m' = Exited /\
  ReadThread.m_queue m' = chunks ++ [Failed e; Ready EmptyString] /\
  Forall (fun f => exists s, f = Ready s /\ s <> EmptyString) chunks /\
  pops (List.length chunks + 1) (Queue.make (ReadThread.m_queue m'))
  = (map outcome_of chunks ++ [Throw e],
     {| Queue.m_queue := [Ready EmptyString]; Queue.m_done := false;
        waits := List.length chunks + 1 |}) /\
  pops (List.length chunks + 2) (Queue.make (ReadThread.m_queue m'))
  = (map outcome_of chunks ++ [Throw e; Return EmptyString],
     {| Queue.m_queue := []; Queue.m_done := true;
        waits := List.length chunks + 2 |}).
Proof.
  intros m Hraise Hmore m' chunks.
  destruct (raises_path Hraise) as (Hpc3 & Hq3 & Havoid).
  pose proof (run_same_thread more (same_thread_refl m)
                (Havoid (background_steps more))) as Hsame.
  fold m' in Hsame.
  replace (background_steps more) with (3 + (background_steps more - 3)) in Hsame
    by lia.
  rewrite background_add, background_exited in Hsame by assumption.
  destruct Hsame as (_ & Hq & Hp & _).
  assert (Hchunks : all_data chunks).
  { assert (Hshape : queue_shape m)
      by (apply queue_shape_run, queue_shape_make).
    unfold queue_shape in Hshape.
    destruct Hraise as [[Hpc _]|[Hpc _]]; rewrite Hpc in Hshape; exact Hshape. }
  split; [rewrite Hp; exact Hpc3|].
  split; [rewrite Hq; exact Hq3|].
  split; [apply all_data_chunks, Hchunks|].
  rewrite Hq, Hq3. fold chunks.
  apply pops_chunks_then_failure, Hchunks.
Qed.

(** C9.  [stop()] sets the flag and nothing else, is defined in every
    state and doing it twice is doing it once.  The thread reads the flag
    at the loop test only: at any other point its step is the same with
    and without the flag.  So after a stop request, under every schedule,
    at most one more call of [read] comes back and at most one more chunk
    of data is pushed, none at all when the request comes while the thread
    stands at the loop test, and the thread has returned after six of its
    steps at most.  [close()] sets the flag and then joins: it comes back
    only when the thread has returned or had been joined before, it does
    come back once the thread has had its six steps, and a second call
    comes back at once and changes nothing, and so does the destructor
    after it.  The destructor lets no exception out. *)
Theorem stop_is_cooperative_and_close_idempotent (m : manager) :
  (stop m
   = {| m_decompressor := m_decompressor m;
        ReadThread.m_queue := ReadThread.m_queue m;
        ReadThread.m_done := true; thread_pc := thread_pc m;
        joinable := joinable m; reads := reads m |} /\
   stop (stop m) = stop m) /\
  (thread_pc m <> LoopTest -> same_thread (step (stop m)) (step m)) /\
  (forall more,
     reads (run more (stop m)) <= reads m + 1 /\
     data_pushes (ReadThread.m_queue (run more (stop m)))
     <= data_pushes (ReadThread.m_queue m) + 1 /\
     (thread_pc m = LoopTest ->
      reads (run more (stop m)) = reads m /\
      data_pushes (ReadThread.m_queue (run more (stop m)))
      = data_pushes (ReadThread.m_queue m)) /\
     (6 <= background_steps more ->
      thread_pc (run more (stop m)) = Exited /\
      fst (ReadThread.close (run more (stop m))) = Return tt)) /\
  (ReadThread.m_done (snd (ReadThread.close m)) = true /\
   same_thread (snd (ReadThread.close m)) m /\
   (fst (ReadThread.close m) = Return tt ->
    joinable (snd (ReadThread.close m)) = false /\
    (joinable m = true -> thread_pc m = Exited) /\
    ReadThread.close (snd (ReadThread.close m))
    = (Return tt, snd (ReadThread.close m)) /\
    ReadThread.destructor (snd (ReadThread.close m))
    = (Return tt, snd (ReadThread.close m)))) /\
  (forall e : E, fst (ReadThread.destructor m) <> Throw e) /\
  fst (ReadThread.destructor m) <> Halt Terminated.
Proof.
  split; [split; reflexivity|].
  split.
  { intros Hpc. apply step_same_thread; [apply stop_same_thread|exact Hpc]. }
  split.
  { intros more.
    destruct (run_budget more (stop m) eq_refl) as [Hreads Hpushes].
    cbn [stop reads thread_pc ReadThread.m_queue] in Hreads, Hpushes.
    assert (Hra : reads_ahead (thread_pc m) <= 1) by (destruct (thread_pc m); cbn; lia).
    assert (Hpa : pushes_ahead (thread_pc m) <= 1) by (destruct (thread_pc m); cbn; lia).
    split; [lia|]. split; [lia|]. split.
    - intros Hpc. rewrite Hpc in Hreads, Hpushes. cbn in Hreads, Hpushes.
      pose proof (run_monotone more (stop m)) as Hmono.
      cbn [stop reads ReadThread.m_queue] in Hmono. lia.
    - intros Hmore.
      assert (Hexit : thread_pc (run more (stop m)) = Exited).
      { apply steps_to_exit_zero.
        pose proof (run_winds_down more (stop m) (or_introl eq_refl)) as Hrank.
        pose proof (steps_to_exit_bound (thread_pc (stop m))). lia. }
      split; [exact Hexit|].
      rewrite close_cases. unfold has_exited. rewrite Hexit.
      destruct (joinable (run more (stop m))); reflexivity. }
  split.
  { split; [apply close_m_done|]. split; [apply close_same_thread|].
    rewrite close_cases. unfold has_exited.
    destruct (joinable m) eqn:Hj; [destruct (thread_pc m) eqn:Hp|];
      cbn [fst snd]; intros Hret; try discriminate.
    - split; [reflexivity|]. split; [reflexivity|].
      unfold ReadThread.destructor, noexcept, try_catch.
      rewrite close_cases. split; reflexivity.
    - split; [exact Hj|]. split; [discriminate|].
      unfold ReadThread.destructor, noexcept, try_catch.
      rewrite close_cases. cbn [stop joinable]. rewrite Hj. split; reflexivity. }
  unfold ReadThread.destructor, noexcept, try_catch.
  rewrite close_cases.
  destruct (joinable m); [destruct (has_exited m)|]; cbn [fst];
    split; try intros e; discriminate.
Qed.

End ReadThreadFacts.

(** ** The bzip2 codec *)

Ltac unfold_monad :=
  unfold bind, ret, throw, halt_with, try_catch, noexcept, gets, modify, assert_,
    Bzip2.follows, Bzip2.call, Bzip2.advise, Bzip2.query, Bzip2.field, Bzip2.assign,
    Bzip2.throw_bzip2, Bzip2.throw_bzip2_error, Bzip2.on_member in *.

Ltac reduce_method :=
  cbn -[Z.eqb Z.ltb Z.gtb Z.leb Bzip2.to_size_t Bzip2.to_string Z.lor Z.shiftl
        String.append String.length Nat.eqb app Bzip2.INT_MAX Bzip2.UINT_MAX
        Bzip2.BZ_OK Bzip2.BZ_STREAM_END Bzip2.BZ_IO_ERROR] in *.

(** Tests on the status codes that the source names. *)
Lemma stream_end_is_not_ok : (Bzip2.BZ_STREAM_END =? Bzip2.BZ_OK)%Z = false.
Proof. reflexivity. Qed.

Lemma stream_end_is_stream_end :
  (Bzip2.BZ_STREAM_END =? Bzip2.BZ_STREAM_END)%Z = true.
Proof. reflexivity. Qed.

Lemma stream_end_is_not_zero : (Bzip2.BZ_STREAM_END =? 0)%Z = false.
Proof. reflexivity. Qed.

Lemma ok_is_ok : (Bzip2.BZ_OK =? Bzip2.BZ_OK)%Z = true.
Proof. reflexivity. Qed.

Lemma ok_is_not_stream_end : (Bzip2.BZ_OK =? Bzip2.BZ_STREAM_END)%Z = false.
Proof. reflexivity. Qed.

Lemma ok_is_zero : (Bzip2.BZ_OK =? 0)%Z = true.
Proof. reflexivity. Qed.

Ltac status_tests :=
  reduce_method;
  rewrite ?stream_end_is_not_ok, ?stream_end_is_stream_end,
    ?stream_end_is_not_zero, ?ok_is_ok, ?ok_is_not_stream_end, ?ok_is_zero;
  reduce_method.

(** Case analysis on the answers of the system, innermost call first. *)
Ltac split_cases :=
  repeat (reduce_method;
          match goal with
          | |- context [match ?x with _ => _ end] =>
              lazymatch x with
              | context [match _ with _ => _ end] => fail
              | _ => destruct x eqn:?
              end
          end).

Section CompressorFacts.

Import Bzip2 Bzip2.Bzip2Compressor.
Context {world : Type} `{System world}.


Lemma compressor_close_clears_handle (s : env world t) :
  m_bzfile (self (snd (close s))) = false.
Proof.
  destruct s as [[sync size [f] bz] w c].
  unfold close, file_wrapper.close. unfold_monad.
  destruct bz; [|reflexivity].
  split_cases; reflexivity.
Qed.

(** C10.  When the finalisation of the stream reports a status other than
    [BZ_OK], [close] throws and [file_size()] answers afterwards what it
    answered before.  A call of [close] changes the stored size only when
    the handle was open, the finalisation reported [BZ_OK] and [close]
    returned, and then to the 64-bit count the finalisation gave.  The
    size is 0 after the constructor and [write] does not change it, so it
    is 0 as long as no [close] has succeeded. *)
Theorem file_size_unchanged_when_finalize_fails (s : env world t) :
  (m_bzfile (self s) = true ->
   fst (fst (fst (BZ2_bzWriteClose64 (sys s)))) <> BZ_OK ->
   (exists e, fst (close s) = Throw e) /\
   file_size (self (snd (close s))) = file_size (self s)) /\
  (file_size (self (snd (close s))) <> file_size (self s) ->
   m_bzfile (self s) = true /\
   fst (fst (fst (BZ2_bzWriteClose64 (sys s)))) = BZ_OK /\
   fst (close s) = Return tt /\
   file_size (self (snd (close s)))
   = to_size_t (Z.lor (Z.shiftl (snd (fst (BZ2_bzWriteClose64 (sys s)))) 32)
                      (snd (fst (fst (BZ2_bzWriteClose64 (sys s))))))) /\
  (forall fd sync w,
     file_size (self (snd (constructor fd
                             {| self := fresh sync; sys := w; calls := [] |}))) = 0%Z) /\
  (forall data, file_size (self (snd (write data s))) = file_size (self s)).
Proof.
  destruct s as [[sync size [f] bz] w c].
  split; [|split; [|split]].
  - unfold close, file_wrapper.close, file_size. unfold_monad.
    intros Hbz Hbad. reduce_method. subst bz. reduce_method.
    destruct (BZ2_bzWriteClose64 w) as [[[bzerror lo] hi] w1].
    cbn [fst snd] in Hbad. apply Z.eqb_neq in Hbad.
    split_cases; try (split; [eexists; reflexivity|reflexivity]);
      rewrite Hbad in *; discriminate.
  - unfold close, file_wrapper.close, file_size. unfold_monad.
    destruct bz; [|cbn; congruence]. reduce_method.
    destruct (BZ2_bzWriteClose64 w) as [[[bzerror lo] hi] w1].
    split_cases; intros Hsize; reduce_method; try congruence;
      repeat split; try reflexivity;
      match goal with
      | Hz : negb (_ =? BZ_OK)%Z = false |- _ =>
          apply negb_false_iff, Z.eqb_eq in Hz; exact Hz
      end.
  - intros fd sync' w'.
    unfold constructor, file_wrapper.constructor, file_size, fresh. unfold_monad.
    split_cases; reflexivity.
  - intros data. unfold write, file_size. unfold_monad.
    split_cases; reflexivity.
Qed.


(** C7, as the code has it.  [close] on an open handle first finalises
    the stream and forgets the handle, then calls [reliable_fsync] when
    that is configured, then closes the file wrapper, and only then turns
    a status of the finalisation other than [BZ_OK] into a [bzip2_error].
    Closing the wrapper forgets the file and calls [fclose] on it, except
    on standard output (descriptor 1), which is left open.  All this is
    the same for every status of the finalisation.  When [fclose] fails,
    its [system_error] is what [close] throws.  (The fsync is taken to
    come back without an exception.) *)
Theorem close_cleans_up_then_raises
  (s : env world t) (file : FILE) (bzerror lo hi : Z) (w1 w2 : world) :
  m_bzfile (self s) = true ->
  file_wrapper.file (m_file (self s)) = Some file ->
  BZ2_bzWriteClose64 (sys s) = ((bzerror, lo, hi), w1) ->
  (if do_fsync (self s)
   then reliable_fsync (fileno file) w1 = (None, w2)
   else w2 = w1) ->
  let stdout := (fileno file =? 1)%Z in
  let fclose_status := if stdout then 0%Z else fst (fclose file w2) in
  let w3 := if stdout then w2 else snd (fclose file w2) in
  calls (snd (close s))
  = calls s ++ [Call_BZ2_bzWriteClose64]
    ++ (if do_fsync (self s) then [Call_reliable_fsync (fileno file)] else [])
    ++ (if stdout then [] else [Call_fclose file]) /\
  m_bzfile (self (snd (close s))) = false /\
  file_wrapper.file (m_file (self (snd (close s)))) = None /\
  sys (snd (close s)) = w3 /\
  fst (close s)
  = if negb (fclose_status =? 0)%Z
    then Throw (system_error (sys_errno w3) "fclose failed")
    else if negb (bzerror =? BZ_OK)%Z
         then Throw (bzip2_error "bzip2 error: write close failed" bzerror
                       (if (bzerror =? BZ_IO_ERROR)%Z then sys_errno w3 else 0%Z))
         else Return tt.
Proof.
  destruct s as [[sync size [f] bz] w c].
  cbn [self sys calls m_bzfile m_file do_fsync file_wrapper.file file_wrapper.m_file].
  intros -> -> Hfin Hsync.
  unfold close, file_wrapper.close. unfold_monad. unfold fileno in *. reduce_method.
  rewrite Hfin. reduce_method.
  destruct sync; reduce_method.
  - rewrite Hsync. reduce_method.
    destruct (file =? 1)%Z eqn:Hout; reduce_method.
    + rewrite <- !app_assoc.
      destruct (negb (bzerror =? BZ_OK)%Z); repeat split; reflexivity.
    + destruct (fclose file w2) as [status w3]. reduce_method.
      rewrite <- !app_assoc.
      destruct (negb (status =? 0)%Z); reduce_method;
        [|destruct (negb (bzerror =? BZ_OK)%Z)]; repeat split; reflexivity.
  - subst w2.
    destruct (file =? 1)%Z eqn:Hout; reduce_method.
    + rewrite ?app_nil_r.
      destruct (negb (bzerror =? BZ_OK)%Z); repeat split; reflexivity.
    + destruct (fclose file w1) as [status w3]. reduce_method.
      rewrite <- !app_assoc.
      destruct (negb (status =? 0)%Z); reduce_method;
        [|destruct (negb (bzerror =? BZ_OK)%Z)]; repeat split; reflexivity.
Qed.

End CompressorFacts.

Section DecompressorFacts.

Import Bzip2 Bzip2.Bzip2Decompressor.
Context {world : Type} `{System world}.

Lemma decompressor_close_closed (s : env world t) :
  m_bzfile (self s) = false -> close s = (Return tt, s).
Proof.
  intros Hbz. unfold close. unfold_monad. rewrite Hbz. reflexivity.
Qed.



(** A decompressor that has marked the end of the stream and still has
    its handle decodes nothing more. *)
Lemma read_ended (s : env world t) (f : FILE) :
  file_wrapper.file (m_file (self s)) = Some f ->
  m_stream_end (self s) = true ->
  m_bzfile (self s) = true ->
  read s
  = (Return EmptyString,
     {| self := set_offset (to_size_t (ftell (Some f) (sys s))) (self s);
        sys := sys s;
        calls := calls s ++ page_advice s |}).
Proof.
  destruct s as [[remove off [file] bz ended] w c]. reduce_method.
  intros -> -> ->.
  unfold read, page_advice. unfold_monad. reduce_method.
  destruct ((ftell (Some f) w >? 0)%Z && remove); reduce_method.
  - reflexivity.
  - rewrite app_nil_r. reflexivity.
Qed.

Lemma repeatedly_read_ended (n : nat) (f : FILE) :
  forall s : env world t,
    file_wrapper.file (m_file (self s)) = Some f ->
    m_stream_end (self s) = true ->
    m_bzfile (self s) = true ->
    fst (repeatedly n read s) = repeat (Return EmptyString) n /\
    m_stream_end (self (snd (repeatedly n read s))) = true /\
    m_bzfile (self (snd (repeatedly n read s))) = true /\
    sys (snd (repeatedly n read s)) = sys s /\
    calls (snd (repeatedly n read s))
    = calls s ++ List.concat (repeat (page_advice s) n).
Proof.
  induction n as [|n IH]; intros s Hfile Hend Hbz;
    cbn [repeatedly repeat List.concat].
  - rewrite app_nil_r. repeat split; assumption.
  - rewrite (read_ended s Hfile Hend Hbz).
    match goal with
    | |- context [repeatedly n read ?s1] =>
        destruct (IH s1 Hfile Hend Hbz) as (Hout & Hend' & Hbz' & Hsys & Hcalls);
        destruct (repeatedly n read s1) as [rs s2]
    end.
    cbn [fst snd] in *.
    repeat split; try assumption.
    + rewrite Hout. reflexivity.
    + rewrite Hcalls. cbn [calls]. rewrite <- app_assoc. reflexivity.
Qed.

Lemma length_zero_iff_empty (u : string) :
  (String.length u =? 0) = true <-> u = EmptyString.
Proof.
  destruct u; cbn; split; intros; congruence.
Qed.

(** The paths of a [read] in which [BZ2_bzRead] reports
    [BZ_STREAM_END], where the calls of the library on the way report
    [BZ_OK].  It hands out the bytes decoded and goes on by the
    end-of-file indicator of the file first.  With the indicator set it
    marks the stream as ended at once; it does not ask the library for
    unused bytes and opens nothing.  With the indicator clear it asks for
    the unused bytes and closes the decoding stream; then with unused
    bytes it opens a stream seeded with exactly these bytes, and throws if
    that fails; without unused bytes it opens a stream with no seed, and
    marks the stream as ended, forgetting the handle, if that fails or
    reports a status other than [BZ_OK]. *)
Theorem read_at_stream_end_by_cases
  (s : env world t) (f : FILE) (out : string) (w1 : world) :
  file_wrapper.file (m_file (self s)) = Some f ->
  m_bzfile (self s) = true ->
  m_stream_end (self s) = false ->
  (input_buffer_size < INT_MAX)%Z ->
  BZ2_bzRead input_buffer_size (sys s) = ((BZ_STREAM_END, out), w1) ->
  let file := Some f in
  let before := calls s ++ page_advice s ++ [Call_BZ2_bzRead input_buffer_size] in
  let s' := snd (read s) in
  (feof file w1 = true ->
   fst (read s) = Return out /\
   m_stream_end (self s') = true /\
   m_bzfile (self s') = true /\
   calls s' = before) /\
  (feof file w1 = false ->
   forall (unused : string) (w2 w3 : world),
     BZ2_bzReadGetUnused w1 = ((BZ_OK, unused), w2) ->
     BZ2_bzReadClose w2 = (BZ_OK, w3) ->
     (unused <> EmptyString ->
      (Z.of_nat (String.length unused) < INT_MAX)%Z ->
      calls s'
      = before ++ [Call_BZ2_bzReadGetUnused; Call_BZ2_bzReadClose;
                   Call_BZ2_bzReadOpen unused] /\
      m_stream_end (self s') = false /\
      m_bzfile (self s') = snd (fst (BZ2_bzReadOpen unused w3)) /\
      (snd (fst (BZ2_bzReadOpen unused w3)) = true -> fst (read s) = Return out) /\
      (snd (fst (BZ2_bzReadOpen unused w3)) = false ->
       exists errno,
         fst (read s)
         = Throw (bzip2_error "bzip2 error: read open failed"
                    (fst (fst (BZ2_bzReadOpen unused w3))) errno))) /\
     (unused = EmptyString ->
      let opened := snd (fst (BZ2_bzReadOpen EmptyString w3))
                    && (fst (fst (BZ2_bzReadOpen EmptyString w3)) =? BZ_OK)%Z in
      calls s'
      = before ++ [Call_BZ2_bzReadGetUnused; Call_BZ2_bzReadClose;
                   Call_BZ2_bzReadOpen EmptyString] /\
      fst (read s) = Return out /\
      m_stream_end (self s') = negb opened /\
      m_bzfile (self s') = opened)).
Proof.
  destruct s as [[remove off [file] bz ended] w c]. reduce_method.
  intros -> -> -> Hsize Hread.
  apply Z.ltb_lt in Hsize.
  unfold read, at_stream_end, page_advice. unfold_monad. reduce_method.
  split.
  - intros Heof.
    destruct ((ftell (Some f) w >? 0)%Z && remove); reduce_method;
      rewrite Hsize; reduce_method; rewrite Hread; status_tests;
      rewrite Heof; reduce_method; rewrite <- ?app_assoc;
      repeat split; reflexivity.
  - intros Heof unused w2 w3 Hunused Hclose. split.
    + intros Hne Hlen. apply Z.ltb_lt in Hlen.
      assert (Hnz : (String.length unused =? 0) = false).
      { destruct (String.length unused =? 0) eqn:Hz; [|reflexivity].
        apply length_zero_iff_empty in Hz. contradiction. }
      destruct (BZ2_bzReadOpen unused w3) as [[status handle] w4] eqn:Hopen.
      destruct ((ftell (Some f) w >? 0)%Z && remove); reduce_method;
        rewrite Hsize; reduce_method; rewrite Hread; status_tests;
        rewrite Heof; reduce_method; rewrite Hunused; status_tests;
        rewrite Hnz; reduce_method; rewrite Hclose; status_tests;
        rewrite Hlen; reduce_method; rewrite Hopen; reduce_method;
        rewrite <- ?app_assoc;
        (destruct handle; reduce_method;
         repeat split; try reflexivity; try discriminate;
         intros _; eexists; reflexivity).
    + intros ->.
      destruct (BZ2_bzReadOpen EmptyString w3) as [[status handle] w4] eqn:Hopen.
      destruct ((ftell (Some f) w >? 0)%Z && remove); reduce_method;
        rewrite Hsize; reduce_method; rewrite Hread; status_tests;
        rewrite Heof; reduce_method; rewrite Hunused; status_tests;
        rewrite (proj2 (length_zero_iff_empty EmptyString) eq_refl); reduce_method;
        rewrite Hclose; status_tests; rewrite Hopen; reduce_method;
        rewrite <- ?app_assoc;
        (destruct handle; reduce_method;
         [destruct (status =? BZ_OK)%Z; reduce_method|];
         repeat split; reflexivity).
Qed.

End DecompressorFacts.

Section BufferDecompressorFacts.

Import Bzip2 Bzip2.Bzip2BufferDecompressor.
Context {world : Type} `{System world}.

Lemma buffer_read_cleared (s : env world t) :
  m_buffer (self s) = None -> read s = (Return EmptyString, s).
Proof.
  intros Hb. unfold read. unfold_monad. rewrite Hb. reflexivity.
Qed.

Lemma buffer_repeatedly_read_cleared (n : nat) (s : env world t) :
  m_buffer (self s) = None ->
  repeatedly n read s = (repeat (Return EmptyString) n, s).
Proof.
  intros Hb. induction n as [|n IH]; cbn [repeatedly repeat].
  - reflexivity.
  - rewrite (buffer_read_cleared s Hb), IH. reflexivity.
Qed.

Lemma buffer_read_not_ok (s : env world t) :
  fst (fst (BZ2_bzDecompress 10240 (sys s))) <> BZ_OK ->
  m_buffer (self (snd (read s))) = None.
Proof.
  destruct s as [[b size] w c]. reduce_method. intros Hbad.
  unfold read. unfold_monad. reduce_method.
  destruct b as [b|]; [|reflexivity]. reduce_method.
  destruct (BZ2_bzDecompress 10240 w) as [[result out] w1]. reduce_method.
  apply Z.eqb_neq in Hbad. rewrite Hbad. reduce_method.
  destruct (negb (result =? BZ_STREAM_END)%Z); reflexivity.
Qed.

Lemma buffer_read_stream_end (s : env world t) (out : string) (w1 : world) :
  m_buffer (self s) <> None ->
  BZ2_bzDecompress 10240 (sys s) = ((BZ_STREAM_END, out), w1) ->
  read s
  = (Return out,
     {| self := {| m_buffer := None; m_buffer_size := 0 |};
        sys := w1;
        calls := calls s ++ [Call_BZ2_bzDecompress] |}).
Proof.
  destruct s as [[b size] w c]. reduce_method. intros Hb Hdec.
  unfold read. unfold_monad. reduce_method.
  destruct b as [b|]; [|congruence]. reduce_method.
  rewrite Hdec. status_tests. reflexivity.
Qed.

Lemma buffer_close_ends (s : env world t) :
  close s
  = (Return tt,
     {| self := self s;
        sys := snd (BZ2_bzDecompressEnd (sys s));
        calls := calls s ++ [Call_BZ2_bzDecompressEnd] |}).
Proof.
  unfold close. unfold_monad.
  destruct (BZ2_bzDecompressEnd (sys s)) as [status w1]. reflexivity.
Qed.

End BufferDecompressorFacts.

Section CodecFacts.

Import Bzip2.
Context {world : Type} `{System world}.

(** Reading on behind the end.  Once a Bzip2Decompressor has marked the
    end of the stream, with its file and its handle still set, every
    further [read] gives the empty string, calls the codec no more (the
    page advice is all it calls) and leaves the decompressor ended.  A
    Bzip2BufferDecompressor forgets its buffer in the [read] in which the
    codec reports anything but [BZ_OK]; at the end of the stream that
    [read] gives the bytes decoded; and once the buffer is forgotten every
    further [read] gives the empty string and leaves everything as it
    is. *)
Theorem reads_after_the_end_are_empty (n : nat) :
  (forall (s : env world Bzip2Decompressor.t) (f : FILE),
     file_wrapper.file (Bzip2Decompressor.m_file (self s)) = Some f ->
     Bzip2Decompressor.m_stream_end (self s) = true ->
     Bzip2Decompressor.m_bzfile (self s) = true ->
     let r := repeatedly n Bzip2Decompressor.read s in
     fst r = repeat (Return EmptyString) n /\
     Bzip2Decompressor.m_stream_end (self (snd r)) = true /\
     Bzip2Decompressor.m_bzfile (self (snd r)) = true /\
     sys (snd r) = sys s /\
     calls (snd r)
     = calls s ++ List.concat (repeat (Bzip2Decompressor.page_advice s) n)) /\
  (forall s : env world Bzip2BufferDecompressor.t,
     (Bzip2BufferDecompressor.m_buffer (self s) = None ->
      repeatedly n Bzip2BufferDecompressor.read s
      = (repeat (Return EmptyString) n, s)) /\
     (fst (fst (BZ2_bzDecompress 10240 (sys s))) <> BZ_OK ->
      Bzip2BufferDecompressor.m_buffer
        (self (snd (Bzip2BufferDecompressor.read s))) = None) /\
     (Bzip2BufferDecompressor.m_buffer (self s) <> None ->
      forall out w1,
        BZ2_bzDecompress 10240 (sys s) = ((BZ_STREAM_END, out), w1) ->
        fst (Bzip2BufferDecompressor.read s) = Return out /\
        repeatedly n Bzip2BufferDecompressor.read
          (snd (Bzip2BufferDecompressor.read s))
        = (repeat (Return EmptyString) n,
           snd (Bzip2BufferDecompressor.read s)))).
Proof.
  split.
  - intros s f Hfile Hend Hbz. apply (repeatedly_read_ended n s Hfile Hend Hbz).
  - intros s. split; [|split].
    + apply buffer_repeatedly_read_cleared.
    + apply buffer_read_not_ok.
    + intros Hb out w1 Hdec.
      rewrite (buffer_read_stream_end s Hb Hdec). cbn [fst snd].
      split; [reflexivity|].
      apply buffer_repeatedly_read_cleared. reflexivity.
Qed.


End CodecFacts.

(** ** The properties on examples *)

Section Examples.

Import Queue.
Open Scope string_scope.

(** A wrapper that is done, with futures still in its queue, popped twice. *)
Lemma pop_when_done_is_sentinel_example :
  let w := {| m_queue := [Ready "a"; Failed 7]; m_done := true; waits := 3 |} in
  m_done w = true /\
  pop w = (Return "", w) /\
  pops 2 w = ([Return ""; Return ""], w).
Proof.
  intros w. split; [reflexivity|].
  destruct (pop_when_done_is_sentinel w eq_refl) as [Hpop Hpops].
  split; [exact Hpop | exact (Hpops 2)].
Defined.

(** Draining past two chunks and a failure up to the end marker. *)
Lemma drain_pops_until_done_example :
  let w := make [Ready "a"; Failed 7; Ready "b"; Ready ""; Ready "c"] in
  (m_done w = true \/ existsb ends_stream (m_queue w) = true) /\
  fst (drain w) = Return tt /\
  m_done (snd (drain w)) = true /\
  m_queue (snd (drain w)) = [Ready "c"].
Proof.
  intros w.
  destruct (drain_pops_until_done w)
    as (_ & _ & Hdone & Hreturns & Hqueue & _).
  assert (Hmarker : m_done w = true \/ existsb ends_stream (m_queue w) = true)
    by (right; reflexivity).
  split; [exact Hmarker|].
  split; [exact (Hreturns Hmarker)|].
  split; [exact (Hdone (Hreturns Hmarker))|].
  exact (proj1 (Hqueue eq_refl eq_refl)).
Defined.

End Examples.

Section ReadThreadExamples.

Import Queue ReadThread.
Open Scope string_scope.

Local Abbreviation run := (ReadThread.run scripted_read scripted_close).

(** One chunk, then the end of the file: seven steps of the thread. *)
Lemma one_sentinel_and_it_is_last_example :
  let m := run (repeat Background 7) (make [Value "ab"]) in
  thread_pc m = Exited /\
  sentinels (ReadThread.m_queue m) = 1 /\
  ReadThread.m_queue m = [Ready "ab"; Ready ""].
Proof.
  intros m.
  destruct (one_sentinel_and_it_is_last scripted_read scripted_close
              [Value "ab"] (repeat Background 7))
    as (Hexited & _ & _).
  assert (Hpc : thread_pc m = Exited) by reflexivity.
  split; [exact Hpc|].
  split; [exact (proj1 (Hexited Hpc))|reflexivity].
Defined.

(** One chunk, then a call of [read] that throws 7; the main thread asks
    for a stop while the exception is on its way. *)
Lemma failure_goes_through_the_queue_example :
  let m := run (repeat Background 4) (make [Value "ab"; Exception 7]) in
  let more := [Background; CallStop; Background; Background] in
  raises scripted_read scripted_close m 7 /\
  3 <= background_steps more /\
  ReadThread.m_queue (run more m) = [Ready "ab"; Failed 7; Ready ""] /\
  pops 3 (Queue.make (ReadThread.m_queue (run more m)))
  = ([Return "ab"; Throw 7; Return ""],
     {| Queue.m_queue := []; Queue.m_done := true; waits := 3 |}).
Proof.
  intros m more.
  assert (Hraises : raises scripted_read scripted_close m 7)
    by (left; split; reflexivity).
  assert (Hsteps : 3 <= background_steps more) by (cbn; lia).
  destruct (@failure_goes_through_the_queue _ _ scripted_read scripted_close
              [Value "ab"; Exception 7] (repeat Background 4) more 7
              Hraises Hsteps)
    as (_ & Hqueue & _ & _ & Hpops).
  split; [exact Hraises|]. split; [exact Hsteps|].
  split; [exact Hqueue | exact Hpops].
Defined.

(** A stop request while the thread is about to read: the read and the
    push of its chunk still happen, then the thread winds up. *)
Lemma stop_is_cooperative_and_close_idempotent_example :
  let m := run [Background] (make [Value "ab"; Value "cd"]) in
  let more := repeat Background 6 in
  thread_pc m <> LoopTest /\
  6 <= background_steps more /\
  reads (run more (stop m)) <= reads m + 1 /\
  thread_pc (run more (stop m)) = Exited /\
  fst (ReadThread.close (E:=nat) (run more (stop m))) = Return tt.
Proof.
  intros m more.
  destruct (stop_is_cooperative_and_close_idempotent scripted_read scripted_close m)
    as (_ & _ & Hafter & _).
  destruct (Hafter more) as (Hreads & _ & _ & Hexit).
  assert (Hsteps : 6 <= background_steps more) by (cbn; lia).
  split; [discriminate|]. split; [exact Hsteps|].
  split; [exact Hreads|]. exact (Hexit Hsteps).
Defined.

End ReadThreadExamples.

Section CodecExamples.

Import Bzip2 Bzip2.Script.
Open Scope string_scope.
Open Scope Z_scope.

(** The finalisation fails with [BZ_IO_ERROR] on descriptor 5, fsync
    configured: the file is synced and closed, then the error is thrown
    with errno in it, and the size stays 0. *)
Lemma close_cleans_up_then_raises_example :
  let s := start (compressor 5 true) failing_finalize in
  calls (snd (Bzip2Compressor.close s))
  = [Call_BZ2_bzWriteClose64; Call_reliable_fsync 5; Call_fclose 5] /\
  fst (Bzip2Compressor.close s)
  = Throw (bzip2_error "bzip2 error: write close failed" BZ_IO_ERROR 28).
Proof.
  intros s.
  assert (Hopen : Bzip2Compressor.m_bzfile (self s) = true) by reflexivity.
  assert (Hfile : file_wrapper.file (Bzip2Compressor.m_file (self s)) = Some 5)
    by reflexivity.
  assert (Hfin : BZ2_bzWriteClose64 (sys s)
                 = ((BZ_IO_ERROR, 7, 0), failing_finalize)) by reflexivity.
  assert (Hsync : if Bzip2Compressor.do_fsync (self s)
                  then reliable_fsync (fileno 5) failing_finalize
                       = (None, failing_finalize)
                  else failing_finalize = failing_finalize) by reflexivity.
  destruct (close_cleans_up_then_raises s failing_finalize Hopen Hfile Hfin Hsync)
    as (Hcalls & _ & _ & _ & Hout).
  split; [exact Hcalls | exact Hout].
Defined.

Lemma file_size_unchanged_when_finalize_fails_example :
  let s := start (compressor 5 true) failing_finalize in
  Bzip2Compressor.m_bzfile (self s) = true /\
  fst (fst (fst (BZ2_bzWriteClose64 (sys s)))) <> BZ_OK /\
  Bzip2Compressor.file_size (self (snd (Bzip2Compressor.close s))) = 0.
Proof.
  intros s.
  assert (Hbad : fst (fst (fst (BZ2_bzWriteClose64 (sys s)))) <> BZ_OK)
    by discriminate.
  destruct (file_size_unchanged_when_finalize_fails s) as (Hkept & _).
  split; [reflexivity|]. split; [exact Hbad|].
  assert (Hopen : Bzip2Compressor.m_bzfile (self s) = true) by reflexivity.
  exact (proj2 (Hkept Hopen Hbad)).
Defined.

(** C7 as stated fails on standard output: [close] on a compressor over
    descriptor 1 finalises, syncs and returns, and [fclose] is not among
    its calls. *)
Lemma close_leaves_stdout_open :
  let s := start (compressor 1 true) quiet in
  fst (Bzip2Compressor.close s) = Return tt /\
  calls (snd (Bzip2Compressor.close s))
  = [Call_BZ2_bzWriteClose64; Call_reliable_fsync 1] /\
  ~ In (Call_fclose 1) (calls (snd (Bzip2Compressor.close s))).
Proof.
  intros s. split; [reflexivity|]. split; [reflexivity|].
  intros [Hin|[Hin|[]]]; discriminate.
Qed.



(** After a stream that ended where no new one could be opened, the
    handle is null and the next [read] stops at [assert(m_bzfile)]. *)
Lemma read_after_failed_open_fails_assertion :
  let s := start (decompressor 5 false) no_new_stream in
  fst (repeatedly 2 Bzip2Decompressor.read s)
  = [Return "last"; Halt (AssertionFailed "m_bzfile")] /\
  Bzip2Decompressor.m_stream_end (self (snd (Bzip2Decompressor.read s))) = true /\
  Bzip2Decompressor.m_bzfile (self (snd (Bzip2Decompressor.read s))) = false.
Proof.
  intros s. repeat split; reflexivity.
Qed.

Lemma reads_after_the_end_are_empty_example :
  let s := start (ended_decompressor 5) leftover_at_eof in
  Bzip2Decompressor.m_stream_end (self s) = true /\
  Bzip2Decompressor.m_bzfile (self s) = true /\
  fst (repeatedly 3 Bzip2Decompressor.read s) = [Return ""; Return ""; Return ""] /\
  let b := start (buffer_decompressor "BZh9") one_block in
  fst (Bzip2BufferDecompressor.read b) = Return "data" /\
  fst (repeatedly 3 Bzip2BufferDecompressor.read (snd (Bzip2BufferDecompressor.read b)))
  = [Return ""; Return ""; Return ""].
Proof.
  intros s.
  destruct (@reads_after_the_end_are_empty _ Script.system 3) as [Hfd Hbuffer].
  assert (Hfile : file_wrapper.file (Bzip2Decompressor.m_file (self s)) = Some 5)
    by reflexivity.
  assert (Hended : Bzip2Decompressor.m_stream_end (self s) = true) by reflexivity.
  assert (Hopen : Bzip2Decompressor.m_bzfile (self s) = true) by reflexivity.
  destruct (Hfd s 5 Hfile Hended Hopen) as (Hout & _).
  split; [reflexivity|]. split; [reflexivity|]. split; [exact Hout|].
  intros b.
  destruct (Hbuffer b) as (_ & _ & Hend).
  assert (Hb : Bzip2BufferDecompressor.m_buffer (self b) <> None) by discriminate.
  assert (Hdec : BZ2_bzDecompress 10240 (sys b)
                 = ((BZ_STREAM_END, "data"), snd (BZ2_bzDecompress 10240 (sys b))))
    by reflexivity.
  destruct (Hend Hb "data" _ Hdec) as [Hfirst Hrest].
  split; [exact Hfirst|]. rewrite Hrest. reflexivity.
Defined.

(** C8, where the code breaks it.  A short file of two streams is read
    to its end by the library in one go: when the first stream ends, the
    end-of-file indicator is set and the bytes of the second stream are
    the unused bytes of the library.  [read] tests the indicator before
    anything else and marks the stream as ended: it does not ask for the
    unused bytes and opens no stream on them, so the leftover bytes, which
    the code means not to lose, are lost, and every later [read] returns
    the empty string. *)
Lemma leftover_bytes_dropped_at_eof :
  let s := start (decompressor 5 false) leftover_at_eof in
  let s1 := snd (Bzip2Decompressor.read s) in
  BZ2_bzRead input_buffer_size (sys s) = ((BZ_STREAM_END, "first"), sys s1) /\
  feof (Some 5) (sys s1) = true /\
  snd (fst (BZ2_bzReadGetUnused (sys s1))) = "BZh9" /\
  fst (Bzip2Decompressor.read s) = Return "first" /\
  calls s1 = [Call_BZ2_bzRead input_buffer_size] /\
  Bzip2Decompressor.m_stream_end (self s1) = true /\
  fst (repeatedly 3 Bzip2Decompressor.read s)
  = [Return "first"; Return ""; Return ""] /\
  calls (snd (repeatedly 3 Bzip2Decompressor.read s))
  = [Call_BZ2_bzRead input_buffer_size].
Proof.
  intros s s1. repeat split; reflexivity.
Qed.

(** The ways on from the end of a stream with the file not at its end:
    unused bytes seed a new stream; with none, a stream that cannot be
    opened ends the reading. *)
Lemma read_at_stream_end_by_cases_example :
  let s := start (decompressor 5 false) empty_first_stream in
  let s' := snd (Bzip2Decompressor.read s) in
  let t := start (decompressor 5 false) no_new_stream in
  let t' := snd (Bzip2Decompressor.read t) in
  (calls s'
   = [Call_BZ2_bzRead input_buffer_size; Call_BZ2_bzReadGetUnused;
      Call_BZ2_bzReadClose; Call_BZ2_bzReadOpen "BZh9"] /\
   Bzip2Decompressor.m_stream_end (self s') = false /\
   Bzip2Decompressor.m_bzfile (self s') = true) /\
  (calls t'
   = [Call_BZ2_bzRead input_buffer_size; Call_BZ2_bzReadGetUnused;
      Call_BZ2_bzReadClose; Call_BZ2_bzReadOpen ""] /\
   fst (Bzip2Decompressor.read t) = Return "last" /\
   Bzip2Decompressor.m_stream_end (self t') = true /\
   Bzip2Decompressor.m_bzfile (self t') = false).
Proof.
  intros s s' t t'.
  assert (Hsize : input_buffer_size < INT_MAX) by reflexivity.
  split.
  - assert (Hopen : Bzip2Decompressor.m_bzfile (self s) = true) by reflexivity.
    assert (Hactive : Bzip2Decompressor.m_stream_end (self s) = false)
      by reflexivity.
    assert (Hread : BZ2_bzRead input_buffer_size (sys s)
                    = ((BZ_STREAM_END, ""), sys s')) by reflexivity.
    assert (Hfile : file_wrapper.file (Bzip2Decompressor.m_file (self s)) = Some 5)
      by reflexivity.
    destruct (read_at_stream_end_by_cases s Hfile Hopen Hactive Hsize Hread)
      as (_ & Hmore).
    assert (Heof : feof (Some 5) (sys s') = false) by reflexivity.
    assert (Hunused : BZ2_bzReadGetUnused (sys s') = ((BZ_OK, "BZh9"), sys s'))
      by reflexivity.
    assert (Hclose : BZ2_bzReadClose (sys s') = (BZ_OK, sys s')) by reflexivity.
    destruct (Hmore Heof "BZh9" (sys s') (sys s') Hunused Hclose) as (Hseed & _).
    assert (Hne : "BZh9" <> "") by discriminate.
    assert (Hlen : Z.of_nat (String.length "BZh9") < INT_MAX) by reflexivity.
    destruct (Hseed Hne Hlen) as (Hcalls & Hend & Hbz & _).
    split; [exact Hcalls|]. split; [exact Hend | exact Hbz].
  - assert (Hopen : Bzip2Decompressor.m_bzfile (self t) = true) by reflexivity.
    assert (Hactive : Bzip2Decompressor.m_stream_end (self t) = false)
      by reflexivity.
    assert (Hread : BZ2_bzRead input_buffer_size (sys t)
                    = ((BZ_STREAM_END, "last"), sys t')) by reflexivity.
    assert (Hfile : file_wrapper.file (Bzip2Decompressor.m_file (self t)) = Some 5)
      by reflexivity.
    destruct (read_at_stream_end_by_cases t Hfile Hopen Hactive Hsize Hread)
      as (_ & Hmore).
    assert (Heof : feof (Some 5) (sys t') = false) by reflexivity.
    assert (Hunused : BZ2_bzReadGetUnused (sys t') = ((BZ_OK, ""), sys t'))
      by reflexivity.
    assert (Hclose : BZ2_bzReadClose (sys t') = (BZ_OK, sys t')) by reflexivity.
    destruct (Hmore Heof "" (sys t') (sys t') Hunused Hclose) as (_ & Hfresh).
    destruct (Hfresh eq_refl) as (Hcalls & Hout & Hend & Hbz).
    split; [exact Hcalls|]. split; [exact Hout|].
    split; [exact Hend | exact Hbz].
Defined.

End CodecExamples.

(** * Further properties *)

(** ** Order of the queue *)

Section FifoFacts.

Import Queue Fifo.
Context {E T : Type} `{Checkable T}.

Lemma push_is_append (q : list (future E T)) (item : future E T) :
  push q item = q ++ [item].
Proof. destruct item; reflexivity. Qed.

Lemma push_all_is_append (items : list (future E T)) :
  forall q, push_all q items = q ++ items.
Proof.
  unfold push_all.
  induction items as [|item items IH]; intros q; cbn [fold_left].
  - rewrite app_nil_r. reflexivity.
  - rewrite IH, push_is_append, <- app_assoc. reflexivity.
Qed.

(** What goes in comes out, in the order of the pushes: a consumer of a
    queue filled by [add_to_queue], with values and with exceptions, gets
    from as many calls of [pop] each value returned and each exception
    thrown, first push first, as long as no value pushed is an end marker.
    The wrapper is still active then, and a further [pop] waits. *)
Theorem pops_give_the_pushes_in_order (items : list (future E T)) :
  forallb (fun f => negb (ends_stream f)) items = true ->
  pops (List.length items) (make (push_all [] items))
  = (map outcome_of items,
     {| m_queue := []; m_done := false; waits := List.length items |}) /\
  fst (pop (snd (pops (List.length items) (make (push_all [] items)))))
  = Halt Blocked.
Proof.
  intros Hitems. rewrite push_all_is_append. unfold make.
  change ([] ++ items) with items.
  pose proof (pops_prefix items [] 0 Hitems) as Hpops.
  rewrite app_nil_r in Hpops. rewrite Hpops. cbn [Nat.add fst snd].
  split; [reflexivity|]. rewrite pop_blocked. reflexivity.
Qed.

Lemma split_at_end (q : list (future E T)) :
  existsb ends_stream q = true ->
  exists v, is_end v = true /\
            q = before_end q ++ Ready v :: after_end q.
Proof.
  induction q as [|f q IH]; cbn [existsb before_end after_end]; intros Hq.
  - discriminate.
  - destruct (ends_stream f) eqn:Hf.
    + destruct f as [v|e]; cbn in Hf; [|discriminate].
      exists v. split; [exact Hf|reflexivity].
    + cbn [orb] in Hq. destruct (IH Hq) as (v & Hv & Hsplit).
      exists v. split; [exact Hv|].
      rewrite <- app_comm_cons. f_equal. exact Hsplit.
Qed.

Lemma before_end_active (q : list (future E T)) :
  forallb (fun f => negb (ends_stream f)) (before_end q) = true.
Proof.
  induction q as [|f q IH]; cbn [before_end]; [reflexivity|].
  destruct (ends_stream f) eqn:Hf; [reflexivity|].
  cbn [forallb]. rewrite Hf, IH. reflexivity.
Qed.

(** The consumer stops at the first end marker: with a marker in the
    queue, calls of [pop] give what is in front of the marker, then the
    marker, then [T{}] as often as asked; the futures behind the marker
    stay in the queue, and [wait_and_pop] is called once for each future up
    to the marker and never again. *)
Theorem pop_stops_at_the_first_end_marker (q : list (future E T)) (k : nat) :
  existsb ends_stream q = true ->
  exists v,
    is_end v = true /\
    q = before_end q ++ Ready v :: after_end q /\
    pops (List.length (before_end q) + S k) (make q)
    = (map outcome_of (before_end q) ++ Return v :: repeat (Return T_default) k,
       {| m_queue := after_end q; m_done := true;
          waits := S (List.length (before_end q)) |}).
Proof.
  intros Hq. destruct (split_at_end q Hq) as (v & Hv & Hsplit).
  exists v. split; [exact Hv|]. split; [exact Hsplit|].
  unfold make. rewrite Hsplit at 2.
  rewrite pops_app, (pops_prefix _ _ 0 (before_end_active q)).
  cbn [fst snd pops Nat.add]. rewrite pop_ready, Hv.
  rewrite pops_done by reflexivity. reflexivity.
Qed.

End FifoFacts.

Section FifoExamples.

Import Queue Fifo.
Open Scope string_scope.

Lemma pops_give_the_pushes_in_order_example :
  let items := [Ready "a"; Failed 7; Ready "b"] in
  forallb (fun f => negb (ends_stream f)) items = true /\
  pops 3 (make (push_all [] items))
  = ([Return "a"; Throw 7; Return "b"],
     {| m_queue := []; m_done := false; waits := 3 |}).
Proof.
  intros items.
  assert (Hitems : forallb (fun f => negb (ends_stream f)) items = true)
    by reflexivity.
  split; [exact Hitems|].
  exact (proj1 (pops_give_the_pushes_in_order items Hitems)).
Defined.

Lemma pop_stops_at_the_first_end_marker_example :
  let q := [Ready "a"; Failed 7; Ready ""; Ready "late"] in
  existsb ends_stream q = true /\
  pops 5 (make q)
  = ([Return "a"; Throw 7; Return ""; Return ""; Return ""],
     {| m_queue := [Ready "late"]; m_done := true; waits := 3 |}).
Proof.
  intros q.
  assert (Hq : existsb ends_stream q = true) by reflexivity.
  split; [exact Hq|].
  destruct (pop_stops_at_the_first_end_marker q 2 Hq) as (v & Hv & Hsplit & Hpops).
  assert (Hv' : v = "").
  { cbn in Hsplit. injection Hsplit as Hv'. symmetry. exact Hv'. }
  subst v. exact Hpops.
Defined.

End FifoExamples.

(** ** What the read thread forwards *)

Section ForwardingFacts.

Import Queue ReadThread Forwarding.

Variables (E decompressor : Type).
Variable read : decompressor -> result E string * decompressor.
Variable close_decompressor : decompressor -> result E unit * decompressor.

Local Abbreviation step := (run_in_thread_step read close_decompressor).
Local Abbreviation run := (ReadThread.run read close_decompressor).
Local Abbreviation manager := (ReadThread.manager E decompressor).
Local Abbreviation after_reads := (Forwarding.after_reads read).
Local Abbreviation read_results := (Forwarding.read_results read).
Local Abbreviation forwarded := (Forwarding.forwarded read close_decompressor).
Local Abbreviation came_to := (Forwarding.came_to read close_decompressor).
Local Abbreviation read_to_end := (@Forwarding.read_to_end E).

Lemma after_reads_next (k : nat) :
  forall d, after_reads (S k) d = snd (read (after_reads k d)).
Proof.
  induction k as [|k IH]; intros d.
  - reflexivity.
  - change (after_reads (S (S k)) d) with (after_reads (S k) (snd (read d))).
    rewrite IH. reflexivity.
Qed.

Lemma read_results_next (k : nat) :
  forall d,
    read_results (S k) d = read_results k d ++ [fst (read (after_reads k d))].
Proof.
  induction k as [|k IH]; intros d.
  - reflexivity.
  - change (read_results (S (S k)) d)
      with (fst (read d) :: read_results (S k) (snd (read d))).
    rewrite IH. reflexivity.
Qed.

Lemma forwarded_make (d0 : decompressor) : forwarded d0 (make d0).
Proof.
  exists []. repeat split. constructor.
Qed.

Lemma forwarded_same_thread (d0 : decompressor) (m1 m2 : manager) :
  same_thread m1 m2 -> forwarded d0 m2 -> forwarded d0 m1.
Proof.
  intros (Hd & Hq & Hp & Hr).
  unfold Forwarding.forwarded, Forwarding.came_to.
  rewrite Hd, Hq, Hp, Hr. auto.
Qed.

Lemma forwarded_step (d0 : decompressor) (m : manager) :
  forwarded d0 m -> forwarded d0 (step m).
Proof.
  destruct m as [d q dn p j r].
  unfold Forwarding.forwarded, Forwarding.came_to, run_in_thread_step.
  cbn [thread_pc m_decompressor ReadThread.m_queue reads ReadThread.m_done].
  destruct p.
  - (* LoopTest *)
    intros (chunks & Hne & Hres & Hd & Hq).
    destruct dn; cbn [thread_pc m_decompressor ReadThread.m_queue reads ReadThread.m_done joinable set_pc set_queue after_read set_decompressor]; exists chunks; repeat split; try assumption.
    left. exact Hres.
  - (* ReadChunk *)
    intros (chunks & Hne & Hres & Hd & Hq). subst d.
    destruct (read (after_reads r d0)) as [[data|e] d'] eqn:Hread.
    + destruct (empty data) eqn:Hempty; cbn [thread_pc m_decompressor ReadThread.m_queue reads ReadThread.m_done joinable set_pc set_queue after_read set_decompressor].
      * exists chunks. split; [assumption|].
        rewrite read_results_next, after_reads_next, Hread, Hres. cbn [fst snd].
        destruct data; [|discriminate].
        split; [right; reflexivity|]. split; [reflexivity|assumption].
      * exists chunks. split; [assumption|]. split; [exact Hempty|].
        rewrite read_results_next, after_reads_next, Hread, Hres, map_app.
        cbn [fst snd]. repeat split. assumption.
    + cbn [thread_pc m_decompressor ReadThread.m_queue reads ReadThread.m_done joinable set_pc set_queue after_read set_decompressor]. exists chunks. split; [assumption|].
      rewrite read_results_next, after_reads_next, Hread, Hres. cbn [fst snd].
      split; [left; split; reflexivity|assumption].
  - (* PushData *)
    intros (chunks & Hne & Hdata & Hres & Hd & Hq). cbn [thread_pc m_decompressor ReadThread.m_queue reads ReadThread.m_done joinable set_pc set_queue after_read set_decompressor].
    exists (chunks ++ [data]). split.
    { apply Forall_app. split; [assumption|]. constructor; [exact Hdata|constructor]. }
    split; [exact Hres|]. split; [exact Hd|].
    unfold add_to_queue. rewrite Hq, map_app. reflexivity.
  - (* CloseDecompressor *)
    intros (chunks & Hne & Hres & Hd & Hq). subst d.
    destruct (close_decompressor (after_reads r d0)) as [[[]|e] d'] eqn:Hclose; cbn [thread_pc m_decompressor ReadThread.m_queue reads ReadThread.m_done joinable set_pc set_queue after_read set_decompressor].
    + exists chunks, Closed. split; [assumption|].
      rewrite Hclose. cbn [fst snd failure_of].
      rewrite app_nil_r. repeat split; assumption.
    + exists chunks. split; [assumption|]. split; [|assumption].
      right. rewrite Hclose. repeat split. assumption.
  - (* Catch *)
    intros (chunks & Hne & Hcame & Hq). cbn [thread_pc m_decompressor ReadThread.m_queue reads ReadThread.m_done joinable set_pc set_queue after_read set_decompressor].
    destruct Hcame as [Hcame|Hcame].
    + exists chunks, (ReadThrew e). split; [assumption|]. split; [exact Hcame|].
      unfold add_to_queue_exception. rewrite Hq. reflexivity.
    + exists chunks, (CloseThrew e). split; [assumption|]. split; [exact Hcame|].
      unfold add_to_queue_exception. rewrite Hq. reflexivity.
  - (* PushSentinel *)
    intros (chunks & en & Hne & Hcame & Hq). cbn [thread_pc m_decompressor ReadThread.m_queue reads ReadThread.m_done joinable set_pc set_queue after_read set_decompressor].
    exists chunks, en. split; [assumption|]. split; [exact Hcame|].
    unfold add_to_queue. rewrite Hq, <- app_assoc. reflexivity.
  - (* Exited *)
    auto.
Qed.

Lemma forwarded_run (d0 : decompressor) (schedule : list action) :
  forall m : manager, forwarded d0 m -> forwarded d0 (run schedule m).
Proof.
  induction schedule as [|a schedule IH]; intros m Hm; cbn [ReadThread.run].
  - exact Hm.
  - apply IH. destruct a; cbn [ReadThread.perform].
    + apply forwarded_step, Hm.
    + apply forwarded_same_thread with (m2 := m); [|exact Hm].
      apply stop_same_thread.
    + apply forwarded_same_thread with (m2 := m); [|exact Hm].
      apply close_same_thread.
Qed.

Lemma read_results_length (k : nat) :
  forall d, List.length (read_results k d) = k.
Proof.
  induction k as [|k IH]; intros d; cbn [Forwarding.read_results List.length].
  - reflexivity.
  - rewrite IH. reflexivity.
Qed.

Lemma no_exception_in_values (chunks : list string) (e : E) :
  ~ In (Exception e) (map (@Value E string) chunks).
Proof.
  induction chunks as [|c chunks IH]; cbn [map In].
  - auto.
  - intros [Hc|Hin]; [discriminate|auto].
Qed.

Lemma read_to_end_returned (results : list (result E string)) (chunks : list string) :
  read_to_end results chunks ->
  (forall e, ~ In (Exception e) results) /\
  List.length results <= List.length chunks + 1.
Proof.
  intros [Hr|Hr]; subst results; split.
  - intros e. apply no_exception_in_values.
  - rewrite length_map. lia.
  - intros e Hin. apply in_app_or in Hin. destruct Hin as [Hin|[Hin|[]]].
    + exact (no_exception_in_values _ _ Hin).
    + discriminate.
  - rewrite length_app, length_map. cbn. lia.
Qed.

(** The thread forwards what it reads and nothing else.  Whenever it
    stands at the loop test, the queue holds the strings that the calls of
    [read] have given so far, in the order of the calls, and none of them
    is empty.  When it has returned, the queue holds these chunks, then
    the exception if one was thrown, then the empty string.  The exception
    is the one that the last call of [read] threw, or else the one that
    [close], called on the decompressor as the reads left it, threw; when
    neither threw, no exception is in the queue.  The calls of [read] made
    are one for each chunk and at most one more: none when the flag ended
    the loop, the one that gave the empty string, or the one that threw. *)
Theorem queue_holds_the_chunks_read_in_order
  (d0 : decompressor) (schedule : list action) :
  let m := run schedule (make d0) in
  let results := read_results (reads m) d0 in
  let closing := fst (close_decompressor (after_reads (reads m) d0)) in
  (thread_pc m = LoopTest ->
   exists chunks,
     Forall nonempty chunks /\
     results = map Value chunks /\
     ReadThread.m_queue m = map Ready chunks) /\
  (thread_pc m = Exited ->
   exists chunks en,
     Forall nonempty chunks /\
     ReadThread.m_queue m
     = map Ready chunks ++ failure_of en ++ [Ready EmptyString] /\
     reads m <= List.length chunks + 1 /\
     match en with
     | ReadThrew e => results = map Value chunks ++ [Exception e]
     | Closed => read_to_end results chunks /\ closing = Value tt
     | CloseThrew e => read_to_end results chunks /\ closing = Exception e
     end).
Proof.
  intros m results closing.
  assert (Hm : forwarded d0 m) by (apply forwarded_run, forwarded_make).
  unfold Forwarding.forwarded in Hm. split.
  - intros Hpc. rewrite Hpc in Hm.
    destruct Hm as (chunks & Hne & Hres & _ & Hq).
    exists chunks. repeat split; assumption.
  - intros Hpc. rewrite Hpc in Hm.
    destruct Hm as (chunks & en & Hne & Hcame & Hq).
    exists chunks, en. split; [assumption|]. split; [assumption|].
    rewrite <- (read_results_length (reads m) d0) at 1.
    unfold Forwarding.came_to in Hcame.
    destruct en as [|e|e].
    + destruct Hcame as (Hres & Hclose & _). split; [|split; assumption].
      apply (read_to_end_returned Hres).
    + destruct Hcame as (Hres & _). split; [|exact Hres].
      rewrite Hres, length_app, length_map. cbn. lia.
    + destruct Hcame as (Hres & Hclose & _). split; [|split; assumption].
      apply (read_to_end_returned Hres).
Qed.

(** The thread closes the decompressor once, behind the loop, and not at
    all after a call of [read] that threw.  As long as the thread is in
    the loop or about to close, the decompressor is as the calls of [read]
    have left it.  When the thread has returned, either the last call of
    [read] threw and the decompressor is still as the reads left it, or
    no call of [read] threw and the decompressor is as one call of
    [close] after the last read left it. *)
Theorem decompressor_closed_once_unless_read_threw
  (d0 : decompressor) (schedule : list action) :
  let m := run schedule (make d0) in
  let d := after_reads (reads m) d0 in
  let results := read_results (reads m) d0 in
  (left_loop (thread_pc m) = false \/ thread_pc m = CloseDecompressor ->
   m_decompressor m = d) /\
  (thread_pc m = Exited ->
   (exists front e,
      results = front ++ [Exception e] /\ m_decompressor m = d) \/
   ((forall e, ~ In (Exception e) results) /\
    m_decompressor m = snd (close_decompressor d))).
Proof.
  intros m d results.
  assert (Hm : forwarded d0 m) by (apply forwarded_run, forwarded_make).
  unfold Forwarding.forwarded in Hm. fold d results in Hm. split.
  - intros Hpc. destruct (thread_pc m) eqn:Hp;
      try (destruct Hpc as [Hpc|Hpc]; discriminate).
    + destruct Hm as (chunks & _ & _ & Hd & _). exact Hd.
    + destruct Hm as (chunks & _ & _ & Hd & _). exact Hd.
    + destruct Hm as (chunks & _ & _ & _ & Hd & _). exact Hd.
    + destruct Hm as (chunks & _ & _ & Hd & _). exact Hd.
  - intros Hpc. rewrite Hpc in Hm.
    destruct Hm as (chunks & en & _ & Hcame & _).
    unfold Forwarding.came_to in Hcame. fold d results in Hcame.
    destruct en as [|e|e].
    + destruct Hcame as (Hres & _ & Hd). right. split; [|exact Hd].
      apply (read_to_end_returned Hres).
    + destruct Hcame as (Hres & Hd). left.
      exists (map Value chunks), e. split; assumption.
    + destruct Hcame as (Hres & _ & Hd). right. split; [|exact Hd].
      apply (read_to_end_returned Hres).
Qed.

Lemma chunks_are_active (chunks : list string) (en : Forwarding.ending E) :
  Forall nonempty chunks ->
  forallb (fun f => negb (ends_stream f)) (map Ready chunks ++ failure_of en)
  = true.
Proof.
  intros Hne. rewrite forallb_app. apply andb_true_intro. split.
  - induction Hne as [|c chunks Hc _ IH]; cbn [map forallb]; [reflexivity|].
    rewrite IH, andb_true_r. cbn [ends_stream is_end string_checkable].
    unfold Forwarding.nonempty in Hc. rewrite Hc. reflexivity.
  - destruct en; reflexivity.
Qed.

(** From the decompressor to the consumer.  When the thread has
    returned, a consumer that pops the queue through a [queue_wrapper]
    gets the strings that the calls of [read] gave, in the order of the
    calls and none of them empty; then, thrown by the call of [pop] in its
    turn, the exception that the last call of [read] threw, or else the
    one that [close], called on the decompressor as the reads left it,
    threw, and no exception when neither threw; then the empty string,
    with which the wrapper is done; every further [pop] gives the empty
    string and waits for nothing. *)
Theorem consumer_gets_what_the_decompressor_gave
  (d0 : decompressor) (schedule : list action) (k : nat) :
  let m := run schedule (make d0) in
  let results := read_results (reads m) d0 in
  let closing := fst (close_decompressor (after_reads (reads m) d0)) in
  thread_pc m = Exited ->
  exists chunks en,
    Forall nonempty chunks /\
    match en with
    | ReadThrew e => results = map Value chunks ++ [Exception e]
    | Closed => read_to_end results chunks /\ closing = Value tt
    | CloseThrew e => read_to_end results chunks /\ closing = Exception e
    end /\
    let n := List.length chunks + List.length (failure_of en) + 1 in
    pops (n + k) (Queue.make (ReadThread.m_queue m))
    = (map (fun c => Return c) chunks ++ map outcome_of (failure_of en)
       ++ Return EmptyString :: repeat (Return EmptyString) k,
       {| Queue.m_queue := []; Queue.m_done := true; waits := n |}).
Proof.
  intros m results closing Hpc.
  assert (Hm : forwarded d0 m) by (apply forwarded_run, forwarded_make).
  unfold Forwarding.forwarded in Hm. rewrite Hpc in Hm.
  destruct Hm as (chunks & en & Hne & Hcame & Hq).
  exists chunks, en. split; [exact Hne|]. split.
  { unfold Forwarding.came_to in Hcame.
    destruct en as [|e|e].
    - destruct Hcame as (Hres & Hclose & _). split; assumption.
    - destruct Hcame as (Hres & _). exact Hres.
    - destruct Hcame as (Hres & Hclose & _). split; assumption. }
  intros n. rewrite Hq, app_assoc.
  pose proof (chunks_are_active en Hne) as Hactive.
  destruct (pops_up_to_sentinel _ Hactive) as [_ Hpops].
  assert (Hn : List.length (map Ready chunks ++ failure_of en) + 1 = n).
  { rewrite length_app, length_map. reflexivity. }
  rewrite Hn in Hpops.
  rewrite pops_app, Hpops. cbn [fst snd].
  rewrite pops_done by reflexivity. cbn [fst snd T_default string_checkable].
  rewrite map_app, map_map, <- !app_assoc. reflexivity.
Qed.

End ForwardingFacts.

Section ForwardingExamples.

Import Queue ReadThread Forwarding.
Open Scope string_scope.
Open Scope list_scope.

Local Abbreviation run := (ReadThread.run counted_read counted_close).

(** One chunk, the end of the file, and a [close] that throws 9: eight
    steps of the thread. *)
Lemma queue_holds_the_chunks_read_in_order_example :
  let d0 := ([Value "ab"], 0) in
  let m := ReadThread.run counted_read throwing_close (repeat Background 8)
             (make d0) in
  let results := read_results counted_read (reads m) d0 in
  let closing := fst (throwing_close (after_reads counted_read (reads m) d0)) in
  thread_pc m = Exited /\
  ReadThread.m_queue m = [Ready "ab"; Failed 9; Ready ""] /\
  closing = Exception 9 /\
  exists chunks en,
    Forall nonempty chunks /\
    ReadThread.m_queue m
    = map Ready chunks ++ failure_of en ++ [Ready ""] /\
    reads m <= List.length chunks + 1 /\
    match en with
    | ReadThrew e => results = map Value chunks ++ [Exception e]
    | Closed => read_to_end results chunks /\ closing = Value tt
    | CloseThrew e => read_to_end results chunks /\ closing = Exception e
    end.
Proof.
  intros d0 m results closing.
  assert (Hpc : thread_pc m = Exited) by reflexivity.
  split; [exact Hpc|]. split; [reflexivity|]. split; [reflexivity|].
  exact (proj2 (@queue_holds_the_chunks_read_in_order
                  _ _ counted_read throwing_close d0 (repeat Background 8)) Hpc).
Defined.

(** One chunk and the end of the file, with a stop request on the way:
    the decompressor has been closed once. *)
Lemma decompressor_closed_once_unless_read_threw_example :
  let d0 := ([Value "ab"], 0) in
  let m := run (repeat Background 5 ++ [CallStop; Background; Background]) (make d0) in
  thread_pc m = Exited /\
  snd (m_decompressor m) = 1 /\
  ((exists front e,
      read_results counted_read (reads m) d0 = front ++ [Exception e] /\
      m_decompressor m = after_reads counted_read (reads m) d0) \/
   ((forall e, ~ In (Exception e) (read_results counted_read (reads m) d0)) /\
    m_decompressor m
    = snd (counted_close (after_reads counted_read (reads m) d0)))).
Proof.
  intros d0 m.
  assert (Hpc : thread_pc m = Exited) by reflexivity.
  split; [exact Hpc|]. split; [reflexivity|].
  exact (proj2 (@decompressor_closed_once_unless_read_threw
                  _ _ counted_read counted_close d0
                  (repeat Background 5 ++ [CallStop; Background; Background]))
           Hpc).
Defined.

(** One chunk, the end of the file, and a [close] that throws 9: the
    consumer gets the chunk, the exception of [close], the empty string,
    and the empty string again. *)
Lemma consumer_gets_what_the_decompressor_gave_example :
  let d0 := ([Value "ab"], 0) in
  let m := ReadThread.run counted_read throwing_close (repeat Background 8)
             (make d0) in
  let results := read_results counted_read (reads m) d0 in
  let closing := fst (throwing_close (after_reads counted_read (reads m) d0)) in
  thread_pc m = Exited /\
  pops 4 (Queue.make (ReadThread.m_queue m))
  = ([Return "ab"; Throw 9; Return ""; Return ""],
     {| Queue.m_queue := []; Queue.m_done := true; waits := 3 |}) /\
  exists chunks en,
    Forall nonempty chunks /\
    match en with
    | ReadThrew e => results = map Value chunks ++ [Exception e]
    | Closed => read_to_end results chunks /\ closing = Value tt
    | CloseThrew e => read_to_end results chunks /\ closing = Exception e
    end /\
    let n := List.length chunks + List.length (failure_of en) + 1 in
    pops (n + 1) (Queue.make (ReadThread.m_queue m))
    = (map (fun c => Return c) chunks ++ map outcome_of (failure_of en)
       ++ Return "" :: repeat (Return "") 1,
       {| Queue.m_queue := []; Queue.m_done := true; waits := n |}).
Proof.
  intros d0 m results closing.
  assert (Hpc : thread_pc m = Exited) by reflexivity.
  split; [exact Hpc|]. split; [reflexivity|].
  exact (@consumer_gets_what_the_decompressor_gave
           _ _ counted_read throwing_close d0 (repeat Background 8) 1 Hpc).
Defined.

End ForwardingExamples.

(** ** The life of a compressor *)

Ltac count_calls :=
  reduce_method;
  unfold Lifecycle.count in *;
  rewrite ?filter_app, ?length_app in *;
  cbn [filter List.length Lifecycle.is_fclose Lifecycle.is_finalize
       Lifecycle.uses_handle] in *.

Section CompressorLife.

Import Bzip2 Bzip2.Bzip2Compressor Lifecycle.
Context {world : Type} `{System world}.

Lemma compressor_accounts_constructor (fd : Z) (sync : bool) (w : world) :
  let r := constructor fd {| self := fresh sync; sys := w; calls := [] |} in
  fst r = Return tt ->
  compressor_accounts fd (snd r) /\
  m_bzfile (self (snd r)) = true /\
  m_file_size (self (snd r)) = 0%Z.
Proof.
  unfold constructor, file_wrapper.constructor, fresh, compressor_accounts.
  unfold_monad.
  split_cases; intros Hr; try discriminate; reduce_method;
    repeat split; reflexivity.
Qed.

Lemma compressor_accounts_write (fd : Z) (data : string) (s : env world t) :
  compressor_accounts fd s -> compressor_accounts fd (snd (write data s)).
Proof.
  destruct s as [[sync size [f] bz] w c].
  unfold compressor_accounts, write. unfold_monad. reduce_method.
  intros [Hfin Hfile].
  split_cases; count_calls; (split; [lia|]);
    try (destruct Hfile as [Hf Hc]; split; [exact Hf|lia]).
Qed.

Lemma compressor_accounts_close (fd : Z) (s : env world t) :
  compressor_accounts fd s -> compressor_accounts fd (snd (close s)).
Proof.
  destruct s as [[sync size [f] bz] w c].
  unfold compressor_accounts, close, file_wrapper.close. unfold_monad.
  unfold fileno. reduce_method.
  intros [Hfin Hfile].
  destruct bz; [|reduce_method; split; assumption].
  destruct f as [f|]; [|destruct Hfile; discriminate].
  destruct Hfile as [-> Hclosed].
  destruct (fd =? 1)%Z eqn:Hfd;
    split_cases; count_calls; rewrite ?Hfd; repeat split; lia.
Qed.

Lemma compressor_accounts_calls (fd : Z) (cs : list compressor_call) :
  forall s : env world t,
    compressor_accounts fd s ->
    compressor_accounts fd (snd (calls_in_turn (map compressor_method cs) s)).
Proof.
  induction cs as [|c cs IH]; intros s Hs; cbn [map calls_in_turn].
  - exact Hs.
  - assert (Hnext : compressor_accounts fd (snd (compressor_method c s))).
    { destruct c; [apply compressor_accounts_write|apply compressor_accounts_close];
        exact Hs. }
    destruct (compressor_method c s) as [[u|e|h] s']; cbn [snd] in *;
      [apply IH|apply IH|]; exact Hnext.
Qed.

Lemma compressor_close_never_halts (s : env world t) (h : halt) :
  fst (close s) <> Halt h.
Proof.
  destruct s as [[sync size [f] bz] w c].
  unfold close, file_wrapper.close. unfold_monad.
  split_cases; discriminate.
Qed.

Lemma compressor_accounts_destroy (fd : Z) (s : env world t) :
  compressor_accounts fd s ->
  fst (destroy_compressor s) = Return tt /\
  count is_finalize (calls (snd (destroy_compressor s))) = 1 /\
  count is_fclose (calls (snd (destroy_compressor s))) <= 1 /\
  (fd <> 1%Z -> count is_fclose (calls (snd (destroy_compressor s))) = 1).
Proof.
  intros Hs. apply compressor_accounts_close in Hs.
  pose proof (compressor_close_clears_handle s) as Hbz.
  pose proof (compressor_close_never_halts s) as Hhalt.
  unfold destroy_compressor, destructor, file_wrapper.destructor.
  unfold_monad.
  destruct (close s) as [[u|e|h] [[sync size [f] bz] w c]];
    [| |exfalso; exact (Hhalt h eq_refl)];
    unfold compressor_accounts in Hs; reduce_method; subst bz;
    destruct Hs as [Hfin Hfile].
  all: destruct f as [f|]; reduce_method.
  all: try (destruct Hfile as [-> Hclosed]; destruct (fclose fd w) as [status w'];
            count_calls; repeat split; lia).
  all: destruct Hfile as [_ Hclosed]; destruct (fd =? 1)%Z eqn:Hfd.
  all: repeat split; try lia.
  all: intros Hne; apply Z.eqb_eq in Hfd; contradiction.
Qed.

(** A compressor is finalised once and its file is closed once.  From a
    constructor that returned to the destruction, whatever the user calls
    in between, [write] and [close] in any order and number, and whatever
    these throw: [BZ2_bzWriteClose64] is called at most once while the
    object lives and exactly once by the time it is destroyed, [fclose] at
    most once, and exactly once by then unless the descriptor is 1; as
    long as the handle is set the wrapper holds the file of the
    descriptor.  The destruction itself always returns. *)
Theorem compressor_finalised_and_closed_once
  (fd : Z) (sync : bool) (w : world) (cs : list compressor_call) :
  let born := constructor fd {| self := fresh sync; sys := w; calls := [] |} in
  fst born = Return tt ->
  let lived := snd (calls_in_turn (map compressor_method cs) (snd born)) in
  let dead := snd (destroy_compressor lived) in
  count is_finalize (calls lived) <= 1 /\
  count is_fclose (calls lived) <= 1 /\
  (m_bzfile (self lived) = true ->
   file_wrapper.file (m_file (self lived)) = Some fd) /\
  fst (destroy_compressor lived) = Return tt /\
  count is_finalize (calls dead) = 1 /\
  count is_fclose (calls dead) <= 1 /\
  (fd <> 1%Z -> count is_fclose (calls dead) = 1).
Proof.
  intros born Hborn lived dead.
  destruct (compressor_accounts_constructor fd sync w Hborn) as (Hacc & _ & _).
  fold born in Hacc.
  apply (compressor_accounts_calls (fd:=fd) cs) in Hacc. fold lived in Hacc.
  destruct (compressor_accounts_destroy Hacc) as (Hret & Hfin & Hle & Heq).
  fold dead in Hfin, Hle, Heq.
  destruct Hacc as [Hfin' Hfile].
  split; [destruct (m_bzfile (self lived)); lia|].
  split.
  { destruct (file_wrapper.file (m_file (self lived)));
      [lia|destruct Hfile as [_ ->]; destruct (fd =? 1)%Z; lia]. }
  split.
  { intros Hbz.
    destruct (file_wrapper.file (m_file (self lived)));
      [destruct Hfile as [-> _]; reflexivity
      |destruct Hfile as [Hfalse _]; congruence]. }
  repeat split; assumption.
Qed.

(** [write] hands the data to the library and maps its status: with
    [BZ_OK] or [BZ_STREAM_END] it returns; with any other status it throws
    a [bzip2_error] that carries the status, in its code and in decimal at
    the end of its message, and errno when the status is [BZ_IO_ERROR].
    In both cases the library is called once and no member changes. *)
Theorem write_maps_the_status (s : env world t) (data : string) :
  m_bzfile (self s) = true ->
  (Z.of_nat (String.length data) < INT_MAX)%Z ->
  let status := fst (BZ2_bzWrite data (sys s)) in
  let w1 := snd (BZ2_bzWrite data (sys s)) in
  self (snd (write data s)) = self s /\
  sys (snd (write data s)) = w1 /\
  calls (snd (write data s)) = calls s ++ [Call_BZ2_bzWrite data] /\
  fst (write data s)
  = if (status =? BZ_OK)%Z || (status =? BZ_STREAM_END)%Z
    then Return tt
    else Throw (bzip2_error
                  ("bzip2 error: write failed: " ++ to_string status) status
                  (if (status =? BZ_IO_ERROR)%Z then sys_errno w1 else 0%Z)).
Proof.
  destruct s as [[sync size [f] bz] w c]. reduce_method.
  intros -> Hlen. apply Z.ltb_lt in Hlen.
  unfold write. unfold_monad. reduce_method. rewrite Hlen. reduce_method.
  destruct (BZ2_bzWrite data w) as [status w1]. reduce_method.
  change (status =? 0)%Z with (status =? BZ_OK)%Z.
  destruct (status =? BZ_OK)%Z; reduce_method;
    [|destruct (status =? BZ_STREAM_END)%Z; reduce_method];
    repeat split; reflexivity.
Qed.

Lemma lor_of_halves (lo hi : Z) :
  (0 <= lo < 2 ^ 32)%Z -> (0 <= hi)%Z ->
  Z.lor (Z.shiftl hi 32) lo = (hi * 2 ^ 32 + lo)%Z.
Proof.
  intros Hlo Hhi.
  rewrite Z.shiftl_mul_pow2 by lia.
  assert (Hland : Z.land (hi * 2 ^ 32) lo = 0%Z).
  { apply Z.bits_inj'. intros n Hn. rewrite Z.land_spec, Z.bits_0.
    destruct (Z.ltb_spec n 32).
    - rewrite Z.mul_pow2_bits_low by lia. reflexivity.
    - destruct (Z.eq_dec lo 0) as [->|Hnz];
        [rewrite Z.bits_0; apply andb_false_r|].
      rewrite (Z.bits_above_log2 lo n); [apply andb_false_r|lia|].
      apply Z.lt_le_trans with 32%Z; [|lia].
      apply Z.log2_lt_pow2; lia. }
  rewrite Z.add_nocarry_lxor by exact Hland.
  symmetry. apply Z.lxor_lor. exact Hland.
Qed.

(** After a [close] that returned, [file_size()] is the number of bytes
    that the finalisation reported in its two 32-bit halves: the high
    half times 2^32 plus the low half. *)
Theorem file_size_joins_the_halves
  (s : env world t) (lo hi : Z) (w1 : world) :
  m_bzfile (self s) = true ->
  BZ2_bzWriteClose64 (sys s) = ((BZ_OK, lo, hi), w1) ->
  (0 <= lo < 2 ^ 32)%Z ->
  (0 <= hi < 2 ^ 32)%Z ->
  fst (close s) = Return tt ->
  file_size (self (snd (close s))) = (hi * 2 ^ 32 + lo)%Z.
Proof.
  destruct s as [[sync size [f] bz] w c]. reduce_method.
  intros -> Hfin Hlo Hhi.
  assert (Hsize : to_size_t (Z.lor (Z.shiftl hi 32) lo) = (hi * 2 ^ 32 + lo)%Z).
  { rewrite lor_of_halves by lia. unfold to_size_t.
    apply Z.mod_small. change (2 ^ 64)%Z with (2 ^ 32 * 2 ^ 32)%Z. nia. }
  unfold close, file_wrapper.close, file_size. unfold_monad. reduce_method.
  rewrite Hfin. status_tests.
  split_cases; reduce_method; intros Hret; try discriminate; exact Hsize.
Qed.

End CompressorLife.

(** ** The life of a decompressor *)

Section DecompressorLife.

Import Bzip2 Bzip2.Bzip2Decompressor Lifecycle.
Context {world : Type} `{System world}.

Lemma decompressor_accounts_constructor (fd : Z) (remove : bool) (w : world) :
  let r := constructor fd {| self := fresh remove; sys := w; calls := [] |} in
  fst r = Return tt ->
  decompressor_accounts fd (snd r) /\
  m_bzfile (self (snd r)) = true /\
  m_stream_end (self (snd r)) = false.
Proof.
  unfold constructor, file_wrapper.constructor, fresh, decompressor_accounts.
  unfold_monad.
  split_cases; intros Hr; try discriminate; reduce_method;
    repeat match goal with
           | Hn : negb _ = false |- _ => apply negb_false_iff in Hn; rewrite ?Hn
           end;
    repeat split; reflexivity.
Qed.

(** [read] leaves the file wrapper alone, closes no file, and neither
    gets a handle back nor takes the end mark away. *)
Lemma read_keeps_the_file (s : env world t) :
  m_file (self (snd (read s))) = m_file (self s) /\
  count is_fclose (calls (snd (read s))) = count is_fclose (calls s) /\
  (m_bzfile (self s) = false -> m_bzfile (self (snd (read s))) = false) /\
  (m_stream_end (self s) = true -> m_stream_end (self (snd (read s))) = true).
Proof.
  destruct s as [[remove off f bz ended] w c].
  unfold read, at_stream_end. unfold_monad.
  split_cases; count_calls; repeat split; try lia; try congruence.
Qed.

Lemma decompressor_accounts_read (fd : Z) (s : env world t) :
  decompressor_accounts fd s -> decompressor_accounts fd (snd (read s)).
Proof.
  unfold decompressor_accounts.
  destruct (read_keeps_the_file s) as (-> & -> & Hbz & _).
  destruct (file_wrapper.file (m_file (self s)));
    [tauto|intros [Hclosed Hcount]; split; [exact (Hbz Hclosed)|exact Hcount]].
Qed.

Lemma decompressor_accounts_close (fd : Z) (s : env world t) :
  decompressor_accounts fd s -> decompressor_accounts fd (snd (close s)).
Proof.
  destruct s as [[remove off [f] bz ended] w c].
  unfold decompressor_accounts, close, file_wrapper.close. unfold_monad.
  unfold fileno. reduce_method.
  intros Hfile.
  destruct bz; [|reduce_method; assumption].
  destruct f as [f|]; [|destruct Hfile; discriminate].
  destruct Hfile as [-> Hclosed].
  destruct (fd =? 1)%Z eqn:Hfd;
    split_cases; count_calls; rewrite ?Hfd; repeat split; lia.
Qed.

Lemma decompressor_close_keeps_the_end (s : env world t) :
  m_stream_end (self (snd (close s))) = m_stream_end (self s).
Proof.
  destruct s as [[remove off [f] bz ended] w c].
  unfold close, file_wrapper.close. unfold_monad.
  split_cases; reflexivity.
Qed.

Lemma decompressor_accounts_calls (fd : Z) (cs : list decompressor_call) :
  forall s : env world t,
    decompressor_accounts fd s ->
    let s' := snd (calls_in_turn (map decompressor_method cs) s) in
    decompressor_accounts fd s' /\
    (m_stream_end (self s) = true -> m_stream_end (self s') = true).
Proof.
  induction cs as [|c cs IH]; intros s Hs; cbn [map calls_in_turn].
  - split; [exact Hs|tauto].
  - assert (Hnext : decompressor_accounts fd (snd (decompressor_method c s)) /\
                    (m_stream_end (self s) = true ->
                     m_stream_end (self (snd (decompressor_method c s))) = true)).
    { destruct c; cbn [decompressor_method].
      - assert (Hsame : snd ((read ;;; ret tt) s) = snd (read s)).
        { unfold bind, ret. destruct (read s) as [[v|e|h] s']; reflexivity. }
        rewrite Hsame. split; [apply decompressor_accounts_read; exact Hs|].
        apply read_keeps_the_file.
      - split; [apply decompressor_accounts_close; exact Hs|].
        rewrite decompressor_close_keeps_the_end. tauto. }
    destruct Hnext as [Hacc Hend].
    destruct (decompressor_method c s) as [[u|e|h] s']; cbn [snd] in *.
    + destruct (IH s' Hacc) as [Hacc' Hend']. split; [exact Hacc'|tauto].
    + destruct (IH s' Hacc) as [Hacc' Hend']. split; [exact Hacc'|tauto].
    + split; assumption.
Qed.

Lemma decompressor_close_never_halts (s : env world t) (h : halt) :
  fst (close s) <> Halt h.
Proof.
  destruct s as [[remove off [f] bz ended] w c].
  unfold close, file_wrapper.close. unfold_monad.
  split_cases; discriminate.
Qed.

Lemma decompressor_accounts_destroy (fd : Z) (s : env world t) :
  decompressor_accounts fd s ->
  fst (destroy_decompressor s) = Return tt /\
  count is_fclose (calls (snd (destroy_decompressor s))) <= 1 /\
  (fd <> 1%Z -> count is_fclose (calls (snd (destroy_decompressor s))) = 1).
Proof.
  intros Hs. apply decompressor_accounts_close in Hs.
  pose proof (decompressor_close_never_halts s) as Hhalt.
  unfold destroy_decompressor, destructor, file_wrapper.destructor.
  unfold_monad.
  destruct (close s) as [[u|e|h] [[remove off [f] bz ended] w c]];
    [| |exfalso; exact (Hhalt h eq_refl)];
    unfold decompressor_accounts in Hs; reduce_method.
  all: destruct f as [f|]; reduce_method.
  all: try (destruct Hs as [-> Hclosed]; destruct (fclose fd w) as [status w'];
            count_calls; repeat split; lia).
  all: destruct Hs as [_ Hclosed]; destruct (fd =? 1)%Z eqn:Hfd.
  all: repeat split; try lia.
  all: intros Hne; apply Z.eqb_eq in Hfd; contradiction.
Qed.

Lemma calls_in_turn_app {O : Type} (a b : list (method (O:=O) unit)) :
  forall s : env world O,
    calls_in_turn (a ++ b) s
    = if fst (calls_in_turn a s)
      then calls_in_turn b (snd (calls_in_turn a s))
      else calls_in_turn a s.
Proof.
  induction a as [|m a IH]; intros s.
  - reflexivity.
  - rewrite <- app_comm_cons. cbn [calls_in_turn].
    destruct (m s) as [[u|e|h] s']; [apply IH|apply IH|reflexivity].
Qed.

Lemma read_without_file (s : env world t) :
  file_wrapper.file (m_file (self s)) = None ->
  read s = (Halt (Crashed "ftell(m_file.file())"), s).
Proof.
  destruct s as [[remove off [file] bz ended] w c]. reduce_method.
  intros ->. reflexivity.
Qed.

(** A decompressor closes its file once.  From a constructor that
    returned, through whatever the user calls, [read] and [close] in any
    order and number, whatever these throw (a new stream that cannot be
    opened included): [fclose] is called at most once; as long as the
    handle is set the wrapper holds the file of the descriptor; the end
    mark of the stream, once set, stays set; and once the file is closed a
    further [read] ends the program, in [ftell] on the null pointer, before
    it does anything else.  When every call has come back, the
    destruction returns, and by then [fclose] has been called exactly once
    unless the descriptor is 1. *)
Theorem decompressor_closes_its_file_once
  (fd : Z) (remove : bool) (w : world) (cs more : list decompressor_call) :
  let born := constructor fd {| self := fresh remove; sys := w; calls := [] |} in
  fst born = Return tt ->
  let lived := snd (calls_in_turn (map decompressor_method cs) (snd born)) in
  let whole := calls_in_turn (map decompressor_method (cs ++ more)) (snd born) in
  let later := snd whole in
  count is_fclose (calls later) <= 1 /\
  (m_bzfile (self later) = true ->
   file_wrapper.file (m_file (self later)) = Some fd) /\
  (m_stream_end (self lived) = true -> m_stream_end (self later) = true) /\
  (file_wrapper.file (m_file (self later)) = None ->
   read later = (Halt (Crashed "ftell(m_file.file())"), later)) /\
  (fst whole = true ->
   fst (destroy_decompressor later) = Return tt /\
   count is_fclose (calls (snd (destroy_decompressor later))) <= 1 /\
   (fd <> 1%Z ->
    count is_fclose (calls (snd (destroy_decompressor later))) = 1)).
Proof.
  intros born Hborn lived whole later.
  destruct (decompressor_accounts_constructor fd remove w Hborn) as (Hacc & _ & _).
  fold born in Hacc.
  destruct (decompressor_accounts_calls fd cs (snd born) Hacc) as [Hlived _].
  fold lived in Hlived.
  assert (Hlater : decompressor_accounts fd later /\
                   (m_stream_end (self lived) = true ->
                    m_stream_end (self later) = true)).
  { unfold later, whole. rewrite map_app, calls_in_turn_app. fold lived.
    destruct (fst (calls_in_turn (map decompressor_method cs) (snd born))).
    - apply (decompressor_accounts_calls fd more lived Hlived).
    - fold lived. split; [exact Hlived|tauto]. }
  destruct Hlater as [Hlater Hend].
  destruct (@decompressor_accounts_destroy fd later Hlater) as (Hret & Hle & Heq).
  unfold decompressor_accounts in Hlater.
  split.
  { destruct (file_wrapper.file (m_file (self later)));
      [lia|destruct Hlater as [_ ->]; destruct (fd =? 1)%Z; lia]. }
  split.
  { intros Hbz.
    destruct (file_wrapper.file (m_file (self later)));
      [destruct Hlater as [-> _]; reflexivity
      |destruct Hlater as [Hfalse _]; congruence]. }
  split; [exact Hend|].
  split; [apply read_without_file|].
  intros _. repeat split; assumption.
Qed.

End DecompressorLife.

(** ** The file wrapper and the construction of the codecs *)

Section FileWrapperFacts.

Import Bzip2 Lifecycle.
Context {world : Type} `{System world}.

(** The wrapper closes its file at most once.  [close] forgets the file
    before it does anything else, so whatever its outcome, also when
    [fclose] failed and it threw, a second [close] and the destructor
    return at once and call nothing.  [close] calls [fclose] unless the
    descriptor is 1 and throws a [system_error] with errno when that
    fails; the destructor calls [fclose] on a file still held, descriptor
    1 included, ignores its status and lets nothing out. *)
Theorem file_wrapper_closes_at_most_once (s : env world file_wrapper.t) :
  let s1 := snd (file_wrapper.close s) in
  let s2 := snd (file_wrapper.destructor s) in
  file_wrapper.file (self s1) = None /\
  file_wrapper.close s1 = (Return tt, s1) /\
  file_wrapper.destructor s1 = (Return tt, s1) /\
  fst (file_wrapper.destructor s) = Return tt /\
  match file_wrapper.file (self s) with
  | None => file_wrapper.close s = (Return tt, s) /\ s2 = s
  | Some f =>
      calls s1 = calls s ++ (if (fileno f =? 1)%Z then [] else [Call_fclose f]) /\
      fst (file_wrapper.close s)
      = (if (fileno f =? 1)%Z then Return tt
         else if (fst (fclose f (sys s)) =? 0)%Z then Return tt
              else Throw (system_error (sys_errno (snd (fclose f (sys s))))
                            "fclose failed")) /\
      calls s2 = calls s ++ [Call_fclose f]
  end.
Proof.
  destruct s as [[[f|]] w c];
    unfold file_wrapper.close, file_wrapper.destructor, file_wrapper.file;
    unfold_monad; unfold fileno; reduce_method.
  - destruct (fclose f w) as [status w1] eqn:Hfclose. reduce_method.
    destruct (f =? 1)%Z; reduce_method.
    + rewrite app_nil_r. repeat split; reflexivity.
    + rewrite ?Hfclose. reduce_method.
      destruct (status =? 0)%Z; reduce_method; repeat split; reflexivity.
  - repeat split; reflexivity.
Qed.

(** A compressor that cannot be constructed gives its descriptor back.
    [new Bzip2Compressor{fd, sync}] never stops at an assertion.  When it
    returns, the file is open, the handle is set and nothing has been
    given back.  When it throws, then either [fdopen] failed: the
    exception is a [system_error] saying so, and [close(fd)] has been
    called unless the descriptor is 1; or [BZ2_bzWriteOpen] gave no
    handle: the exception is a [bzip2_error] with its status, and the
    file has been closed with [fclose], on descriptor 1 too. *)
Theorem failed_compressor_gives_the_descriptor_back
  (fd : Z) (sync : bool) (w : world) :
  let r := new_compressor fd
             {| self := Bzip2Compressor.fresh sync; sys := w; calls := [] |} in
  let opened := fst (fdopen fd "wb" w) in
  (forall h, fst r <> Halt h) /\
  (fst r = Return tt ->
   opened = true /\
   Bzip2Compressor.m_bzfile (self (snd r)) = true /\
   file_wrapper.file (Bzip2Compressor.m_file (self (snd r))) = Some fd /\
   calls (snd r) = [Call_fdopen fd "wb"; Call_BZ2_bzWriteOpen]) /\
  (forall e, fst r = Throw e ->
   if opened
   then (exists status errno,
           e = bzip2_error "bzip2 error: write open failed" status errno) /\
        calls (snd r)
        = [Call_fdopen fd "wb"; Call_BZ2_bzWriteOpen; Call_fclose fd]
   else (exists errno, e = system_error errno "fdopen failed") /\
        calls (snd r)
        = Call_fdopen fd "wb" :: (if (fd =? 1)%Z then [] else [Call_close fd])).
Proof.
  unfold new_compressor, Bzip2Compressor.constructor, file_wrapper.constructor,
    file_wrapper.destructor, Bzip2Compressor.fresh.
  unfold_monad. reduce_method.
  destruct (fdopen fd "wb" w) as [[|] w1]; reduce_method.
  - destruct (BZ2_bzWriteOpen w1) as [[status [|]] w2]; reduce_method.
    + split; [discriminate|]. split; [repeat split; reflexivity|].
      discriminate.
    + destruct (fclose fd w2) as [st w3]. reduce_method.
      split; [discriminate|]. split; [discriminate|].
      intros e [= <-]. split; [eauto|reflexivity].
  - destruct (fd =? 1)%Z; reduce_method.
    + split; [discriminate|]. split; [discriminate|].
      intros e [= <-]. split; [eauto|reflexivity].
    + split; [discriminate|]. split; [discriminate|].
      intros e [= <-]. split; [eauto|reflexivity].
Qed.

(** The same for a decompressor: [new Bzip2Decompressor{fd}] either
    returns with the file open and the handle set, or throws after
    [close(fd)] (not on descriptor 1) when [fdopen] failed, or throws
    after [fclose] when [BZ2_bzReadOpen] gave no handle. *)
Theorem failed_decompressor_gives_the_descriptor_back
  (fd : Z) (remove : bool) (w : world) :
  let r := new_decompressor fd
             {| self := Bzip2Decompressor.fresh remove; sys := w; calls := [] |} in
  let opened := fst (fdopen fd "rb" w) in
  (forall h, fst r <> Halt h) /\
  (fst r = Return tt ->
   opened = true /\
   Bzip2Decompressor.m_bzfile (self (snd r)) = true /\
   Bzip2Decompressor.m_stream_end (self (snd r)) = false /\
   file_wrapper.file (Bzip2Decompressor.m_file (self (snd r))) = Some fd /\
   calls (snd r) = [Call_fdopen fd "rb"; Call_BZ2_bzReadOpen EmptyString]) /\
  (forall e, fst r = Throw e ->
   if opened
   then (exists status errno,
           e = bzip2_error "bzip2 error: read open failed" status errno) /\
        calls (snd r)
        = [Call_fdopen fd "rb"; Call_BZ2_bzReadOpen EmptyString; Call_fclose fd]
   else (exists errno, e = system_error errno "fdopen failed") /\
        calls (snd r)
        = Call_fdopen fd "rb" :: (if (fd =? 1)%Z then [] else [Call_close fd])).
Proof.
  unfold new_decompressor, Bzip2Decompressor.constructor,
    file_wrapper.constructor, file_wrapper.destructor, Bzip2Decompressor.fresh.
  unfold_monad. reduce_method.
  destruct (fdopen fd "rb" w) as [[|] w1]; reduce_method.
  - destruct (BZ2_bzReadOpen "" w1) as [[status [|]] w2]; reduce_method.
    + split; [discriminate|]. split; [repeat split; reflexivity|].
      discriminate.
    + destruct (fclose fd w2) as [st w3]. reduce_method.
      split; [discriminate|]. split; [discriminate|].
      intros e [= <-]. split; [eauto|reflexivity].
  - destruct (fd =? 1)%Z; reduce_method.
    + split; [discriminate|]. split; [discriminate|].
      intros e [= <-]. split; [eauto|reflexivity].
    + split; [discriminate|]. split; [discriminate|].
      intros e [= <-]. split; [eauto|reflexivity].
Qed.

End FileWrapperFacts.

(** ** Failures and use after close *)

Section CompressorEdges.

Import Bzip2 Bzip2.Bzip2Compressor Lifecycle.
Context {world : Type} `{System world}.

(** When [reliable_fsync] throws, [close] lets that exception through
    and stops there: the stream has been finalised and the handle
    forgotten, but the file is neither closed nor forgotten and the size
    is not stored.  A second [close] then does nothing, so the file stays
    open until the object is destroyed: the destructor of the wrapper
    calls [fclose] on it. *)
Theorem fsync_failure_leaves_the_file_open
  (s : env world t) (file : FILE) (status lo hi : Z) (w1 w2 : world) (e : exn) :
  m_bzfile (self s) = true ->
  file_wrapper.file (m_file (self s)) = Some file ->
  do_fsync (self s) = true ->
  BZ2_bzWriteClose64 (sys s) = ((status, lo, hi), w1) ->
  reliable_fsync (fileno file) w1 = (Some e, w2) ->
  let s1 := snd (close s) in
  fst (close s) = Throw e /\
  calls s1
  = calls s ++ [Call_BZ2_bzWriteClose64; Call_reliable_fsync (fileno file)] /\
  m_bzfile (self s1) = false /\
  file_wrapper.file (m_file (self s1)) = Some file /\
  file_size (self s1) = file_size (self s) /\
  close s1 = (Return tt, s1) /\
  fst (destroy_compressor s1) = Return tt /\
  calls (snd (destroy_compressor s1)) = calls s1 ++ [Call_fclose file].
Proof.
  destruct s as [[sync size [f] bz] w c]. reduce_method.
  intros -> -> -> Hfin Hsync.
  unfold destroy_compressor, destructor, close, file_wrapper.close,
    file_wrapper.destructor, file_size.
  unfold_monad. unfold fileno in *. reduce_method.
  rewrite Hfin. reduce_method. rewrite Hsync. reduce_method.
  destruct (fclose file w2) as [st w3]. reduce_method.
  rewrite <- !app_assoc. repeat split; reflexivity.
Qed.

(** A closed compressor refuses to write.  After [close], whatever its
    outcome, [write] stops at [assert(m_bzfile)], in a build with
    assertions, and has called nothing by then. *)
Theorem write_after_close_is_refused (s : env world t) (data : string) :
  (Z.of_nat (String.length data) < INT_MAX)%Z ->
  let s1 := snd (close s) in
  write data s1 = (Halt (AssertionFailed "m_bzfile"), s1).
Proof.
  intros Hlen s1. apply Z.ltb_lt in Hlen.
  pose proof (compressor_close_clears_handle s) as Hbz. fold s1 in Hbz.
  clearbody s1. destruct s1 as [[sync size f bz] w c]. reduce_method. subst bz.
  unfold write. unfold_monad. reduce_method. rewrite Hlen. reflexivity.
Qed.

End CompressorEdges.

Section DecompressorEdges.

Import Bzip2 Bzip2.Bzip2Decompressor Lifecycle.
Context {world : Type} `{System world}.

(** A call of [read] in which the library does not report the end of a
    stream, on a decompressor that holds its file.  With [BZ_OK] it
    returns the bytes decoded and stores the position of the file as the
    offset.  With an error status it throws a [bzip2_error] that carries
    the status, in its code and in decimal at the end of its message, and
    errno for [BZ_IO_ERROR]; then no member has changed: the offset is not
    stored and the handle is kept, so that [close] still has something to
    release.  In both cases [BZ2_bzRead] is called once, behind the advice
    on buffered pages.  On a decompressor without its file the first thing
    [read] does, [ftell] on the null pointer, ends the program. *)
Theorem read_returns_the_bytes_or_throws
  (s : env world t) (status : Z) (out : string) (w1 : world) :
  m_bzfile (self s) = true ->
  m_stream_end (self s) = false ->
  (input_buffer_size < INT_MAX)%Z ->
  BZ2_bzRead input_buffer_size (sys s) = ((status, out), w1) ->
  status <> BZ_STREAM_END ->
  match file_wrapper.file (m_file (self s)) with
  | None => read s = (Halt (Crashed "ftell(m_file.file())"), s)
  | Some f =>
      sys (snd (read s)) = w1 /\
      calls (snd (read s))
      = calls s ++ page_advice s ++ [Call_BZ2_bzRead input_buffer_size] /\
      (status = BZ_OK ->
       fst (read s) = Return out /\
       self (snd (read s))
       = set_offset (to_size_t (ftell (Some f) w1)) (self s)) /\
      (status <> BZ_OK ->
       fst (read s)
       = Throw (bzip2_error ("bzip2 error: read failed: " ++ to_string status)
                  status
                  (if (status =? BZ_IO_ERROR)%Z then sys_errno w1 else 0%Z)) /\
       self (snd (read s)) = self s)
  end.
Proof.
  destruct s as [[remove off [[f|]] bz ended] w c]; reduce_method;
    intros -> -> Hsize Hread Hend; [|reflexivity].
  apply Z.ltb_lt in Hsize. apply Z.eqb_neq in Hend.
  unfold read, page_advice. unfold_monad. reduce_method.
  destruct ((ftell (Some f) w >? 0)%Z && remove); reduce_method;
    rewrite Hsize; reduce_method; rewrite Hread; reduce_method;
    rewrite Hend; reduce_method;
    change (status =? 0)%Z with (status =? BZ_OK)%Z;
    (destruct (status =? BZ_OK)%Z eqn:Hok; reduce_method;
     [apply Z.eqb_eq in Hok|apply Z.eqb_neq in Hok]);
    rewrite <- ?app_assoc, ?app_nil_r;
    repeat split; try reflexivity; try (intros; congruence);
    intros; split; reflexivity.
Qed.

(** [close] on an open handle, in its order: the advice on buffered
    pages when it is wanted, then [BZ2_bzReadClose], then the handle is
    forgotten and the wrapper closed, which forgets the file and calls
    [fclose] unless the descriptor is 1; only then is a status of
    [BZ2_bzReadClose] other than [BZ_OK] thrown as a [bzip2_error], unless
    [fclose] failed, whose [system_error] goes first. *)
Theorem decompressor_close_cleans_up_then_raises
  (s : env world t) (file : FILE) (status : Z) (w1 : world) :
  m_bzfile (self s) = true ->
  file_wrapper.file (m_file (self s)) = Some file ->
  BZ2_bzReadClose (sys s) = (status, w1) ->
  let stdout := (fileno file =? 1)%Z in
  let fclose_status := if stdout then 0%Z else fst (fclose file w1) in
  let w2 := if stdout then w1 else snd (fclose file w1) in
  calls (snd (close s))
  = calls s
    ++ (if want_buffered_pages_removed (self s)
        then [Call_remove_buffered_pages (fileno file) None] else [])
    ++ [Call_BZ2_bzReadClose]
    ++ (if stdout then [] else [Call_fclose file]) /\
  m_bzfile (self (snd (close s))) = false /\
  file_wrapper.file (m_file (self (snd (close s)))) = None /\
  m_stream_end (self (snd (close s))) = m_stream_end (self s) /\
  sys (snd (close s)) = w2 /\
  fst (close s)
  = if negb (fclose_status =? 0)%Z
    then Throw (system_error (sys_errno w2) "fclose failed")
    else if negb (status =? BZ_OK)%Z
         then Throw (bzip2_error "bzip2 error: read close failed" status
                       (if (status =? BZ_IO_ERROR)%Z then sys_errno w2 else 0%Z))
         else Return tt.
Proof.
  destruct s as [[remove off [f] bz ended] w c]. reduce_method.
  intros -> -> Hclose.
  unfold close, file_wrapper.close, descriptor. unfold_monad.
  unfold fileno in *. reduce_method.
  destruct remove; reduce_method; rewrite Hclose; reduce_method;
    (destruct (file =? 1)%Z eqn:Hout; reduce_method;
     [|destruct (fclose file w1) as [st w2]; reduce_method;
       destruct (negb (st =? 0)%Z); reduce_method]);
    rewrite <- ?app_assoc, ?app_nil_r;
    try (destruct (negb (status =? BZ_OK)%Z)); repeat split; reflexivity.
Qed.

Lemma read_without_handle (s : env world t) (f : FILE) :
  file_wrapper.file (m_file (self s)) = Some f ->
  m_bzfile (self s) = false ->
  read s
  = (Halt (AssertionFailed "m_bzfile"),
     {| self := self s; sys := sys s; calls := calls s ++ page_advice s |}).
Proof.
  destruct s as [[remove off [file] bz ended] w c]. reduce_method.
  intros -> ->.
  unfold read, page_advice. unfold_monad. reduce_method.
  destruct ((ftell (Some f) w >? 0)%Z && remove); reduce_method;
    rewrite ?app_nil_r; reflexivity.
Qed.

Lemma destroy_without_handle (s : env world t) (f : FILE) :
  m_bzfile (self s) = false ->
  file_wrapper.file (m_file (self s)) = Some f ->
  fst (destroy_decompressor s) = Return tt /\
  calls (snd (destroy_decompressor s)) = calls s ++ [Call_fclose f].
Proof.
  destruct s as [[remove off [file] bz ended] w c]. reduce_method.
  intros -> ->.
  unfold destroy_decompressor, destructor, close, file_wrapper.destructor.
  unfold_monad. reduce_method.
  destruct (fclose f w) as [status w1]. split; reflexivity.
Qed.

(** When a stream ends in the middle of the file and no further stream
    can be opened, the [read] that finds this out returns what was
    decoded, marks the end and drops the handle, but keeps the file.  The
    next [read] does not return the empty string: it stops at
    [assert(m_bzfile)], in a build with assertions.  [close] does nothing
    on this object, so the file is closed by the destruction only. *)
Theorem read_after_failed_reopen_is_refused
  (s : env world t) (f : FILE) (out : string) (status : Z) (handle : bool)
  (w1 w2 w3 w4 : world) :
  m_bzfile (self s) = true ->
  m_stream_end (self s) = false ->
  file_wrapper.file (m_file (self s)) = Some f ->
  (input_buffer_size < INT_MAX)%Z ->
  BZ2_bzRead input_buffer_size (sys s) = ((BZ_STREAM_END, out), w1) ->
  feof (Some f) w1 = false ->
  BZ2_bzReadGetUnused w1 = ((BZ_OK, EmptyString), w2) ->
  BZ2_bzReadClose w2 = (BZ_OK, w3) ->
  BZ2_bzReadOpen EmptyString w3 = ((status, handle), w4) ->
  handle = false \/ status <> BZ_OK ->
  let s1 := snd (read s) in
  fst (read s) = Return out /\
  m_stream_end (self s1) = true /\
  m_bzfile (self s1) = false /\
  file_wrapper.file (m_file (self s1)) = Some f /\
  fst (read s1) = Halt (AssertionFailed "m_bzfile") /\
  close s1 = (Return tt, s1) /\
  fst (destroy_decompressor s1) = Return tt /\
  calls (snd (destroy_decompressor s1)) = calls s1 ++ [Call_fclose f].
Proof.
  intros Hopen Hgoing Hfile Hsize Hread Heof Hunused Hclose Hreopen Hfail s1.
  assert (Hcannot : (negb handle || negb (Z.eqb status BZ_OK))%bool = true).
  { destruct Hfail as [-> | Hbad]; [reflexivity|].
    apply Z.eqb_neq in Hbad. rewrite Hbad. apply orb_true_r. }
  assert (Hfirst : fst (read s) = Return out /\
                   m_stream_end (self s1) = true /\
                   m_bzfile (self s1) = false /\
                   file_wrapper.file (m_file (self s1)) = Some f).
  { unfold s1. clear s1. apply Z.ltb_lt in Hsize.
    destruct s as [[remove off [file] bz ended] w c]. reduce_method.
    subst bz ended file.
    unfold read, at_stream_end. unfold_monad. reduce_method.
    destruct ((ftell (Some f) w >? 0)%Z && remove); reduce_method;
      rewrite Hsize; reduce_method; rewrite Hread; status_tests;
      rewrite Heof; reduce_method; rewrite Hunused; status_tests;
      cbn [String.length Nat.eqb negb]; reduce_method;
      rewrite Hclose; status_tests; unfold_monad; reduce_method; rewrite Hreopen; reduce_method;
      rewrite Hcannot; reduce_method; repeat split; reflexivity. }
  destruct Hfirst as (Hout & Hended & Hdropped & Hkept).
  split; [exact Hout|]. split; [exact Hended|]. split; [exact Hdropped|].
  split; [exact Hkept|].
  split; [rewrite (read_without_handle s1 Hkept Hdropped); reflexivity|].
  split; [exact (decompressor_close_closed s1 Hdropped)|].
  exact (destroy_without_handle s1 Hdropped Hkept).
Qed.

End DecompressorEdges.

Section BufferDecompressorEdges.

Import Bzip2 Bzip2.Bzip2BufferDecompressor Lifecycle.
Context {world : Type} `{System world}.

(** A call of [read] on a buffer still set, by the status of
    [BZ2_bzDecompress].  With [BZ_OK] it returns the bytes decoded and
    keeps the buffer; with [BZ_STREAM_END] it returns them and drops the
    buffer; with any other status it drops the buffer and throws a
    [bzip2_error] with the status as its code (the message ends behind
    its colon).  Once the buffer is dropped, the error is not thrown
    again: every later [read] returns the empty string and calls
    nothing. *)
Theorem buffer_read_by_status
  (s : env world t) (b : string) (status : Z) (out : string) (w1 : world)
  (n : nat) :
  m_buffer (self s) = Some b ->
  BZ2_bzDecompress 10240 (sys s) = ((status, out), w1) ->
  let s1 := snd (read s) in
  sys s1 = w1 /\
  calls s1 = calls s ++ [Call_BZ2_bzDecompress] /\
  fst (read s)
  = (if (status =? BZ_OK)%Z || (status =? BZ_STREAM_END)%Z
     then Return out
     else Throw (bzip2_error "bzip2 error: decompress failed: " status
                   (if (status =? BZ_IO_ERROR)%Z then sys_errno w1 else 0%Z))) /\
  self s1
  = (if (status =? BZ_OK)%Z then self s
     else {| m_buffer := None; m_buffer_size := 0 |}) /\
  (status <> BZ_OK ->
   repeatedly n read s1 = (repeat (Return EmptyString) n, s1)).
Proof.
  intros Hb Hdec s1.
  assert (Hcleared : status <> BZ_OK -> m_buffer (self s1) = None).
  { intros Hbad. apply buffer_read_not_ok. rewrite Hdec. exact Hbad. }
  assert (Hrest : status <> BZ_OK ->
                  repeatedly n read s1 = (repeat (Return EmptyString) n, s1)).
  { intros Hbad. apply buffer_repeatedly_read_cleared, Hcleared, Hbad. }
  clear Hcleared. revert Hrest. unfold s1. clear s1.
  generalize (repeatedly n read). intros later.
  destruct s as [[buffer size] w c]. reduce_method. subst buffer.
  unfold read. unfold_monad. reduce_method.
  rewrite Hdec. reduce_method.
  destruct (status =? BZ_OK)%Z; reduce_method;
    [|destruct (status =? BZ_STREAM_END)%Z; reduce_method];
    intros Hrest; repeat split; try reflexivity; exact Hrest.
Qed.

(** The constructor takes a buffer of less than [UINT_MAX] bytes, a null
    buffer or an empty one too: a larger size stops at the assertion, in
    a build with assertions, before the library is called.  A status of
    [BZ2_bzDecompressInit] other than [BZ_OK] is thrown as a
    [bzip2_error] with that code; the members are as given. *)
Theorem buffer_constructor_checks_the_size
  (buffer : option string) (size : Z) (w : world) :
  let s := {| self := fresh buffer size; sys := w; calls := [] |} in
  let status := fst (BZ2_bzDecompressInit (bytes buffer) w) in
  let w1 := snd (BZ2_bzDecompressInit (bytes buffer) w) in
  constructor s
  = if (size <? UINT_MAX)%Z
    then (if (status =? BZ_OK)%Z then Return tt
          else Throw (bzip2_error "bzip2 error: decompression init failed: "
                        status
                        (if (status =? BZ_IO_ERROR)%Z then sys_errno w1 else 0%Z)),
          {| self := fresh buffer size; sys := w1;
             calls := [Call_BZ2_bzDecompressInit] |})
    else (Halt (AssertionFailed "size < std::numeric_limits<unsigned int>::max()"),
          s).
Proof.
  unfold constructor, fresh. unfold_monad. reduce_method.
  destruct (size <? UINT_MAX)%Z; reduce_method; [|reflexivity].
  destruct (BZ2_bzDecompressInit (bytes buffer) w) as [status w1].
  reduce_method. destruct (status =? BZ_OK)%Z; reflexivity.
Qed.

(** [close] gives the buffer variant no closed state: it leaves the
    buffer set, so a [read] after [close] is not refused and calls
    [BZ2_bzDecompress] on the stream that [close] has ended. *)
Theorem buffer_read_after_close_calls_the_library (s : env world t) (b : string) :
  m_buffer (self s) = Some b ->
  let s1 := snd (close s) in
  self s1 = self s /\
  calls (snd (read s1))
  = calls s ++ [Call_BZ2_bzDecompressEnd; Call_BZ2_bzDecompress].
Proof.
  intros Hb s1. subst s1. rewrite buffer_close_ends. cbn [snd self].
  split; [reflexivity|].
  destruct s as [[buffer size] w c]. reduce_method. subst buffer.
  unfold read. unfold_monad. reduce_method.
  destruct (BZ2_bzDecompress 10240 (snd (BZ2_bzDecompressEnd w)))
    as [[status out] w1].
  reduce_method. rewrite <- app_assoc.
  split_cases; reflexivity.
Qed.

End BufferDecompressorEdges.

(** ** Examples for the codecs *)

Section LifeExamples.

Import Bzip2 Bzip2.Script Lifecycle Scenes.
Open Scope string_scope.
Open Scope list_scope.
Open Scope Z_scope.

(** A compressor on descriptor 3: one write, then [close] twice. *)
Lemma compressor_finalised_and_closed_once_example :
  let born := Bzip2Compressor.constructor 3
                (start (Bzip2Compressor.fresh true) quiet) in
  let cs := [Write "a"; CloseCompressor; CloseCompressor] in
  let lived := snd (calls_in_turn (map compressor_method cs) (snd born)) in
  fst born = Return tt /\
  calls (snd (destroy_compressor lived))
  = [Call_fdopen 3 "wb"; Call_BZ2_bzWriteOpen; Call_BZ2_bzWrite "a";
     Call_BZ2_bzWriteClose64; Call_reliable_fsync 3; Call_fclose 3] /\
  count is_finalize (calls (snd (destroy_compressor lived))) = 1%nat /\
  count is_fclose (calls (snd (destroy_compressor lived))) = 1%nat.
Proof.
  intros born cs lived.
  assert (Hborn : fst born = Return tt) by reflexivity.
  destruct (@compressor_finalised_and_closed_once world system 3 true quiet cs Hborn)
    as (_ & _ & _ & _ & Hfin & _ & Hclosed).
  split; [exact Hborn|]. split; [reflexivity|].
  split; [exact Hfin|]. apply Hclosed. discriminate.
Defined.

Lemma write_maps_the_status_example :
  let s := start (compressor 3 false) quiet in
  Bzip2Compressor.m_bzfile (self s) = true /\
  Z.of_nat (String.length "abc") < INT_MAX /\
  fst (Bzip2Compressor.write "abc" s) = Return tt /\
  calls (snd (Bzip2Compressor.write "abc" s)) = [Call_BZ2_bzWrite "abc"].
Proof.
  intros s.
  assert (Hopen : Bzip2Compressor.m_bzfile (self s) = true) by reflexivity.
  assert (Hlen : Z.of_nat (String.length "abc") < INT_MAX) by reflexivity.
  destruct (@write_maps_the_status world system s "abc" Hopen Hlen)
    as (_ & _ & Hcalls & Hout).
  split; [exact Hopen|]. split; [exact Hlen|].
  split; [exact Hout|exact Hcalls].
Defined.

(** The finalisation counts 5 in the low half and 1 in the high half. *)
Lemma file_size_joins_the_halves_example :
  let s := start (compressor 3 false) (answering [] [] None) in
  fst (Bzip2Compressor.close s) = Return tt /\
  Bzip2Compressor.file_size (self (snd (Bzip2Compressor.close s))) = 4294967301.
Proof.
  intros s.
  assert (Hopen : Bzip2Compressor.m_bzfile (self s) = true) by reflexivity.
  assert (Hfin : BZ2_bzWriteClose64 (sys s)
                 = ((BZ_OK, 5, 1), answering [] [] None)) by reflexivity.
  assert (Hlo : 0 <= 5 < 2 ^ 32) by (split; [discriminate|reflexivity]).
  assert (Hhi : 0 <= 1 < 2 ^ 32) by (split; [discriminate|reflexivity]).
  assert (Hret : fst (Bzip2Compressor.close s) = Return tt) by reflexivity.
  split; [exact Hret|].
  exact (@file_size_joins_the_halves world system s 5 1 _ Hopen Hfin Hlo Hhi Hret).
Defined.

(** The fsync of descriptor 3 throws: [close] throws the same and the
    file is closed by the destruction only. *)
Lemma fsync_failure_leaves_the_file_open_example :
  let e := system_error 5 "fsync failed" in
  let s := start (compressor 3 true) (answering [] [] (Some e)) in
  let s1 := snd (Bzip2Compressor.close s) in
  fst (Bzip2Compressor.close s) = Throw e /\
  calls s1 = [Call_BZ2_bzWriteClose64; Call_reliable_fsync 3] /\
  calls (snd (destroy_compressor s1))
  = [Call_BZ2_bzWriteClose64; Call_reliable_fsync 3; Call_fclose 3].
Proof.
  intros e s s1.
  assert (Hopen : Bzip2Compressor.m_bzfile (self s) = true) by reflexivity.
  assert (Hfile : file_wrapper.file (Bzip2Compressor.m_file (self s)) = Some 3)
    by reflexivity.
  assert (Hsync : Bzip2Compressor.do_fsync (self s) = true) by reflexivity.
  assert (Hfin : BZ2_bzWriteClose64 (sys s)
                 = ((BZ_OK, 5, 1), answering [] [] (Some e))) by reflexivity.
  assert (Hthrows : reliable_fsync (fileno 3) (answering [] [] (Some e))
                    = (Some e, answering [] [] (Some e))) by reflexivity.
  destruct (@fsync_failure_leaves_the_file_open world system s 3 BZ_OK 5 1 _ _ e
              Hopen Hfile Hsync Hfin Hthrows)
    as (Hout & Hcalls & _ & _ & _ & _ & _ & Hdead).
  split; [exact Hout|]. split; [exact Hcalls|exact Hdead].
Defined.

Lemma write_after_close_is_refused_example :
  let s := start (compressor 3 false) quiet in
  let s1 := snd (Bzip2Compressor.close s) in
  Z.of_nat (String.length "abc") < INT_MAX /\
  fst (Bzip2Compressor.write "abc" s1) = Halt (AssertionFailed "m_bzfile") /\
  calls (snd (Bzip2Compressor.write "abc" s1))
  = [Call_BZ2_bzWriteClose64; Call_fclose 3].
Proof.
  intros s s1.
  assert (Hlen : Z.of_nat (String.length "abc") < INT_MAX) by reflexivity.
  pose proof (@write_after_close_is_refused world system s "abc" Hlen) as Hwrite.
  split; [exact Hlen|].
  split; [exact (f_equal fst Hwrite)|exact (f_equal (fun r => calls (snd r)) Hwrite)].
Defined.

(** A decompressor on descriptor 3: a read, [close], and [close] again;
    a [read] after that would end the program. *)
Lemma decompressor_closes_its_file_once_example :
  let born := Bzip2Decompressor.constructor 3
                (start (Bzip2Decompressor.fresh true)
                   (answering [(BZ_OK, "data")] [] None)) in
  let cs := [Read; CloseDecompressor] in
  let more := [CloseDecompressor] in
  let whole := calls_in_turn (map decompressor_method (cs ++ more)) (snd born) in
  let later := snd whole in
  fst born = Return tt /\
  fst whole = true /\
  count is_fclose (calls later) = 1%nat /\
  fst (Bzip2Decompressor.read later) = Halt (Crashed "ftell(m_file.file())") /\
  count is_fclose (calls (snd (destroy_decompressor later))) = 1%nat.
Proof.
  intros born cs more whole later.
  assert (Hborn : fst born = Return tt) by reflexivity.
  assert (Hruns : fst whole = true) by reflexivity.
  assert (Hclosed : file_wrapper.file (Bzip2Decompressor.m_file (self later))
                    = None) by reflexivity.
  destruct (@decompressor_closes_its_file_once world system 3 true
              (answering [(BZ_OK, "data")] [] None) cs more Hborn)
    as (_ & _ & _ & Hcrash & Hdead).
  destruct (Hdead Hruns) as (_ & _ & Honce).
  split; [exact Hborn|]. split; [exact Hruns|]. split; [reflexivity|].
  split; [exact (f_equal fst (Hcrash Hclosed))|].
  apply Honce. discriminate.
Defined.

(** The library reports a data error: [read] throws it with the code in
    the message, and the offset stays 0. *)
Lemma read_returns_the_bytes_or_throws_example :
  let s := start (decompressor 3 false)
             (answering [(BZ_DATA_ERROR, "")] [] None) in
  fst (Bzip2Decompressor.read s)
  = Throw (bzip2_error "bzip2 error: read failed: -4" BZ_DATA_ERROR 0) /\
  self (snd (Bzip2Decompressor.read s)) = self s.
Proof.
  intros s.
  assert (Hopen : Bzip2Decompressor.m_bzfile (self s) = true) by reflexivity.
  assert (Hgoing : Bzip2Decompressor.m_stream_end (self s) = false)
    by reflexivity.
  assert (Hsize : input_buffer_size < INT_MAX) by reflexivity.
  assert (Hread : BZ2_bzRead input_buffer_size (sys s)
                  = ((BZ_DATA_ERROR, ""), answering [] [] None)) by reflexivity.
  assert (Hstatus : BZ_DATA_ERROR <> BZ_STREAM_END) by discriminate.
  destruct (@read_returns_the_bytes_or_throws world system s BZ_DATA_ERROR "" _
              Hopen Hgoing Hsize Hread Hstatus)
    as (_ & _ & _ & Hbad).
  assert (Hnot_ok : BZ_DATA_ERROR <> BZ_OK) by discriminate.
  exact (Hbad Hnot_ok).
Defined.

(** The last stream ends before the end of the file and no new stream
    opens: the next [read] stops at the assertion. *)
Lemma read_after_failed_reopen_is_refused_example :
  let s := start (decompressor 3 false) no_new_stream in
  let s1 := snd (Bzip2Decompressor.read s) in
  fst (Bzip2Decompressor.read s) = Return "last" /\
  fst (Bzip2Decompressor.read s1) = Halt (AssertionFailed "m_bzfile") /\
  calls (snd (destroy_decompressor s1)) = calls s1 ++ [Call_fclose 3].
Proof.
  intros s s1.
  assert (Hopen : Bzip2Decompressor.m_bzfile (self s) = true) by reflexivity.
  assert (Hgoing : Bzip2Decompressor.m_stream_end (self s) = false)
    by reflexivity.
  assert (Hfile : file_wrapper.file (Bzip2Decompressor.m_file (self s)) = Some 3)
    by reflexivity.
  assert (Hsize : input_buffer_size < INT_MAX) by reflexivity.
  pose (w1 := snd (BZ2_bzRead input_buffer_size (sys s))).
  assert (Hread : BZ2_bzRead input_buffer_size (sys s)
                  = ((BZ_STREAM_END, "last"), w1)) by reflexivity.
  assert (Heof : feof (Some 3) w1 = false) by reflexivity.
  assert (Hunused : BZ2_bzReadGetUnused w1 = ((BZ_OK, ""), w1)) by reflexivity.
  assert (Hclose : BZ2_bzReadClose w1 = (BZ_OK, w1)) by reflexivity.
  assert (Hreopen : BZ2_bzReadOpen "" w1 = ((BZ_MEM_ERROR, false), w1))
    by reflexivity.
  assert (Hfail : false = false \/ BZ_MEM_ERROR <> BZ_OK)
    by (left; reflexivity).
  destruct (@read_after_failed_reopen_is_refused world system s 3 "last"
              BZ_MEM_ERROR false w1 w1 w1 w1
              Hopen Hgoing Hfile Hsize Hread Heof Hunused Hclose Hreopen Hfail)
    as (Hout & _ & _ & _ & Hrefused & _ & _ & Hdead).
  split; [exact Hout|]. split; [exact Hrefused|exact Hdead].
Defined.

Lemma decompressor_close_cleans_up_then_raises_example :
  let s := start (decompressor 3 true) quiet in
  calls (snd (Bzip2Decompressor.close s))
  = [Call_remove_buffered_pages 3 None; Call_BZ2_bzReadClose; Call_fclose 3] /\
  fst (Bzip2Decompressor.close s) = Return tt.
Proof.
  intros s.
  assert (Hopen : Bzip2Decompressor.m_bzfile (self s) = true) by reflexivity.
  assert (Hfile : file_wrapper.file (Bzip2Decompressor.m_file (self s)) = Some 3)
    by reflexivity.
  assert (Hclose : BZ2_bzReadClose (sys s) = (BZ_OK, quiet)) by reflexivity.
  destruct (@decompressor_close_cleans_up_then_raises world system s 3 BZ_OK quiet
              Hopen Hfile Hclose)
    as (Hcalls & _ & _ & _ & _ & Hout).
  split; [exact Hcalls|exact Hout].
Defined.

(** The buffer does not decode: the error is thrown by the first [read],
    and the next two return the empty string. *)
Lemma buffer_read_by_status_example :
  let s := start (buffer_decompressor "BZh9")
             (answering [] [(BZ_DATA_ERROR, "")] None) in
  let s1 := snd (Bzip2BufferDecompressor.read s) in
  fst (Bzip2BufferDecompressor.read s)
  = Throw (bzip2_error "bzip2 error: decompress failed: " BZ_DATA_ERROR 0) /\
  repeatedly 2 Bzip2BufferDecompressor.read s1 = ([Return ""; Return ""], s1).
Proof.
  intros s s1.
  assert (Hbuffer : Bzip2BufferDecompressor.m_buffer (self s) = Some "BZh9")
    by reflexivity.
  assert (Hdecode : BZ2_bzDecompress 10240 (sys s)
                    = ((BZ_DATA_ERROR, ""), answering [] [] None))
    by reflexivity.
  destruct (@buffer_read_by_status world system s "BZh9" BZ_DATA_ERROR "" _ 2%nat
              Hbuffer Hdecode)
    as (_ & _ & Hout & _ & Hlater).
  assert (Hnot_ok : BZ_DATA_ERROR <> BZ_OK) by discriminate.
  split; [exact Hout|exact (Hlater Hnot_ok)].
Defined.

Lemma buffer_read_after_close_calls_the_library_example :
  let s := start (buffer_decompressor "BZh9") one_block in
  let s1 := snd (Bzip2BufferDecompressor.close s) in
  calls (snd (Bzip2BufferDecompressor.read s1))
  = [Call_BZ2_bzDecompressEnd; Call_BZ2_bzDecompress].
Proof.
  intros s s1.
  assert (Hbuffer : Bzip2BufferDecompressor.m_buffer (self s) = Some "BZh9")
    by reflexivity.
  exact (proj2 (@buffer_read_after_close_calls_the_library world system s "BZh9"
                  Hbuffer)).
Defined.

(** No write stream can be opened on descriptor 3: the file is closed
    again and the error thrown. *)
Lemma failed_compressor_gives_the_descriptor_back_example :
  let r := @new_compressor bool no_streams 3
             {| self := Bzip2Compressor.fresh true; sys := true; calls := [] |} in
  fst r = Throw (bzip2_error "bzip2 error: write open failed" BZ_MEM_ERROR 0) /\
  calls (snd r) = [Call_fdopen 3 "wb"; Call_BZ2_bzWriteOpen; Call_fclose 3].
Proof.
  intros r.
  assert (Hthrows : fst r = Throw (bzip2_error "bzip2 error: write open failed"
                                     BZ_MEM_ERROR 0)) by reflexivity.
  destruct (@failed_compressor_gives_the_descriptor_back bool no_streams 3 true true)
    as (_ & _ & Hfailed).
  split; [exact Hthrows|]. exact (proj2 (Hfailed _ Hthrows)).
Defined.

(** [fdopen] fails on descriptor 3: the descriptor is closed and the
    error thrown. *)
Lemma failed_decompressor_gives_the_descriptor_back_example :
  let r := @new_decompressor bool no_streams 3
             {| self := Bzip2Decompressor.fresh true; sys := false; calls := [] |} in
  fst r = Throw (system_error 24 "fdopen failed") /\
  calls (snd r) = [Call_fdopen 3 "rb"; Call_close 3].
Proof.
  intros r.
  assert (Hthrows : fst r = Throw (system_error 24 "fdopen failed"))
    by reflexivity.
  destruct (@failed_decompressor_gives_the_descriptor_back bool no_streams 3 true
              false)
    as (_ & _ & Hfailed).
  split; [exact Hthrows|]. exact (proj2 (Hfailed _ Hthrows)).
Defined.

End LifeExamples.

(** ** Shutting down *)

Section ShutdownFacts.

Import Queue ReadThread.

Variables (E decompressor : Type).
Variable read : decompressor -> result E string * decompressor.
Variable close_decompressor : decompressor -> result E unit * decompressor.

Local Abbreviation step := (run_in_thread_step read close_decompressor).
Local Abbreviation run := (ReadThread.run read close_decompressor).
Local Abbreviation perform := (ReadThread.perform read close_decompressor).
Local Abbreviation manager := (ReadThread.manager E decompressor).

(** An end marker in the queue stays ahead of a consumer until it has
    popped it. *)
Lemma pops_keep_the_end (j : nat) :
  forall (q : list (future E string)) (n : nat),
    existsb ends_stream q = true ->
    let w := snd (pops j {| Queue.m_queue := q; Queue.m_done := false; waits := n |}) in
    Queue.m_done w = true \/
    (Queue.m_done w = false /\ existsb ends_stream (Queue.m_queue w) = true).
Proof.
  induction j as [|j IH]; intros q n Hq; cbn [pops].
  - right. split; [reflexivity|exact Hq].
  - destruct q as [|[v|e] q]; [discriminate| |].
    + rewrite pop_ready. cbn [existsb ends_stream] in Hq.
      destruct (is_end v) eqn:Hv.
      * rewrite pops_done by reflexivity. left. reflexivity.
      * cbn [orb] in Hq. specialize (IH q (S n) Hq).
        destruct (pops j _) as [rs w]. exact IH.
    + rewrite pop_failed. cbn [existsb ends_stream orb] in Hq.
      specialize (IH q (S n) Hq).
      destruct (pops j _) as [rs w]. exact IH.
Qed.

Lemma step_keeps_joinable (m : manager) :
  joinable (step m) = joinable m /\
  (thread_pc m = Exited -> thread_pc (step m) = Exited).
Proof.
  destruct m as [d q dn p j r]. unfold run_in_thread_step.
  cbn [thread_pc ReadThread.m_done m_decompressor ReadThread.m_queue].
  destruct p; try (split; [reflexivity|discriminate]).
  - destruct dn; split; try reflexivity; discriminate.
  - destruct (read d) as [[data|e] d']; [destruct (empty data)|];
      split; try reflexivity; discriminate.
  - destruct (close_decompressor d) as [[u|e] d'];
      split; try reflexivity; discriminate.
  - split; reflexivity.
Qed.

Lemma joined_after_exit (schedule : list action) :
  forall m : manager,
    (joinable m = false -> thread_pc m = Exited) ->
    joinable (run schedule m) = false -> thread_pc (run schedule m) = Exited.
Proof.
  induction schedule as [|a schedule IH]; intros m Hm; cbn [ReadThread.run].
  - exact Hm.
  - apply IH. destruct a; cbn [ReadThread.perform].
    + destruct (step_keeps_joinable m) as [-> Hexit]. auto.
    + exact Hm.
    + rewrite close_cases.
      destruct (joinable m) eqn:Hj.
      * destruct (has_exited m) eqn:Hex; cbn [snd joinable thread_pc stop].
        -- intros _. unfold has_exited in Hex.
           destruct (thread_pc m); try discriminate. reflexivity.
        -- rewrite Hj. discriminate.
      * cbn [snd joinable thread_pc stop]. intros _. apply Hm. reflexivity.
Qed.

(** Once [close()] of the manager has returned, the consumer can always
    go: the thread has returned, the queue is as it was and holds the end
    marker, and a [queue_wrapper] on that queue, however many futures it
    has popped already, is destroyed without waiting and without an
    exception getting out; it is done then. *)
Theorem consumer_can_go_once_close_returned
  (d0 : decompressor) (schedule : list action) (j : nat) :
  let m := run schedule (make d0) in
  fst (ReadThread.close m) = Return tt ->
  let q := ReadThread.m_queue (snd (ReadThread.close m)) in
  let w := snd (pops j (Queue.make q)) in
  thread_pc m = Exited /\
  q = ReadThread.m_queue m /\
  existsb ends_stream q = true /\
  fst (Queue.destructor w) = Return tt /\
  Queue.is_done (snd (Queue.destructor w)) = true.
Proof.
  intros m Hclose q w.
  assert (Hexited : thread_pc m = Exited).
  { rewrite close_cases in Hclose.
    destruct (joinable m) eqn:Hj.
    - unfold has_exited in Hclose.
      destruct (thread_pc m); try discriminate. reflexivity.
    - apply (joined_after_exit schedule (make d0)); [discriminate|exact Hj]. }
  assert (Hsame : q = ReadThread.m_queue m).
  { unfold q. apply (close_same_thread m). }
  assert (Hend : existsb ends_stream q = true).
  { rewrite Hsame.
    pose proof (queue_shape_run read close_decompressor schedule (make d0)
                  (queue_shape_make E d0)) as Hshape.
    fold m in Hshape. unfold queue_shape in Hshape. rewrite Hexited in Hshape.
    destruct Hshape as (chunks & _ & [-> | [e ->]]);
      rewrite existsb_app; cbn; apply orb_true_r. }
  split; [exact Hexited|]. split; [exact Hsame|]. split; [exact Hend|].
  pose proof (pops_keep_the_end j q 0 Hend) as Hw.
  change (snd (pops j {| Queue.m_queue := q; Queue.m_done := false; waits := 0 |}))
    with w in Hw.
  cbv zeta in Hw. rewrite destructor_is_drain. unfold is_done.
  destruct Hw as [Hdone | [Hactive Hmarker]].
  - rewrite drain_done by exact Hdone. split; [reflexivity|exact Hdone].
  - rewrite drain_active by exact Hactive. rewrite Hmarker.
    split; reflexivity.
Qed.

End ShutdownFacts.

Section ShutdownExamples.

Import Queue ReadThread Forwarding.
Open Scope string_scope.
Open Scope list_scope.

(** One chunk and the end of the file; [close()] after seven steps of the
    thread; the consumer has popped one future. *)
Lemma consumer_can_go_once_close_returned_example :
  let m := ReadThread.run counted_read counted_close (repeat Background 7)
             (make ([Value "ab"], 0)) in
  let q := ReadThread.m_queue (snd (ReadThread.close m)) in
  let w := snd (pops 1 (Queue.make q)) in
  fst (ReadThread.close m) = Return tt /\
  q = [Ready "ab"; Ready ""] /\
  fst (Queue.destructor w) = Return tt /\
  Queue.is_done (snd (Queue.destructor w)) = true.
Proof.
  intros m q w.
  assert (Hclose : fst (ReadThread.close m) = Return tt) by reflexivity.
  destruct (@consumer_can_go_once_close_returned
              _ _ counted_read counted_close ([Value "ab"], 0)
              (repeat Background 7) 1 Hclose)
    as (_ & _ & _ & Hgo & Hdone).
  split; [exact Hclose|]. split; [reflexivity|].
  split; [exact Hgo|exact Hdone].
Defined.

End ShutdownExamples.
